(** * appium-ios-remotexpc: bplist encoder, usbmux client, lockdown TLS
      upgrade and RemoteXPC handshake

    A shallow embedding of the TypeScript sources
      - [src/lib/plist/binary-plist-creator.ts]   (module [BPlist])
      - [lib/usbmux/index.ts]                      (modules [Socket], [Usbmux])
      - [lib/lockdown/index.ts]                    (module [Lockdown])
      - [lib/RemoteXPC/handshake.ts]               (module [Handshake])
    and the properties of the natural-language specification that were
    checked against them.

    Conventions.  A JavaScript [number] holding an integer is a [Z]; a
    [Buffer] is a list of bytes, each byte a [Z] in [0, 255]; a JavaScript
    string is the list of its UTF-16 code units where the encoder looks at
    code units, and a Rocq [string] where only ASCII text is compared.
    A function that can throw returns a [Result]. *)

From Stdlib Require Import Ascii.
From stdpp Require Import base numbers list gmap strings.

Local Open Scope Z_scope.
#[local] Set Warnings "-register-all".

(** ** Exceptions and the error monad *)

Inductive Result (E A : Type) : Type :=
| Ok (a : A)
| Err (e : E).
Arguments Ok {E A} a.
Arguments Err {E A} e.

(** [x ← r; k] runs [k] on the value of [r] and passes an exception on. *)
#[global] Instance Result_bind {E} : MBind (Result E) :=
  fun A B (k : A -> Result E B) (r : Result E A) =>
    match r with
    | Ok a => k a
    | Err e => Err e
    end.

#[global] Instance Result_ret {E} : MRet (Result E) := fun A a => Ok a.

Definition is_ok {E A} (r : Result E A) : bool :=
  match r with Ok _ => true | Err _ => false end.

(** A counted [for (let i = 0; i < n; i++)] loop whose body may throw. *)
Fixpoint for_loop {E St} (n : nat) (i : nat) (body : nat -> St -> Result E St) (s : St)
  : Result E St :=
  match n with
  | O => Ok s
  | S n' => s' ← body i s; for_loop n' (S i) body s'
  end.

(** ** Node's [Buffer] *)

Module Buffer.

Definition t := list Z.

(** The only exception the [Buffer] writers raise. *)
Inductive RangeError := ERR_OUT_OF_RANGE.

(** [Buffer.alloc(n)]: [n] zero bytes. *)
Definition alloc (n : nat) : t := replicate n 0.

(** [Buffer.from(array)]: every entry is truncated to a byte. *)
Definition from_array (l : list Z) : t := map (fun x => x `mod` 256) l.

(** [Buffer.concat]. *)
Definition concat (l : list t) : t := List.concat l.

(** Little-endian, then big-endian, two's complement bytes of [v]. *)
Fixpoint le_bytes (w : nat) (v : Z) : list Z :=
  match w with
  | O => []
  | S w' => v `mod` 256 :: le_bytes w' (v `div` 256)
  end.

Definition be_bytes (w : nat) (v : Z) : list Z := rev (le_bytes w v).

(** Overwrite [bs] into [buf] at byte [pos]. *)
Definition splice (buf : t) (pos : nat) (bs : list Z) : t :=
  take pos buf ++ bs ++ drop (pos + length bs)%nat buf.

(** The integer writers: a value outside [lo, hi], or a position that
    does not leave room for [w] bytes, raises a [RangeError]. *)
Definition write_int (lo hi : Z) (w : nat) (buf : t) (value : Z) (pos : nat)
  : Result RangeError t :=
  if bool_decide (lo <= value <= hi) && bool_decide (pos + w <= length buf)%nat
  then Ok (splice buf pos (be_bytes w value))
  else Err ERR_OUT_OF_RANGE.

Definition writeUInt8 := write_int 0 255 1.
Definition writeUInt16BE := write_int 0 65535 2.
Definition writeUInt32BE := write_int 0 4294967295 4.
Definition writeBigUInt64BE := write_int 0 18446744073709551615 8.
Definition writeInt8 := write_int (-128) 127 1.
Definition writeInt16BE := write_int (-32768) 32767 2.
Definition writeInt32BE := write_int (-2147483648) 2147483647 4.
Definition writeBigInt64BE :=
  write_int (-9223372036854775808) 9223372036854775807 8.

(** [writeDoubleBE]: the double is carried as its IEEE-754 bit pattern. *)
Definition writeDoubleBE (buf : t) (bits : Z) (pos : nat) : Result RangeError t :=
  if bool_decide (pos + 8 <= length buf)%nat
  then Ok (splice buf pos (be_bytes 8 bits))
  else Err ERR_OUT_OF_RANGE.

(** [Buffer.from(s, 'ascii')]: one byte per code unit. *)
Definition from_ascii (s : list Z) : t := map (fun cu => cu `mod` 256) s.

(** [Buffer.from(s, 'utf16le')]: low byte, then high byte, per code unit. *)
Definition from_utf16le (s : list Z) : t :=
  List.concat (map (fun cu => [cu `mod` 256; (cu `div` 256) `mod` 256]) s).

(** The UTF-16 big-endian bytes of a string: high byte, then low byte.
    Node has no such encoding; the bplist format asks for it. *)
Definition utf16be (s : list Z) : t :=
  List.concat (map (fun cu => [(cu `div` 256) `mod` 256; cu `mod` 256]) s).

(** Read back a big-endian unsigned integer. *)
Definition read_be (bs : list Z) : Z := foldl (fun acc b => acc * 256 + b) 0 bs.

End Buffer.

(** ** src/lib/plist/binary-plist-creator.ts *)

Module BPlist.

Import Buffer.

(** Modelled from the spec: [./constants.js] is not part of the sources at
    hand.  [BPLIST_TYPE] holds the record tags of section 4.1 (null/false/
    true are [0x00]/[0x08]/[0x09], int is [0x1n], real [0x2n], date [0x33],
    data [0x4L], ASCII string [0x5L], UTF-16 string [0x6L], array [0xAL],
    dict [0xDL]); the magic is ["bplist00"] and the trailer has 32 bytes. *)
Module BPLIST_TYPE.
Definition NULL := 0x00.
Definition FALSE := 0x08.
Definition TRUE := 0x09.
Definition INT := 0x10.
Definition REAL := 0x20.
Definition DATE := 0x33.
Definition DATA := 0x40.
Definition STRING_ASCII := 0x50.
Definition STRING_UNICODE := 0x60.
Definition ARRAY := 0xA0.
Definition DICT := 0xD0.
End BPLIST_TYPE.

Definition BPLIST_MAGIC_AND_VERSION : Buffer.t :=
  [0x62; 0x70; 0x6c; 0x69; 0x73; 0x74; 0x30; 0x30].

Definition BPLIST_TRAILER_SIZE : nat := 32.

(** *** Values

    Arrays, dictionaries, [Buffer]s and [Date]s are JavaScript objects:
    the encoder's [Map] tells them apart by reference, so each carries the
    identity [id] of the object it stands for (two nodes with the same
    [id] are one shared object).  Primitives are compared by value.
    [PNum] is a [number] for which [Number.isInteger] holds, [PReal] any
    other [number], given by its IEEE-754 bits; [PDate] carries the bits of
    [value.getTime() / 1000 - APPLE_EPOCH_OFFSET].  A dictionary lists its
    entries in [Object.keys] order; its keys are distinct, so [dict[key]] is
    the value listed with [key]. *)
Inductive PlistValue : Type :=
| PNull
| PBool (b : bool)
| PNum (n : Z)
| PBigInt (n : Z)
| PReal (bits : Z)
| PDate (id : nat) (timestamp_bits : Z)
| PData (id : nat) (bytes : list Z)
| PString (s : list Z)
| PArray (id : nat) (items : list PlistValue)
| PDict (id : nat) (entries : list (list Z * PlistValue)).

(** Keys of a JavaScript [Map<PlistValue, number>] (SameValueZero). *)
Inductive MapKey : Type :=
| KNull
| KBool (b : bool)
| KNum (n : Z)
| KBigInt (n : Z)
| KReal (bits : Z)
| KStr (s : list Z)
| KRef (id : nat).

#[global] Instance MapKey_eq_dec : EqDecision MapKey.
Proof. solve_decision. Defined.

#[global] Instance MapKey_countable : Countable MapKey.
Proof.
  refine (inj_countable'
    (fun k => match k with
              | KNull => inl ()
              | KBool b => inr (inl b)
              | KNum n => inr (inr (inl n))
              | KBigInt n => inr (inr (inr (inl n)))
              | KReal n => inr (inr (inr (inr (inl n))))
              | KStr s => inr (inr (inr (inr (inr (inl s)))))
              | KRef i => inr (inr (inr (inr (inr (inr i)))))
              end)
    (fun e => match e with
              | inl () => KNull
              | inr (inl b) => KBool b
              | inr (inr (inl n)) => KNum n
              | inr (inr (inr (inl n))) => KBigInt n
              | inr (inr (inr (inr (inl n)))) => KReal n
              | inr (inr (inr (inr (inr (inl s))))) => KStr s
              | inr (inr (inr (inr (inr (inr i))))) => KRef i
              end) _).
  by intros [].
Defined.

Definition key_of (value : PlistValue) : MapKey :=
  match value with
  | PNull => KNull
  | PBool b => KBool b
  | PNum n => KNum n
  | PBigInt n => KBigInt n
  | PReal bits => KReal bits
  | PString s => KStr s
  | PDate id _ | PData id _ | PArray id _ | PDict id _ => KRef id
  end.

(** *** class BinaryPlistCreator *)

Record BinaryPlistCreator : Type := mkCreator {
  _objectTable : list PlistValue;
  _objectRefMap : gmap MapKey Z;
  _objectRefSize : Z;
  _offsetSize : Z;
  _rootObject : PlistValue;
}.

Definition new (rootObject : PlistValue) : BinaryPlistCreator :=
  {| _objectTable := []; _objectRefMap := ∅; _objectRefSize := 0;
     _offsetSize := 0; _rootObject := rootObject |}.

Definition set_objectRefSize (c : BinaryPlistCreator) (n : Z) :=
  mkCreator (_objectTable c) (_objectRefMap c) n (_offsetSize c) (_rootObject c).

Definition set_offsetSize (c : BinaryPlistCreator) (n : Z) :=
  mkCreator (_objectTable c) (_objectRefMap c) (_objectRefSize c) n (_rootObject c).

(** [this._objectRefMap.has(value)]. *)
Definition has (c : BinaryPlistCreator) (value : PlistValue) : bool :=
  bool_decide (is_Some (_objectRefMap c !! key_of value)).

(** The three statements that add [value] to the table and the map. *)
Definition add (c : BinaryPlistCreator) (value : PlistValue) : BinaryPlistCreator :=
  let id := Z.of_nat (length (_objectTable c)) in
  mkCreator (_objectTable c ++ [value]) (<[key_of value := id]> (_objectRefMap c))
            (_objectRefSize c) (_offsetSize c) (_rootObject c).

(** [_collectObjectsRecursive(key)] for a dictionary key: a string has no
    children, so the call is the guard and the three statements. *)
Definition collectKey (key : list Z) (c : BinaryPlistCreator) : BinaryPlistCreator :=
  if has c (PString key) then c else add c (PString key).

Fixpoint _collectObjectsRecursive (value : PlistValue) (c : BinaryPlistCreator)
  : BinaryPlistCreator :=
  if has c value then c
  else
    let c := add c value in
    match value with
    | PArray _ items =>
        foldl (fun c item => _collectObjectsRecursive item c) c items
    | PDict _ entries =>
        foldl (fun c kv => _collectObjectsRecursive (snd kv) (collectKey (fst kv) c))
              c entries
    | _ => c
    end.

Definition _calculateMinByteSize (value : Z) : Z :=
  if bool_decide (value < 256) then 1
  else if bool_decide (value < 65536) then 2
  else if bool_decide (value < 4294967296) then 4
  else 8.

Definition _collectObjects (c : BinaryPlistCreator) : BinaryPlistCreator :=
  let c := _collectObjectsRecursive (_rootObject c) c in
  let numObjects := Z.of_nat (length (_objectTable c)) in
  set_objectRefSize c (_calculateMinByteSize (numObjects - 1)).

Definition _calculateObjectDataLength (buffers : list Buffer.t) : Z :=
  foldl (fun sum buffer => sum + Z.of_nat (length buffer)) 0 buffers.

Definition _writeOffsetToBuffer (buffer : Buffer.t) (position : nat) (value size : Z)
  : Result RangeError Buffer.t :=
  if bool_decide (size = 1) then writeUInt8 buffer value position
  else if bool_decide (size = 2) then writeUInt16BE buffer value position
  else if bool_decide (size = 4) then writeUInt32BE buffer value position
  else if bool_decide (size = 8) then writeBigUInt64BE buffer value position
  else Ok buffer.

Definition _writeBigIntToBuffer (buffer : Buffer.t) (position : nat) (value : Z)
  : Result RangeError Buffer.t :=
  writeBigUInt64BE buffer value position.

Definition _createNullData : Buffer.t := from_array [BPLIST_TYPE.NULL].

Definition _createBooleanData (value : bool) : Buffer.t :=
  from_array [if value then BPLIST_TYPE.TRUE else BPLIST_TYPE.FALSE].

(** The argument of [_createIntegerData]: a [number] or a [bigint]. *)
Inductive IntValue : Type :=
| Number (n : Z)
| BigInt (n : Z).

Definition _createIntegerData (value : IntValue) : Result RangeError Buffer.t :=
  match value with
  | BigInt value =>
      buffer ← writeUInt8 (alloc 9) (Z.lor BPLIST_TYPE.INT 3) 0;
      writeBigInt64BE buffer value 1
  | Number value =>
      if bool_decide (value >= 0) && bool_decide (value <= 255) then
        buffer ← writeUInt8 (alloc 2) (Z.lor BPLIST_TYPE.INT 0) 0;
        writeUInt8 buffer value 1
      else if bool_decide (value >= -128) && bool_decide (value <= 127) then
        buffer ← writeUInt8 (alloc 2) (Z.lor BPLIST_TYPE.INT 0) 0;
        writeInt8 buffer value 1
      else if bool_decide (value >= -32768) && bool_decide (value <= 32767) then
        buffer ← writeUInt8 (alloc 3) (Z.lor BPLIST_TYPE.INT 1) 0;
        writeInt16BE buffer value 1
      else if bool_decide (value >= -2147483648) && bool_decide (value <= 2147483647) then
        buffer ← writeUInt8 (alloc 5) (Z.lor BPLIST_TYPE.INT 2) 0;
        writeInt32BE buffer value 1
      else
        buffer ← writeUInt8 (alloc 9) (Z.lor BPLIST_TYPE.INT 3) 0;
        writeBigInt64BE buffer value 1
  end.

Definition _createFloatData (bits : Z) : Result RangeError Buffer.t :=
  buffer ← writeUInt8 (alloc 9) (Z.lor BPLIST_TYPE.REAL 3) 0;
  writeDoubleBE buffer bits 1.

Definition _createDateData (timestamp_bits : Z) : Result RangeError Buffer.t :=
  buffer ← writeUInt8 (alloc 9) BPLIST_TYPE.DATE 0;
  writeDoubleBE buffer timestamp_bits 1.

Definition _createIntHeader (value : Z) : Result RangeError Buffer.t :=
  if bool_decide (value < 256) then
    buffer ← writeUInt8 (alloc 2) (Z.lor BPLIST_TYPE.INT 0) 0;
    writeUInt8 buffer value 1
  else if bool_decide (value < 65536) then
    buffer ← writeUInt8 (alloc 3) (Z.lor BPLIST_TYPE.INT 1) 0;
    writeUInt16BE buffer value 1
  else
    buffer ← writeUInt8 (alloc 5) (Z.lor BPLIST_TYPE.INT 2) 0;
    writeUInt32BE buffer value 1.

(** The header shared by data, strings, arrays and dictionaries: the
    length in the low nibble of the tag when it is below 15, and otherwise
    the nibble [0x0f] followed by an integer header. *)
Definition lengthHeader (type : Z) (len : Z) : Result RangeError Buffer.t :=
  if bool_decide (len < 15) then Ok (from_array [Z.lor type len])
  else
    lengthBuffer ← _createIntHeader len;
    Ok (concat [from_array [Z.lor type 0x0f]; lengthBuffer]).

Definition _createBufferData (value : list Z) : Result RangeError Buffer.t :=
  let len := Z.of_nat (length value) in
  header ← lengthHeader BPLIST_TYPE.DATA len;
  Ok (concat [header; value]).

(** [/^[\x00-\x7F]*$/.test(value)]. *)
Definition isAscii (value : list Z) : bool :=
  forallb (fun cu => bool_decide (cu <= 0x7F)) value.

Definition _createStringData (value : list Z) : Result RangeError Buffer.t :=
  let isAscii := isAscii value in
  let stringBuffer := if isAscii then from_ascii value else from_utf16le value in
  let len := if isAscii then Z.of_nat (length value)
             else Z.of_nat (length stringBuffer) `div` 2 in
  header ← lengthHeader
             (if isAscii then BPLIST_TYPE.STRING_ASCII else BPLIST_TYPE.STRING_UNICODE)
             len;
  Ok (concat [header; stringBuffer]).

(** [this._objectRefMap.get(value) ?? 0]. *)
Definition refOf (c : BinaryPlistCreator) (value : option PlistValue) : Z :=
  default 0 (v ← value; _objectRefMap c !! key_of v).

(** The loop that writes one reference per slot of [refs]. *)
Definition writeRefs (c : BinaryPlistCreator) (refs : list Z)
  : Result RangeError Buffer.t :=
  let size := _objectRefSize c in
  for_loop (length refs) 0
    (fun i buf => _writeOffsetToBuffer buf (i * Z.to_nat size)%nat
                    (default 0 (refs !! i)) size)
    (alloc (length refs * Z.to_nat size)).

Definition _createArrayData (c : BinaryPlistCreator) (value : list PlistValue)
  : Result RangeError Buffer.t :=
  let len := Z.of_nat (length value) in
  header ← lengthHeader BPLIST_TYPE.ARRAY len;
  refBuffer ← writeRefs c (map (fun item => refOf c (Some item)) value);
  Ok (concat [header; refBuffer]).

(** [value[key]] on a dictionary. *)
Definition dict_get (entries : list (list Z * PlistValue)) (key : list Z)
  : option PlistValue :=
  snd <$> find (fun kv => bool_decide (fst kv = key)) entries.

Definition _createDictionaryData (c : BinaryPlistCreator)
    (value : list (list Z * PlistValue)) : Result RangeError Buffer.t :=
  let keys := map fst value in
  let len := Z.of_nat (length keys) in
  header ← lengthHeader BPLIST_TYPE.DICT len;
  keyRefBuffer ← writeRefs c (map (fun key => refOf c (Some (PString key))) keys);
  valueRefBuffer ← writeRefs c (map (fun key => refOf c (dict_get value key)) keys);
  Ok (concat [header; keyRefBuffer; valueRefBuffer]).

Definition _createObjectData (c : BinaryPlistCreator) (value : PlistValue)
  : Result RangeError Buffer.t :=
  match value with
  | PNull => Ok _createNullData
  | PBool b => Ok (_createBooleanData b)
  | PBigInt n => _createIntegerData (BigInt n)
  | PNum n => _createIntegerData (Number n)
  | PReal bits => _createFloatData bits
  | PDate _ bits => _createDateData bits
  | PData _ bytes => _createBufferData bytes
  | PString s => _createStringData s
  | PArray _ items => _createArrayData c items
  | PDict _ entries => _createDictionaryData c entries
  end.

Definition _createOffsetTable (c : BinaryPlistCreator) (objectOffsets : list Z)
  : Result RangeError Buffer.t :=
  let numObjects := length (_objectTable c) in
  let size := _offsetSize c in
  for_loop numObjects 0
    (fun i buf => _writeOffsetToBuffer buf (i * Z.to_nat size)%nat
                    (default 0 (objectOffsets !! i)) size)
    (alloc (numObjects * Z.to_nat size)).

Definition _createTrailer (c : BinaryPlistCreator) (numObjects offsetTableOffset : Z)
  : Result RangeError Buffer.t :=
  let trailer := alloc BPLIST_TRAILER_SIZE in
  let trailer := splice trailer 0 (replicate 6 0) in
  trailer ← writeUInt8 trailer (_offsetSize c) 6;
  trailer ← writeUInt8 trailer (_objectRefSize c) 7;
  trailer ← _writeBigIntToBuffer trailer 8 numObjects;
  trailer ← _writeBigIntToBuffer trailer 16 0;
  _writeBigIntToBuffer trailer 24 offsetTableOffset.

(** The [for (const value of this._objectTable)] loop of [create]: the
    offset pushed for a record is the length of the records before it. *)
Fixpoint createObjects (c : BinaryPlistCreator) (table : list PlistValue)
    (objectOffsets : list Z) (objectData : list Buffer.t)
  : Result RangeError (list Z * list Buffer.t) :=
  match table with
  | [] => Ok (objectOffsets, objectData)
  | value :: rest =>
      let objectOffsets := objectOffsets ++ [_calculateObjectDataLength objectData] in
      data ← _createObjectData c value;
      createObjects c rest objectOffsets (objectData ++ [data])
  end.

(** Everything [create] computes on the way to its buffer. *)
Record Image : Type := mkImage {
  creator : BinaryPlistCreator;
  objectOffsets : list Z;
  objectData : list Buffer.t;
  offsetTable : Buffer.t;
  trailer : Buffer.t;
}.

Definition create_image (c : BinaryPlistCreator) : Result RangeError Image :=
  let c := _collectObjects c in
  od ← createObjects c (_objectTable c) [] [];
  let objectOffsets := fst od in
  let objectData := snd od in
  let maxOffset := _calculateObjectDataLength objectData in
  let c := set_offsetSize c (_calculateMinByteSize maxOffset) in
  offsetTable ← _createOffsetTable c objectOffsets;
  let offsetTableOffset :=
    Z.of_nat (length BPLIST_MAGIC_AND_VERSION) + _calculateObjectDataLength objectData in
  trailer ← _createTrailer c (Z.of_nat (length (_objectTable c))) offsetTableOffset;
  Ok (mkImage c objectOffsets objectData offsetTable trailer).

Definition image_bytes (im : Image) : Buffer.t :=
  concat ([BPLIST_MAGIC_AND_VERSION] ++ objectData im ++ [offsetTable im; trailer im]).

Definition create (c : BinaryPlistCreator) : Result RangeError Buffer.t :=
  im ← create_image c; Ok (image_bytes im).

Definition createBinaryPlist (obj : PlistValue) : Result RangeError Buffer.t :=
  create (new obj).

(** JavaScript truthiness of a value ([if (v)], [!v], [a && b]).  A
    [PReal] is a non-integer double, so it is falsy only when it is a NaN:
    exponent bits all ones and a non-zero mantissa. *)
Definition is_nan (bits : Z) : bool :=
  bool_decide (Z.land (Z.shiftr bits 52) 0x7ff = 0x7ff)
  && negb (bool_decide (Z.land bits 0xfffffffffffff = 0)).

Definition truthy (v : PlistValue) : bool :=
  match v with
  | PNull => false
  | PBool b => b
  | PNum n | PBigInt n => negb (bool_decide (n = 0))
  | PReal bits => negb (is_nan bits)
  | PString s => negb (bool_decide (s = []))
  | PDate _ _ | PData _ _ | PArray _ _ | PDict _ _ => true
  end.

(** Truthiness of a property that may be absent ([undefined] is falsy). *)
Definition truthy_opt (v : option PlistValue) : bool :=
  match v with
  | Some v => truthy v
  | None => false
  end.

(** Code units of an ASCII literal. *)
Definition js (s : string) : list Z :=
  map (fun a => Z.of_N (Ascii.N_of_ascii a)) (String.list_ascii_of_string s).

(** [v === "literal"] and [v === n] on a property that may be absent: a
    string equals a string with the same code units, a [number] a [number]
    of the same value, and nothing else is strictly equal to either. *)
Definition strict_eq_string (v : option PlistValue) (literal : string) : bool :=
  match v with
  | Some (PString s) => bool_decide (s = js literal)
  | _ => false
  end.

Definition strict_eq_number (v : option PlistValue) (n : Z) : bool :=
  match v with
  | Some (PNum m) => bool_decide (m = n)
  | _ => false
  end.

End BPlist.

(** ** lib/usbmux/index.ts: socket discovery *)

Module Socket.

Import BPlist.

Definition USBMUXD_PORT : Z := 27015.
Definition LOCKDOWN_PORT : Z := 62078.
Definition DEFAULT_USBMUXD_SOCKET : string := "/var/run/usbmuxd".
Definition DEFAULT_USBMUXD_HOST : string := "127.0.0.1".
Definition MAX_FRAME_SIZE : Z := 1 * 1024 * 1024.

(** A JavaScript [number] as [parseInt] returns it: [NaN], an integer (the
    two zeros are not told apart: they are [===]), or an infinity. *)
Inductive number : Type :=
| NaN
| Num (n : Z)
| Infinity (negative : bool).

(** [Partial<SocketOptions>]: [None] is an absent property. *)
Record SocketOptions : Type := mkSocketOptions {
  socketPath : option string;
  socketPort : option number;
  socketHost : option string;
  timeout : option number;
}.


(** What [getDefaultSocket] reads from its surroundings: the environment
    variable, [process.platform], [os.release()] and which paths
    [fs.promises.access] accepts. *)
Record Process : Type := mkProcess {
  USBMUXD_SOCKET_ADDRESS : option string;
  platform : string;
  os_release : string;
  accessible : string -> bool;
}.

(** [fileExists(path)]. *)
Definition fileExists (proc : Process) (path : string) : bool := accessible proc path.

Definition truthy_string (s : option string) : bool :=
  match s with
  | Some s => negb (bool_decide (s = ""))
  | None => false
  end.

Definition truthy_number (n : option number) : bool :=
  match n with
  | Some (Num n) => negb (bool_decide (n = 0))
  | Some (Infinity _) => true
  | Some NaN | None => false
  end.

Definition to_lower (a : ascii) : ascii :=
  let n := Ascii.N_of_ascii a in
  if bool_decide (65 <= n <= 90)%N then Ascii.ascii_of_N (n + 32) else a.

(** [address.replace(/^(unix):/i, '')]. *)
Definition replace_unix_prefix (address : string) : string :=
  match address with
  | String a (String b (String c (String d (String e rest)))) =>
      if bool_decide (to_lower a = "u"%char) && bool_decide (to_lower b = "n"%char)
         && bool_decide (to_lower c = "i"%char) && bool_decide (to_lower d = "x"%char)
         && bool_decide (e = ":"%char)
      then rest else address
  | _ => address
  end.

(** [s.split(sep)] for a one-character separator: never empty. *)
Fixpoint split (sep : ascii) (s : string) : list string :=
  match s with
  | EmptyString => [EmptyString]
  | String c rest =>
      let parts := split sep rest in
      if bool_decide (c = sep) then EmptyString :: parts
      else match parts with
           | [] => [String c EmptyString]
           | part :: parts => String c part :: parts
           end
  end.

(** [parseInt(s, 10)]: leading white space, an optional sign, then the
    longest run of decimal digits; [NaN] when there is no digit.  The result
    is a double: the integer of the digits rounded to the nearest double,
    ties to even, and an infinity from 2^1024 - 2^970 on (V8 rounds the
    whole run of digits).  White space is the ASCII white space. *)
Definition is_white_space (a : ascii) : bool :=
  let n := Ascii.N_of_ascii a in
  bool_decide (n = 32)%N || bool_decide (9 <= n <= 13)%N.

Fixpoint skip_white_space (s : string) : string :=
  match s with
  | String c rest => if is_white_space c then skip_white_space rest else s
  | EmptyString => s
  end.

Definition digit_of (a : ascii) : option Z :=
  let n := Ascii.N_of_ascii a in
  if bool_decide (48 <= n <= 57)%N then Some (Z.of_N n - 48) else None.

Fixpoint digits (s : string) (acc : option Z) : option Z :=
  match s with
  | String c rest =>
      match digit_of c with
      | Some d => digits rest (Some (10 * default 0 acc + d))
      | None => acc
      end
  | EmptyString => acc
  end.

(** The double nearest to the integer [n >= 0], as an integer: below 2^53
    every integer is a double; above, a double has 53 significant bits. *)
Definition round_to_double (n : Z) : Z :=
  if bool_decide (n < 2 ^ 53) then n
  else
    let e := Z.log2 n - 52 in
    let q := n `div` 2 ^ e in
    let r := n `mod` 2 ^ e in
    let half := 2 ^ (e - 1) in
    let q := if bool_decide (half < r) || (bool_decide (r = half) && Z.odd q)
             then q + 1 else q in
    q * 2 ^ e.

(** The [number] for [sign * n]. *)
Definition to_double (sign n : Z) : number :=
  let m := round_to_double n in
  if bool_decide (m < 2 ^ 1024) then Num (sign * m) else Infinity (bool_decide (sign < 0)).

Definition parseInt (s : string) : number :=
  let s := skip_white_space s in
  let signed :=
    match s with
    | String "-"%char rest => (-1, rest)
    | String "+"%char rest => (1, rest)
    | _ => (1, s)
    end in
  match digits (snd signed) None with
  | Some n => to_double (fst signed) n
  | None => NaN
  end.

(** [/microsoft/i.test(s)]. *)
Fixpoint prefix_ci (p s : string) : bool :=
  match p, s with
  | EmptyString, _ => true
  | String a p', String b s' => bool_decide (to_lower a = to_lower b) && prefix_ci p' s'
  | String _ _, EmptyString => false
  end.

Fixpoint test_ci (p s : string) : bool :=
  prefix_ci p s ||
  match s with
  | String _ s' => test_ci p s'
  | EmptyString => false
  end.

(** The local [defaults] object. *)
Record Defaults : Type := mkDefaults {
  d_socketPath : string;
  d_socketPort : number;
  d_socketHost : string;
  d_timeout : number;
}.

Definition defaults0 : Defaults :=
  mkDefaults DEFAULT_USBMUXD_SOCKET (Num USBMUXD_PORT) DEFAULT_USBMUXD_HOST (Num 5000).

(** Lines 73-84: the environment variable, when it is set and no socket
    option is given, overwrites the host and the port of [defaults], or
    its path. *)
Definition apply_environment (proc : Process) (opts : SocketOptions) : Defaults :=
  if truthy_string (USBMUXD_SOCKET_ADDRESS proc)
     && negb (truthy_string (socketPath opts))
     && negb (truthy_number (socketPort opts))
     && negb (truthy_string (socketHost opts))
  then
    let usbmuxdSocketAddress :=
      replace_unix_prefix (default "" (USBMUXD_SOCKET_ADDRESS proc)) in
    let parts := split ":" usbmuxdSocketAddress in
    let ip := parts !! 0%nat in
    let port := parts !! 1%nat in
    if truthy_string ip && truthy_string port then
      mkDefaults (d_socketPath defaults0) (parseInt (default "" port)) (default "" ip)
                 (d_timeout defaults0)
    else
      mkDefaults usbmuxdSocketAddress (d_socketPort defaults0) (d_socketHost defaults0)
                 (d_timeout defaults0)
  else defaults0.

(** [{ ...defaults, ...opts }]. *)
Definition merge (d : Defaults) (opts : SocketOptions) : Defaults :=
  mkDefaults (default (d_socketPath d) (socketPath opts))
             (default (d_socketPort d) (socketPort opts))
             (default (d_socketHost d) (socketHost opts))
             (default (d_timeout d) (timeout opts)).

(** The argument of [net.createConnection]. *)
Inductive Endpoint : Type :=
| UnixSocket (path : string)
| Tcp (port : number) (host : string).

Inductive SocketError : Type :=
| SocketUnavailable (message : string)
| BadPort (port : number)
| BadPortString (port : string)
| ConnectionTimedOut (timeout : number)
| ConnectError.

Definition isWindowsOrWSL (proc : Process) : bool :=
  bool_decide (platform proc = "win32")
  || (bool_decide (platform proc = "linux") && test_ci "microsoft" (os_release proc)).

(** Lines 86-100: the argument that [net.createConnection] is called
    with, or the error thrown when there is no endpoint. *)
Definition createConnection (proc : Process) (opts : SocketOptions)
  : Result SocketError Endpoint :=
  let d := merge (apply_environment proc opts) opts in
  if fileExists proc (d_socketPath d) then Ok (UnixSocket (d_socketPath d))
  else if isWindowsOrWSL proc then Ok (Tcp (d_socketPort d) (d_socketHost d))
  else Err (SocketUnavailable
              ("The usbmuxd socket at '" +:+ d_socketPath d
               +:+ "' does not exist or is not accessible")).





End Socket.

(** ** Pair records *)

Module PairRecord.

(** Modelled from the spec: the [PairRecord] type of [../pair-record] is
    not part of the sources at hand.  Section 3 gives it as
    [{ HostID, SystemBUID, HostCertificate, HostPrivateKey,
    DeviceCertificate, RootCertificate }]; a field that the record lacks is
    [None], and a field is truthy when it is present and not empty. *)
Record t : Type := mk {
  HostID : option string;
  SystemBUID : option string;
  HostCertificate : option string;
  HostPrivateKey : option string;
  DeviceCertificate : option string;
  RootCertificate : option string;
}.

End PairRecord.

(** ** lib/usbmux/index.ts: class Usbmux *)

Module Usbmux.

Import BPlist.

Module USBMUX_RESULT.
Definition OK : Z := 0.
Definition BADCOMMAND : Z := 1.
Definition BADDEV : Z := 2.
Definition CONNREFUSED : Z := 3.
End USBMUX_RESULT.

Definition PROG_NAME : string := "appium-internal".
Definition CLIENT_VERSION_STRING : string := "appium-internal-1.0.0".

(** [((value & 0xff) << 8) | ((value >> 8) & 0xff)].  JavaScript takes the
    operands modulo 2^32; the two masks only read bits 0 to 15, so the result
    is the same on the unbounded integer. *)
Definition byteSwap16 (value : Z) : Z :=
  Z.lor (Z.shiftl (Z.land value 0xff) 8) (Z.land (Z.shiftr value 8) 0xff).

(** A decoded message: [data.header.tag] and [data.payload]. *)
Record Data : Type := mkData {
  header_tag : Z;
  payload : gmap string PlistValue;
}.

(** The four operations that register a waiter; each stands for the
    [responseCallback] closure it passes to [_receivePlistPromise]. *)
Inductive Request : Type :=
| ReadBUID
| ReadPairRecord (udid : string)
| ListDevices
| Connect (deviceID : PlistValue) (port : Z).

Inductive UsbmuxError : Type :=
| UnexpectedData (data : Data)
| PairRecordParseFailed
| ConnectionRefused (port : Z)
| ConnectionFailed (code : option PlistValue)
| ReceiveTimeout (timeout : Z).

(** What a receive promise resolves with. *)
Inductive Resolved : Type :=
| Value (v : PlistValue)
| NoPairRecord
| ThePairRecord (record : PairRecord.t)
| RawSocket.

Inductive Stream : Type :=
| SocketClient
| Splitter
| Decoder
| Encoder.

#[global] Instance Stream_eq_dec : EqDecision Stream.
Proof. solve_decision. Defined.

(** The instance.  [_responseCallbacks] maps a tag to the closure waiting
    for it; [timers] holds the timeouts that are set and not cleared;
    [written] is what [_sendPlist] handed to the encoder, in order;
    [settlements] logs every call of a promise's [resolve] or [reject] with
    the tag of the promise; [pipes] are the [pipe] connections in place. *)
Record t : Type := mk {
  _tag : Z;
  _responseCallbacks : gmap Z Request;
  timers : gmap Z Z;
  written : list (Z * gmap string PlistValue);
  settlements : list (Z * Result UsbmuxError Resolved);
  splitter_shutdown : bool;
  pipes : list (Stream * Stream);
}.

(** [constructor(socketClient)]. *)
Definition new : t :=
  mk 0 ∅ ∅ [] [] false [(SocketClient, Decoder); (Encoder, SocketClient)].

Definition unpipe (src dst : Stream) (u : t) : t :=
  mk (_tag u) (_responseCallbacks u) (timers u) (written u) (settlements u)
     (splitter_shutdown u)
     (filter (fun p => p ≠ (src, dst)) (pipes u)).

Definition shutdown_splitter (u : t) : t :=
  mk (_tag u) (_responseCallbacks u) (timers u) (written u) (settlements u)
     true (pipes u).

(** [this._encoder.write(json)]. *)
Definition _sendPlist (tag : Z) (payload : gmap string PlistValue) (u : t) : t :=
  mk (_tag u) (_responseCallbacks u) (timers u) (written u ++ [(tag, payload)])
     (settlements u) (splitter_shutdown u) (pipes u).

(** [resolve(v)] or [reject(e)] of the promise made for [tag]. *)
Definition settle (tag : Z) (r : Result UsbmuxError Resolved) (u : t) : t :=
  mk (_tag u) (_responseCallbacks u) (timers u) (written u)
     (settlements u ++ [(tag, r)]) (splitter_shutdown u) (pipes u).

(** [delete this._responseCallbacks[tag]]. *)
Definition delete_callback (tag : Z) (u : t) : t :=
  mk (_tag u) (delete tag (_responseCallbacks u)) (timers u) (written u)
     (settlements u) (splitter_shutdown u) (pipes u).

Definition clearTimeout (tag : Z) (u : t) : t :=
  mk (_tag u) (_responseCallbacks u) (delete tag (timers u)) (written u)
     (settlements u) (splitter_shutdown u) (pipes u).

(** The state of a promise is decided by the first call that settles it. *)
Definition promise_state (tag : Z) (u : t) : option (Result UsbmuxError Resolved) :=
  snd <$> find (fun s => bool_decide (fst s = tag)) (settlements u).

Definition string_value (s : string) : PlistValue := PString (js s).

Section WithPairRecordParser.

(** [processPlistResponse(plist.parsePlist(data))] comes from modules that
    are not part of the sources at hand: it returns a record or throws. *)
Variable parsePairRecord : PlistValue -> option PairRecord.t.

(** The [responseCallback] of each operation: what it returns or throws,
    and what it does to the instance. *)
Definition responseCallback (r : Request) (data : Data) (u : t)
  : t * Result UsbmuxError Resolved :=
  match r with
  | ReadBUID =>
      match payload data !! "BUID" with
      | Some v => if truthy v then (u, Ok (Value v)) else (u, Err (UnexpectedData data))
      | None => (u, Err (UnexpectedData data))
      end
  | ReadPairRecord _ =>
      match payload data !! "PairRecordData" with
      | Some v =>
          if truthy v then
            match parsePairRecord v with
            | Some record => (u, Ok (ThePairRecord record))
            | None => (u, Err PairRecordParseFailed)
            end
          else (u, Ok NoPairRecord)
      | None => (u, Ok NoPairRecord)
      end
  | ListDevices =>
      match payload data !! "DeviceList" with
      | Some v => if truthy v then (u, Ok (Value v)) else (u, Err (UnexpectedData data))
      | None => (u, Err (UnexpectedData data))
      end
  | Connect _ port =>
      if negb (strict_eq_string (payload data !! "MessageType") "Result")
      then (u, Err (UnexpectedData data))
      else if strict_eq_number (payload data !! "Number") USBMUX_RESULT.OK
      then
        let u := shutdown_splitter u in
        let u := unpipe SocketClient Splitter u in
        let u := unpipe Splitter Decoder u in
        (u, Ok RawSocket)
      else if strict_eq_number (payload data !! "Number") USBMUX_RESULT.CONNREFUSED
      then (u, Err (ConnectionRefused port))
      else (u, Err (ConnectionFailed (payload data !! "Number")))
  end.

(** The closure stored under [tag]: clear the timeout, settle the promise
    with what [responseCallback] returns or throws, and in the [finally]
    delete the entry. *)
Definition run_callback (tag : Z) (r : Request) (data : Data) (u : t) : t :=
  let u := clearTimeout tag u in
  let '(u, result) := responseCallback r data u in
  let u := settle tag result u in
  delete_callback tag u.

(** [_handleData(data)]. *)
Definition _handleData (data : Data) (u : t) : t :=
  match _responseCallbacks u !! header_tag data with
  | Some cb => run_callback (header_tag data) cb data u
  | None => u
  end.

(** [_receivePlistPromise(timeout, responseCallback)]: returns the tag. *)
Definition _receivePlistPromise (timeout : Z) (r : Request) (u : t) : Z * t :=
  let tag := _tag u in
  (tag, mk (_tag u + 1) (<[tag := r]> (_responseCallbacks u)) (<[tag := timeout]> (timers u))
           (written u) (settlements u) (splitter_shutdown u) (pipes u)).

(** The payload each operation sends. *)
Definition request_payload (r : Request) : gmap string PlistValue :=
  match r with
  | ReadBUID =>
      list_to_map [("MessageType", string_value "ReadBUID");
                   ("ProgName", string_value PROG_NAME);
                   ("ClientVersionString", string_value CLIENT_VERSION_STRING)]
  | ReadPairRecord udid =>
      list_to_map [("MessageType", string_value "ReadPairRecord");
                   ("PairRecordID", string_value udid);
                   ("ProgName", string_value PROG_NAME);
                   ("ClientVersionString", string_value CLIENT_VERSION_STRING)]
  | ListDevices =>
      list_to_map [("MessageType", string_value "ListDevices");
                   ("ProgName", string_value PROG_NAME);
                   ("ClientVersionString", string_value CLIENT_VERSION_STRING)]
  | Connect deviceID port =>
      list_to_map [("MessageType", string_value "Connect");
                   ("ProgName", string_value PROG_NAME);
                   ("ClientVersionString", string_value CLIENT_VERSION_STRING);
                   ("DeviceID", deviceID);
                   ("PortNumber", PNum (byteSwap16 port))]
  end.

(** [readBUID], [readPairRecord], [listDevices] and [connect] up to their
    [await]: register the waiter, then send the request under its tag. *)
Definition call (r : Request) (timeout : Z) (u : t) : Z * t :=
  let '(tag, u) := _receivePlistPromise timeout r u in
  (tag, _sendPlist tag (request_payload r) u).

Definition readBUID := call ReadBUID.
Definition readPairRecord (udid : string) := call (ReadPairRecord udid).
Definition listDevices := call ListDevices.
Definition connect (deviceID : PlistValue) (port : Z) := call (Connect deviceID port).

(** The [setTimeout] handler of the waiter for [tag]. *)
Definition on_timeout (tag timeout : Z) (u : t) : t :=
  match _responseCallbacks u !! tag with
  | Some _ => settle tag (Err (ReceiveTimeout timeout)) (delete_callback tag u)
  | None => u
  end.

(** The [.finally] handler attached to the receive promise. *)
Definition on_settled (tag : Z) (u : t) : t :=
  match _responseCallbacks u !! tag with
  | Some _ => delete_callback tag u
  | None => u
  end.

(** What can happen to an instance: a caller starts an operation, the
    decoder emits a message, a timer that is still set fires, the [finally]
    handler of a settled promise runs. *)
Inductive Event : Type :=
| Call (r : Request) (timeout : Z)
| Receive (data : Data)
| TimerFires (tag : Z)
| Settled (tag : Z).

Definition step (u : t) (ev : Event) : t :=
  match ev with
  | Call r timeout => snd (call r timeout u)
  | Receive data => _handleData data u
  | TimerFires tag =>
      match timers u !! tag with
      | Some timeout => on_timeout tag timeout (clearTimeout tag u)
      | None => u
      end
  | Settled tag =>
      match promise_state tag u with
      | Some _ => on_settled tag u
      | None => u
      end
  end.

Definition run (evs : list Event) : t := foldl step new evs.

End WithPairRecordParser.

End Usbmux.

(** ** lib/lockdown/index.ts: class LockdownService *)

Module Lockdown.

Import BPlist.

Definition LABEL : string := "appium-internal".

Inductive LockdownError : Type :=
| MissingCertificateOrKey
| UnexpectedSessionData (res : gmap string PlistValue)
| UsbmuxFailed
| TransportFailed
| TLSFailed.

Inductive Transport : Type :=
| Plain
| TLS.

(** [_plistAfterTLS] is the service made on the TLS socket, which is known
    by the certificate and key it was opened with; [sent] logs every
    [sendPlistAndReceive] with the service that carried it. *)
Record t : Type := mk {
  _udid : string;
  _plistAfterTLS : option (string * string);
  _isTLS : bool;
  sent : list (Transport * gmap string PlistValue);
}.

Definition new (udid : string) : t := mk udid None false [].

(** The other side of every [await]: what [createUsbmux()] followed by
    [usbmux.readPairRecord(udid)] gives, what the device answers to a
    message, and whether the TLS handshake succeeds. *)
Record Peer : Type := mkPeer {
  readPairRecord : string -> Result LockdownError (option PairRecord.t);
  answer : Transport -> gmap string PlistValue
           -> Result LockdownError (gmap string PlistValue);
  tlsHandshake : bool;
}.

Definition truthy_field (f : option string) : bool :=
  match f with
  | Some s => negb (bool_decide (s = ""))
  | None => false
  end.

Definition active_transport (s : t) : Transport :=
  if _isTLS s && bool_decide (is_Some (_plistAfterTLS s)) then TLS else Plain.

Definition sendAndReceive (peer : Peer) (msg : gmap string PlistValue) (s : t)
  : Result LockdownError (gmap string PlistValue) * t :=
  let via := active_transport s in
  (answer peer via msg,
   mk (_udid s) (_plistAfterTLS s) (_isTLS s) (sent s ++ [(via, msg)])).

Definition string_value (s : string) : PlistValue := PString (js s).

Record Session : Type := mkSession {
  sessionID : PlistValue;
  enableSessionSSL : bool;
}.

Definition startSession (peer : Peer) (hostID systemBUID : string) (s : t)
  : Result LockdownError Session * t :=
  let '(res, s) :=
    sendAndReceive peer
      (list_to_map [("Label", string_value LABEL);
                    ("Request", string_value "StartSession");
                    ("HostID", string_value hostID);
                    ("SystemBUID", string_value systemBUID)]) s in
  match res with
  | Err e => (Err e, s)
  | Ok res =>
      if strict_eq_string (res !! "Request") "StartSession"
         && truthy_opt (res !! "SessionID")
      then (Ok (mkSession (default PNull (res !! "SessionID"))
                          (truthy_opt (res !! "EnableSessionSSL"))), s)
      else (Err (UnexpectedSessionData res), s)
  end.

(** [getPairRecord()]: a record without certificate or key is an error. *)
Definition getPairRecord (peer : Peer) (s : t) : Result LockdownError PairRecord.t :=
  match readPairRecord peer (_udid s) with
  | Err e => Err e
  | Ok None => Err MissingCertificateOrKey
  | Ok (Some record) =>
      if negb (truthy_field (PairRecord.HostCertificate record))
         || negb (truthy_field (PairRecord.HostPrivateKey record))
      then Err MissingCertificateOrKey
      else Ok record
  end.

(** [upgradeSocketToTLS(socket, { cert, key })]. *)
Definition upgradeSocketToTLS (peer : Peer) (cert key : string)
  : Result LockdownError (string * string) :=
  if tlsHandshake peer then Ok (cert, key) else Err TLSFailed.

Definition tryUpgradeToTLS (peer : Peer) (s : t) : Result LockdownError () * t :=
  match getPairRecord peer s with
  | Err e => (Err e, s)
  | Ok pairRecord =>
      if negb (truthy_field (PairRecord.HostCertificate pairRecord))
         || negb (truthy_field (PairRecord.HostPrivateKey pairRecord))
         || negb (truthy_field (PairRecord.HostID pairRecord))
         || negb (truthy_field (PairRecord.SystemBUID pairRecord))
      then (Ok (), s)
      else
        let '(sess, s) :=
          startSession peer (default "" (PairRecord.HostID pairRecord))
                       (default "" (PairRecord.SystemBUID pairRecord)) s in
        match sess with
        | Err e => (Err e, s)
        | Ok sess =>
            if negb (enableSessionSSL sess) then (Ok (), s)
            else
              match upgradeSocketToTLS peer
                      (default "" (PairRecord.HostCertificate pairRecord))
                      (default "" (PairRecord.HostPrivateKey pairRecord)) with
              | Err e => (Err e, s)
              | Ok tlsSocket => (Ok (), mk (_udid s) (Some tlsSocket) true (sent s))
              end
        end
  end.

End Lockdown.

(** ** lib/RemoteXPC/handshake.ts: class Handshake *)

Module Handshake.

(** Modelled from the spec: [./Constants.js] is not part of the sources at
    hand.  Section 6 gives the channel ids ROOT = 1 and REPLY = 3, the flags
    ALWAYS_SET = 0x00000001 and INIT_HANDSHAKE = 0x00400000, and the SETTINGS
    identifiers 3 (MAX_CONCURRENT_STREAMS) and 4 (INITIAL_WINDOW_SIZE). *)
Module Http2Constants.
Definition ROOT_CHANNEL : Z := 1.
Definition REPLY_CHANNEL : Z := 3.
End Http2Constants.

Module XpcConstants.
Definition XPC_FLAGS_ALWAYS_SET : Z := 0x00000001.
Definition XPC_FLAGS_INIT_HANDSHAKE : Z := 0x00400000.
End XpcConstants.

Definition MAX_CONCURRENT_STREAMS : Z := 3.
Definition INITIAL_WINDOW_SIZE : Z := 4.

(** Modelled from the spec: the body of an XPC message is the tagged union
    of section 3; [{}] is [XDict []]. *)
Inductive XpcObject : Type :=
| XNull
| XBool (b : bool)
| XInt (n : Z)
| XUint (n : Z)
| XDouble (bits : Z)
| XString (s : string)
| XData (bytes : list Z)
| XUuid (bytes : list Z)
| XArray (items : list XpcObject)
| XDict (entries : list (string * XpcObject)).

Record XPCMessage : Type := mkMessage {
  flags : Z;
  id : Z;
  body : XpcObject;
}.

(** [./HandshakeFrames.js] and [./XPCProtocol.js] are not part of the
    sources at hand, so what they compute is kept as written: a frame is
    the constructor call that made it, [encodeMessage m] and [serialize f]
    are the buffers those calls return, and [HTTP2_MAGIC] is the client
    preface. *)
Inductive Encoded : Type :=
| encodeMessage (m : XPCMessage).

Inductive Frame : Type :=
| SettingsFrame (stream : Z) (settings : option (gmap Z Z)) (frame_flags : list string)
| WindowUpdateFrame (stream : Z) (increment : Z)
| HeadersFrame (stream : Z) (block : list Z) (frame_flags : list string)
| DataFrame (stream : Z) (data : Encoded) (frame_flags : list string).

Inductive Bytes : Type :=
| HTTP2_MAGIC
| serialize (f : Frame).

(** The socket: what was written to it, how many times [write] was called,
    and which of these calls report an error to their callback. *)
Record Socket : Type := mkSocket {
  written : list Bytes;
  calls : nat;
  fails : nat -> bool;
}.

Inductive HandshakeError : Type :=
| WriteError
| SendFrameError
| TypeError.

Record t : Type := mk {
  _socket : Socket;
  nextMessageId : gmap Z Z;
}.

(** [constructor(socket)]. *)
Definition new (socket : Socket) : t :=
  mk socket {[ Http2Constants.ROOT_CHANNEL := 0; Http2Constants.REPLY_CHANNEL := 0 ]}.

(** An [async] method: it changes the instance, and resolves or rejects. *)
Definition M (A : Type) : Type := t -> Result HandshakeError A * t.

#[global] Instance M_bind : MBind M :=
  fun A B (k : A -> M B) (m : M A) h =>
    match m h with
    | (Ok a, h') => k a h'
    | (Err e, h') => (Err e, h')
    end.

#[global] Instance M_ret : MRet M := fun A a h => (Ok a, h).

(** [this._socket.write(bytes, callback)]: the callback gets an error or
    nothing. *)
Definition socket_write (bytes : Bytes) (h : t) : bool * t :=
  let s := _socket h in
  if fails s (calls s)
  then (false, mk (mkSocket (written s) (S (calls s)) (fails s)) (nextMessageId h))
  else (true, mk (mkSocket (written s ++ [bytes]) (S (calls s)) (fails s)) (nextMessageId h)).

Definition sendFrame (frame : Bytes) : M () :=
  fun h =>
    let '(ok, h) := socket_write frame h in
    if ok then (Ok (), h) else (Err SendFrameError, h).

(** [BigInt(this.nextMessageId[channel])] throws a [TypeError] when the
    channel has no entry. *)
Definition sendRequest (data : XpcObject) : M () :=
  fun h =>
    let flags := XpcConstants.XPC_FLAGS_ALWAYS_SET in
    match nextMessageId h !! Http2Constants.ROOT_CHANNEL with
    | None => (Err TypeError, h)
    | Some id =>
        let requestMessage := mkMessage flags id data in
        let encodedMessage := encodeMessage requestMessage in
        let dataFrame := DataFrame Http2Constants.ROOT_CHANNEL encodedMessage [] in
        sendFrame (serialize dataFrame) h
    end.

(** [this.nextMessageId[channel]++]. *)
Definition increment (channel : Z) : M () :=
  fun h => (Ok (), mk (_socket h) (alter Z.succ channel (nextMessageId h))).

(** Step 1 of [perform]: the promise around
    [this._socket.write(Http2Constants.HTTP2_MAGIC, callback)]. *)
Definition writeMagic : M () :=
  fun h =>
    let '(ok, h) := socket_write HTTP2_MAGIC h in
    if ok then (Ok (), h) else (Err WriteError, h).

Definition perform : M () :=
  (* Step 1 *)
  _ ← writeMagic;
  (* Step 2 *)
  let settings : gmap Z Z :=
    {[ MAX_CONCURRENT_STREAMS := 100; INITIAL_WINDOW_SIZE := 1048576 ]} in
  let settingsFrame := SettingsFrame 0 (Some settings) [] in
  _ ← sendFrame (serialize settingsFrame);
  (* Step 3 *)
  let windowUpdateFrame := WindowUpdateFrame 0 983041 in
  _ ← sendFrame (serialize windowUpdateFrame);
  (* Step 4 *)
  let headersFrameRoot := HeadersFrame Http2Constants.ROOT_CHANNEL [] ["END_HEADERS"] in
  _ ← sendFrame (serialize headersFrameRoot);
  (* Step 5 *)
  _ ← sendRequest (XDict []);
  (* Step 6 *)
  let dataMessage := mkMessage 0x0201 0 XNull in
  let encodedDataMessage := encodeMessage dataMessage in
  let dataFrame := DataFrame Http2Constants.ROOT_CHANNEL encodedDataMessage [] in
  _ ← sendFrame (serialize dataFrame);
  _ ← increment Http2Constants.ROOT_CHANNEL;
  (* Step 7 *)
  let headersFrameReply := HeadersFrame Http2Constants.REPLY_CHANNEL [] ["END_HEADERS"] in
  _ ← sendFrame (serialize headersFrameReply);
  (* Step 8 *)
  let replyMessage :=
    mkMessage (Z.lor XpcConstants.XPC_FLAGS_ALWAYS_SET XpcConstants.XPC_FLAGS_INIT_HANDSHAKE)
              0 XNull in
  let encodedReplyMessage := encodeMessage replyMessage in
  let replyDataFrame := DataFrame Http2Constants.REPLY_CHANNEL encodedReplyMessage [] in
  _ ← sendFrame (serialize replyDataFrame);
  _ ← increment Http2Constants.REPLY_CHANNEL;
  (* Step 9 *)
  let ackFrame := SettingsFrame 0 None ["ACK"] in
  sendFrame (serialize ackFrame).

(** The message ids of the DATA frames among the written buffers. *)
Definition data_ids (l : list Bytes) : list Z :=
  omap (fun b => match b with
                 | serialize (DataFrame _ (encodeMessage m) _) => Some (id m)
                 | _ => None
                 end) l.

End Handshake.

(** ** lib/lockdown/index.ts: createLockdownServiceByUDID *)

Module Factory.

Import BPlist.

(** A [Device] of the list that [usbmux.listDevices()] resolves with, as
    far as the function reads it: [DeviceID] and
    [Properties.SerialNumber]. *)
Record Device : Type := mkDevice {
  DeviceID : Z;
  SerialNumber : string;
}.

Inductive FactoryError : Type :=
| ListDevicesFailed
| NoDevicesConnected
| UDIDNotConnected (udid : string)
| UDIDNotFound (udid : string)
| RelayFailed.

(** The other side of every [await]: the device list, or [None] when
    [createUsbmux()] or [listDevices()] throws; whether
    [connectAndRelay(deviceID, port)] gives a socket; and the lockdown
    peer. *)
Record World : Type := mkWorld {
  listDevices : option (list Device);
  connectAndRelay : Z -> Z -> bool;
  peer : Lockdown.Peer;
}.

(** [new LockdownService(socket, udid, autoSecure)] followed by
    [await service._tlsUpgrade]: the promise is the upgrade with a [catch]
    that logs the error, so it never rejects. *)
Definition constructor (peer : Lockdown.Peer) (udid : string) (autoSecure : bool)
  : Lockdown.t :=
  let service := Lockdown.new udid in
  if autoSecure then snd (Lockdown.tryUpgradeToTLS peer service) else service.

Definition createLockdownServiceByUDID
    (w : World) (udid : string) (port : Z) (autoSecure : bool)
  : Result FactoryError (Lockdown.t * Device) :=
  match listDevices w with
  | None => Err ListDevicesFailed
  | Some devices =>
      if bool_decide (length devices = 0%nat) then Err NoDevicesConnected
      else if negb (existsb (fun d => bool_decide (SerialNumber d = udid)) devices)
      then Err (UDIDNotConnected udid)
      else
        let selectedUDID := udid in
        match find (fun d => bool_decide (SerialNumber d = selectedUDID)) devices with
        | None => Err (UDIDNotFound selectedUDID)
        | Some device =>
            if connectAndRelay w (DeviceID device) port
            then Ok (constructor (peer w) selectedUDID autoSecure, device)
            else Err RelayFailed
        end
  end.

End Factory.


(** * Properties *)

(** ** Reading an encoded image back

    The fields of the 32-byte trailer at the end of a buffer, the entries of
    its offset table, and where each record really starts. *)

Module Reader.

Import Buffer BPlist.

Definition trailer_of (buf : Buffer.t) : Buffer.t :=
  drop (length buf - BPLIST_TRAILER_SIZE)%nat buf.

Definition field (pos width : nat) (bs : Buffer.t) : Z :=
  read_be (take width (drop pos bs)).

Definition offset_size (buf : Buffer.t) : Z := field 6 1 (trailer_of buf).
Definition ref_size (buf : Buffer.t) : Z := field 7 1 (trailer_of buf).
Definition num_objects (buf : Buffer.t) : Z := field 8 8 (trailer_of buf).
Definition top_object_id (buf : Buffer.t) : Z := field 16 8 (trailer_of buf).
Definition offset_table_offset (buf : Buffer.t) : Z := field 24 8 (trailer_of buf).

(** Entry [i] of the offset table. *)
Definition offset_entry (buf : Buffer.t) (i : nat) : Z :=
  let width := Z.to_nat (offset_size buf) in
  field (Z.to_nat (offset_table_offset buf) + i * width) width buf.

(** The byte of the returned buffer at which record [i] starts: after the
    magic and the records before it. *)
Definition record_start (im : Image) (i : nat) : Z :=
  Z.of_nat (length BPLIST_MAGIC_AND_VERSION)
  + Z.of_nat (length (Buffer.concat (take i (objectData im)))).

(** The field of a buffer that the encoder may have failed to produce. *)
Definition of_result {A} (f : Buffer.t -> A) (r : Result RangeError Buffer.t) : option A :=
  match r with
  | Ok buf => Some (f buf)
  | Err _ => None
  end.

(** The dictionary [{ a: 1, b: [true, null] }]: two objects, the dictionary
    and the array. *)
Definition scenario1 : PlistValue :=
  PDict 0 [(js "a", PNum 1); (js "b", PArray 1 [PBool true; PNull])].

End Reader.

(** ** Socket addresses *)

Module Address.

Import Socket.

(** A string without [:]. *)
Definition no_colon (s : string) : Prop :=
  Forall (fun c => c ≠ ":"%char) (String.list_ascii_of_string s).


(** The error of a socket that is neither there nor replaced by TCP. *)
Definition unavailable (path : string) : SocketError :=
  SocketUnavailable
    ("The usbmuxd socket at '" +:+ path +:+ "' does not exist or is not accessible").

(** The endpoint for a Unix socket path and a TCP fallback: the path when
    it exists, else TCP on Windows and WSL1 only, else an error. *)
Definition path_then_tcp (proc : Process) (path : string) (port : number) (host : string)
  : Result SocketError Endpoint :=
  if accessible proc path then Ok (UnixSocket path)
  else if isWindowsOrWSL proc then Ok (Tcp port host)
  else Err (unavailable path).



(** A WSL1 host without a Unix socket. *)
Definition wsl_without_socket : Process :=
  mkProcess (Some "10.0.0.5:27015") "linux" "4.4.0-19041-Microsoft" (fun _ => false).





End Address.

(** ** Usbmux traces *)

Module Waiters.

Import Usbmux.

(** The tags of the requests sent so far, and of the promises settled. *)
Definition sent_tags (u : Usbmux.t) : list Z := map fst (written u).
Definition settled_tags (u : Usbmux.t) : list Z := map fst (settlements u).

(** What holds of an instance however it was driven. *)
Record invariant (u : Usbmux.t) : Prop := mkInvariant {
  tags_in_order : 0 <= _tag u ∧ sent_tags u = seqZ 0 (_tag u);
  waiting_unsettled :
    forall tag, is_Some (_responseCallbacks u !! tag) ->
                0 <= tag < _tag u ∧ tag ∉ settled_tags u;
  settled_once : NoDup (settled_tags u);
  settled_allocated : forall tag, tag ∈ settled_tags u -> tag < _tag u;
}.

(** Scenario 2 of section 8: [ReadBUID] and [ListDevices] go out with tags
    0 and 1, and the responses come back in reverse order. *)
Definition scenario2 : list Event :=
  [ Call ReadBUID 5000;
    Call ListDevices 5000;
    Receive (mkData 1 {[ "DeviceList" := BPlist.PArray 0 [] ]});
    Receive (mkData 0 {[ "BUID" := string_value "B" ]}) ].

(** A result message of usbmuxd. *)
Definition result_message (tag code : Z) : Data :=
  mkData tag {[ "MessageType" := string_value "Result"; "Number" := BPlist.PNum code ]}.

(** A pair record parser that rejects everything. *)
Definition no_parser (data : BPlist.PlistValue) : option PairRecord.t := None.

End Waiters.

(** ** Handshake traffic *)

Module Wire.

Import Handshake.

(** The nine buffers of section 4.8, in order. *)
Definition handshake_frames : list Bytes :=
  [ HTTP2_MAGIC;
    serialize (SettingsFrame 0 (Some {[ 3 := 100; 4 := 1048576 ]}) []);
    serialize (WindowUpdateFrame 0 983041);
    serialize (HeadersFrame 1 [] ["END_HEADERS"]);
    serialize (DataFrame 1 (encodeMessage (mkMessage 0x1 0 (XDict []))) []);
    serialize (DataFrame 1 (encodeMessage (mkMessage 0x0201 0 XNull)) []);
    serialize (HeadersFrame 3 [] ["END_HEADERS"]);
    serialize (DataFrame 3 (encodeMessage (mkMessage (Z.lor 0x1 0x400000) 0 XNull)) []);
    serialize (SettingsFrame 0 None ["ACK"]) ].

(** The next [n] calls of [write] report no error. *)
Definition accepts (n : nat) (socket : Socket) : Prop :=
  forall k, (calls socket <= k < calls socket + n)%nat -> fails socket k = false.

(** The socket after the buffers [bs] went out, one call each. *)
Definition after_writes (bs : list Bytes) (socket : Socket) : Socket :=
  mkSocket (written socket ++ bs) (calls socket + length bs) (fails socket).

(** The next call of [write] reports an error. *)
Definition next_write_fails (h : Handshake.t) : bool :=
  fails (_socket h) (calls (_socket h)).

(** A socket on which no write fails. *)
Definition healthy : Socket := mkSocket [] 0 (fun _ => false).

(** The DATA frame a request with message id [id] and body [data] goes out
    in. *)
Definition request_frame (id : Z) (data : XpcObject) : Bytes :=
  serialize (DataFrame 1 (encodeMessage (mkMessage 0x1 id data)) []).

(** The instance after the handshake on a healthy socket. *)
Definition after_handshake : Handshake.t := snd (perform (Handshake.new healthy)).

End Wire.

(** ** Pair records and lockdown peers *)

Module Pairing.

Import Lockdown.

(** The record has a certificate and a private key. *)
Definition has_identity (record : PairRecord.t) : bool :=
  truthy_field (PairRecord.HostCertificate record)
  && truthy_field (PairRecord.HostPrivateKey record).

(** The record has all of the four fields the upgrade needs. *)
Definition complete (record : PairRecord.t) : bool :=
  has_identity record
  && truthy_field (PairRecord.HostID record)
  && truthy_field (PairRecord.SystemBUID record).

(** A usbmuxd that returns [record] for every device, and a device that
    would accept a session and ask for TLS. *)
Definition peer_with (record : PairRecord.t) : Peer :=
  mkPeer (fun _ => Ok (Some record))
         (fun _ _ => Ok (list_to_map [("Request", string_value "StartSession");
                                     ("SessionID", string_value "S1");
                                     ("EnableSessionSSL", BPlist.PBool true)]))
         true.

Definition without_certificate : PairRecord.t :=
  PairRecord.mk (Some "host") (Some "buid") None (Some "key") None None.

Definition without_host_id : PairRecord.t :=
  PairRecord.mk None (Some "buid") (Some "cert") (Some "key") None None.

End Pairing.

(** ** Layout of an encoded image *)

Module Layout.

Import Buffer BPlist.

(** The widths an offset or a reference is written in. *)
Definition is_width (size : Z) : Prop := size = 1 ∨ size = 2 ∨ size = 4 ∨ size = 8.

(** A table of big-endian integers, [w] bytes each. *)
Definition table_bytes (w : nat) (values : list Z) : Buffer.t :=
  List.concat (map (be_bytes w) values).

(** The values an array or a dictionary refers to: the items, and for a
    dictionary each key (as a string) and each value. *)
Definition children (value : PlistValue) : list PlistValue :=
  match value with
  | PArray _ items => items
  | PDict _ entries => map (fun kv => PString (fst kv)) entries ++ map snd entries
  | _ => []
  end.

(** The table index that the reference map gives for [value] is an entry
    that the map cannot tell from [value]. *)
Definition resolves (c : BinaryPlistCreator) (value : PlistValue) : Prop :=
  exists (i : nat) (entry : PlistValue),
    _objectRefMap c !! key_of value = Some (Z.of_nat i)
    ∧ _objectTable c !! i = Some entry
    ∧ key_of entry = key_of value.

(** Table and map agree: every entry is mapped to its index, and every
    mapped index holds an entry with that key. *)
Record consistent (c : BinaryPlistCreator) : Prop := mkConsistent {
  entry_mapped :
    forall (i : nat) (entry : PlistValue),
      _objectTable c !! i = Some entry ->
      _objectRefMap c !! key_of entry = Some (Z.of_nat i);
  mapped_entry :
    forall (k : MapKey) (id : Z),
      _objectRefMap c !! k = Some id ->
      exists entry, 0 <= id ∧ _objectTable c !! Z.to_nat id = Some entry ∧ key_of entry = k;
}.

(** [c'] extends [c]: the table grew at its end and the map kept what it
    had. *)
Definition extends (c c' : BinaryPlistCreator) : Prop :=
  _objectTable c `prefix_of` _objectTable c'
  ∧ _objectRefMap c ⊆ _objectRefMap c'.

(** Every child of every entry from index [from] on has a reference. *)
Definition closed_from (from : nat) (c : BinaryPlistCreator) : Prop :=
  forall entry child,
    entry ∈ drop from (_objectTable c) -> child ∈ children entry ->
    is_Some (_objectRefMap c !! key_of child).

(** What collecting the values [vs] does to a consistent creator [c]: the
    result is consistent, extends [c], has a reference for each of [vs], has
    a reference for every child of every entry it added, and leaves the
    other fields alone. *)
Definition collected_all (vs : list PlistValue) (c c' : BinaryPlistCreator) : Prop :=
  consistent c' ∧ extends c c'
  ∧ (forall v, v ∈ vs -> is_Some (_objectRefMap c' !! key_of v))
  ∧ closed_from (length (_objectTable c)) c'
  ∧ _objectRefSize c' = _objectRefSize c ∧ _offsetSize c' = _offsetSize c
  ∧ _rootObject c' = _rootObject c.

(** A value that fits [size] bytes unsigned. *)
Definition in_width (size : Z) (value : Z) : Prop := 0 <= value < 256 ^ size.

#[global] Instance in_width_dec size value : Decision (in_width size value).
Proof. unfold in_width. apply _. Defined.

(** The value of an integer record: tag [0x10 + k], then [2^k] bytes. *)
Definition int_record (k : nat) (value : Z) : Buffer.t :=
  (0x10 + Z.of_nat k) :: be_bytes (2 ^ k) value.

(** A [w]-byte unsigned value read as two's complement. *)
Definition twos_complement (w : nat) (x : Z) : Z :=
  if bool_decide (x < 256 ^ Z.of_nat w `div` 2) then x else x - 256 ^ Z.of_nat w.

(** The smallest [k] such that [2^k] bytes hold an unsigned length. *)
Definition length_exponent (len : Z) : nat :=
  if bool_decide (len < 256) then 0 else if bool_decide (len < 65536) then 1 else 2.

(** The header of a record of [len] elements: the length in the low
    nibble, or the nibble 15 and an integer record. *)
Definition header_of (type len : Z) : Buffer.t :=
  if bool_decide (len < 15) then [type + len]
  else (type + 15) :: int_record (length_exponent len) len.

(** The image of the dictionary [{ a: 1, b: [true, null] }]. *)
Definition scenario1_image : Image :=
  match create_image (BPlist.new Reader.scenario1) with
  | Ok im => im
  | Err _ => mkImage (BPlist.new Reader.scenario1) [] [] [] []
  end.

End Layout.

(** ** Handshake traffic of any instance *)

Module Traffic.

Import Handshake.

(** The nine buffers of [perform] on an instance whose ROOT channel has
    next message id [id]: those of section 4.8, with [id] in the first DATA
    frame. *)
Definition perform_frames (id : Z) : list Bytes :=
  [ HTTP2_MAGIC;
    serialize (SettingsFrame 0 (Some {[ 3 := 100; 4 := 1048576 ]}) []);
    serialize (WindowUpdateFrame 0 983041);
    serialize (HeadersFrame 1 [] ["END_HEADERS"]);
    serialize (DataFrame 1 (encodeMessage (mkMessage 0x1 id (XDict []))) []);
    serialize (DataFrame 1 (encodeMessage (mkMessage 0x0201 0 XNull)) []);
    serialize (HeadersFrame 3 [] ["END_HEADERS"]);
    serialize (DataFrame 3 (encodeMessage (mkMessage (Z.lor 0x1 0x400000) 0 XNull)) []);
    serialize (SettingsFrame 0 None ["ACK"]) ].

(** The message ids once [k] of the nine writes went through: ROOT is
    incremented after the sixth, REPLY after the eighth. *)
Definition ids_after (k : nat) (ids : gmap Z Z) : gmap Z Z :=
  let ids := if bool_decide (6 <= k)%nat
             then alter Z.succ Http2Constants.ROOT_CHANNEL ids else ids in
  if bool_decide (8 <= k)%nat then alter Z.succ Http2Constants.REPLY_CHANNEL ids else ids.

(** What [perform] rejects with when write number [k] fails. *)
Definition write_error (k : nat) : HandshakeError :=
  match k with
  | O => WriteError
  | S _ => SendFrameError
  end.

(** A socket on which write number [k] fails, and no other. *)
Definition fails_at (k : nat) : Socket := mkSocket [] 0 (fun n => bool_decide (n = k)).

End Traffic.

(** ** The TLS upgrade of a lockdown service *)

Module Upgrade.

Import BPlist Lockdown Pairing.

(** The StartSession request for a host. *)
Definition session_request (hostID systemBUID : string) : gmap string PlistValue :=
  list_to_map [("Label", string_value LABEL);
               ("Request", string_value "StartSession");
               ("HostID", string_value hostID);
               ("SystemBUID", string_value systemBUID)].

(** The request that the upgrade sends for a pair record. *)
Definition session_request_of (record : PairRecord.t) : gmap string PlistValue :=
  session_request (default "" (PairRecord.HostID record))
                  (default "" (PairRecord.SystemBUID record)).

(** A reply that starts the session and asks for TLS. *)
Definition asks_for_tls (res : gmap string PlistValue) : bool :=
  strict_eq_string (res !! "Request") "StartSession"
  && truthy_opt (res !! "SessionID")
  && truthy_opt (res !! "EnableSessionSSL").

(** Everything that the upgrade of [s] needs from the peer: a complete
    pair record, a reply to the session request that asks for TLS, and a
    TLS handshake that succeeds. *)
Definition upgradable (peer : Peer) (s : Lockdown.t) : Prop :=
  exists record res,
    readPairRecord peer (_udid s) = Ok (Some record)
    ∧ complete record = true
    ∧ answer peer (active_transport s) (session_request_of record) = Ok res
    ∧ asks_for_tls res = true
    ∧ tlsHandshake peer = true.

(** A complete pair record. *)
Definition complete_record : PairRecord.t :=
  PairRecord.mk (Some "host") (Some "buid") (Some "cert") (Some "key") None None.

(** A peer with a complete record whose TLS handshake fails. *)
Definition peer_failing_tls : Peer :=
  mkPeer (readPairRecord (peer_with complete_record))
         (answer (peer_with complete_record))
         false.

(** Two devices with the same serial number, and a world in which every
    relay connects and the TLS handshake fails. *)
Definition twin_devices : list Factory.Device :=
  [Factory.mkDevice 4 "other"; Factory.mkDevice 7 "udid"; Factory.mkDevice 9 "udid"].

Definition world_failing_tls : Factory.World :=
  Factory.mkWorld (Some twin_devices) (fun _ _ => true) peer_failing_tls.

End Upgrade.

(** ** Usbmux bookkeeping *)

Module Bookkeeping.

Import Usbmux.

(** What else holds of an instance however it was driven: a timer is
    pending for exactly the tags that have a waiter, the request that went
    out under the tag of a waiter is the request of its operation, one
    request went out per tag, and the pipes are those of the constructor. *)
Record bookkeeping (u : Usbmux.t) : Prop := mkBookkeeping {
  timer_iff_waiter :
    forall tag, is_Some (timers u !! tag) <-> is_Some (_responseCallbacks u !! tag);
  request_of_waiter :
    forall tag r, _responseCallbacks u !! tag = Some r ->
                  0 <= tag ∧ written u !! Z.to_nat tag = Some (tag, request_payload r);
  written_count : Z.of_nat (length (written u)) = _tag u;
  wiring : pipes u = pipes Usbmux.new;
}.

(** A response to [ReadBUID] that carries the identifier [buid]. *)
Definition buid_message (tag : Z) (buid : string) : Data :=
  mkData tag {[ "BUID" := string_value buid ]}.

End Bookkeeping.

(** ** Socket options *)

Module Options.

Import Socket.

(** One of the three socket options is given and truthy. *)
Definition explicit (opts : SocketOptions) : bool :=
  truthy_string (socketPath opts) || truthy_number (socketPort opts)
  || truthy_string (socketHost opts).

(** Options that only name a host. *)
Definition host_only (host : string) : SocketOptions :=
  mkSocketOptions None None (Some host) None.




End Options.

(** ** The binary plist encoder *)

Import Buffer BPlist Reader.

Lemma write_int_ok lo hi w buf value pos :
  lo <= value <= hi -> (pos + w <= length buf)%nat ->
  write_int lo hi w buf value pos = Ok (splice buf pos (be_bytes w value)).
Proof.
  intros Hv Hp. unfold write_int.
  rewrite (bool_decide_true _ Hv), (bool_decide_true _ Hp). reflexivity.
Qed.

(** *** Integers *)

Lemma one_byte_unsigned (n : Z) :
  0 <= n <= 255 -> _createIntegerData (Number n) = Ok [0x10; n].
Proof.
  intros Hn. unfold _createIntegerData.
  rewrite !bool_decide_true by lia. cbn [andb].
  change (writeUInt8 (alloc 2) (Z.lor BPLIST_TYPE.INT 0) 0) with (@Ok RangeError _ [16; 0]).
  cbn [mbind Result_bind]. unfold writeUInt8.
  rewrite write_int_ok by (simpl; lia).
  cbn. rewrite Z.mod_small by lia. reflexivity.
Qed.

Lemma one_byte_signed (m : Z) :
  -128 <= m <= -1 -> _createIntegerData (Number m) = Ok [0x10; m + 256].
Proof.
  intros Hm. unfold _createIntegerData.
  rewrite (bool_decide_false (m >= 0)) by lia. cbn [andb].
  rewrite !bool_decide_true by lia. cbn [andb].
  change (writeUInt8 (alloc 2) (Z.lor BPLIST_TYPE.INT 0) 0) with (@Ok RangeError _ [16; 0]).
  cbn [mbind Result_bind]. unfold writeInt8.
  rewrite write_int_ok by (simpl; lia).
  cbn. do 3 f_equal.
  symmetry. apply Z.mod_unique_pos with (q := -1); lia. 
Qed.

(** A [bigint] goes to the eight-byte form before its size is looked
    at. *)
Lemma bigint_eight_bytes (n : Z) :
  -9223372036854775808 <= n <= 9223372036854775807 ->
  _createIntegerData (BigInt n) = Ok (0x13 :: be_bytes 8 n).
Proof.
  intros Hn. unfold _createIntegerData.
  change (writeUInt8 (alloc 9) (Z.lor BPLIST_TYPE.INT 3) 0)
    with (@Ok RangeError _ [19; 0; 0; 0; 0; 0; 0; 0; 0]).
  cbn [mbind Result_bind]. unfold writeBigInt64BE.
  rewrite write_int_ok by (simpl; lia). reflexivity.
Qed.

Lemma be_bytes_8_unsigned (n : Z) :
  0 <= n <= 255 -> be_bytes 8 n = [0; 0; 0; 0; 0; 0; 0; n].
Proof.
  intros Hn. unfold be_bytes. cbn [le_bytes].
  rewrite (Z.mod_small n 256), (Z.div_small n 256) by lia.
  reflexivity.
Qed.

Lemma be_bytes_8_signed (m : Z) :
  -128 <= m <= -1 -> be_bytes 8 m = [255; 255; 255; 255; 255; 255; 255; m + 256].
Proof.
  intros Hm. unfold be_bytes. cbn [le_bytes].
  assert (Hmod : m `mod` 256 = m + 256).
  { symmetry. apply Z.mod_unique_pos with (q := -1); lia. }
  assert (Hdiv : m `div` 256 = -1).
  { symmetry. apply Z.div_unique_pos with (r := m + 256); lia. }
  rewrite Hmod, Hdiv. reflexivity.
Qed.

(** C9, as the code has it.  For a [number] [n] with [0 <= n <= 255] and a
    [number] [m] with [-128 <= m <= -1], [_createIntegerData] emits the
    one-byte form: the tag [0x10] and a single byte, the two's complement
    byte [m + 256] for [m].  So for [128 <= n <= 255] the record of the
    [number] [n] is byte for byte the record of the [number] [n - 256], a
    different integer: the one-byte form is not injective on the two
    ranges.  For a [bigint] in these ranges the encoder emits the eight-byte
    form instead: the tag [0x13] and eight bytes, big-endian two's
    complement, which tell [n] from [n - 256]. *)
Theorem createIntegerData_one_byte (n m : Z) :
  0 <= n <= 255 -> -128 <= m <= -1 ->
  _createIntegerData (Number n) = Ok [0x10; n]
  ∧ _createIntegerData (Number m) = Ok [0x10; m + 256]
  ∧ (128 <= n ->
     _createIntegerData (Number n) = _createIntegerData (Number (n - 256))
     ∧ Number n ≠ Number (n - 256))
  ∧ _createIntegerData (BigInt n) = Ok [0x13; 0; 0; 0; 0; 0; 0; 0; n]
  ∧ _createIntegerData (BigInt m) = Ok [0x13; 255; 255; 255; 255; 255; 255; 255; m + 256]
  ∧ (128 <= n ->
     _createIntegerData (BigInt n) ≠ _createIntegerData (BigInt (n - 256))).
Proof.
  intros Hn Hm. split; [by apply one_byte_unsigned|].
  split; [by apply one_byte_signed|].
  split.
  { intros Hhigh. split.
    - rewrite one_byte_unsigned, one_byte_signed by lia. do 3 f_equal. lia.
    - intros [=]. lia. }
  split; [rewrite bigint_eight_bytes, be_bytes_8_unsigned by lia; reflexivity|].
  split; [rewrite bigint_eight_bytes, be_bytes_8_signed by lia; reflexivity|].
  intros Hhigh.
  rewrite !bigint_eight_bytes, be_bytes_8_unsigned, be_bytes_8_signed by lia.
  intros [=].
Qed.

Lemma createIntegerData_one_byte_witness :
  _createIntegerData (Number 200) = Ok [0x10; 200]
  ∧ _createIntegerData (Number (-56)) = Ok [0x10; 200]
  ∧ _createIntegerData (Number 200) = _createIntegerData (Number (-56))
  ∧ _createIntegerData (BigInt 200) = Ok [0x13; 0; 0; 0; 0; 0; 0; 0; 200]
  ∧ _createIntegerData (BigInt (-56)) = Ok [0x13; 255; 255; 255; 255; 255; 255; 255; 200].
Proof.
  destruct (createIntegerData_one_byte 200 (-56)) as (H1 & H2 & H3 & H4 & H5 & _);
    [lia | lia |].
  split; [exact H1|]. split; [exact H2|]. split; [apply H3; lia|].
  split; [exact H4|exact H5].
Defined.

(** C9, as the specification has it, for every integer: an integer of
    the range that is given as a [bigint] does not get the one-byte form. *)
Lemma createIntegerData_bigint_not_one_byte :
  _createIntegerData (BigInt 5) = Ok [0x13; 0; 0; 0; 0; 0; 0; 0; 5]
  ∧ _createIntegerData (BigInt 5) ≠ Ok [0x10; 5]
  ∧ _createIntegerData (Number 5) = Ok [0x10; 5].
Proof. split; [reflexivity|]. split; [discriminate|reflexivity]. Qed.

(** *** Strings *)

Lemma length_from_utf16le (s : list Z) :
  length (from_utf16le s) = (2 * length s)%nat.
Proof.
  induction s as [|cu s IH]; [reflexivity|].
  change (from_utf16le (cu :: s))
    with ([cu `mod` 256; (cu `div` 256) `mod` 256] ++ from_utf16le s).
  rewrite length_app, IH. simpl. lia.
Qed.

Lemma createIntHeader_ok (len : Z) :
  0 <= len < 4294967296 -> exists header, _createIntHeader len = Ok header.
Proof.
  intros Hlen. unfold _createIntHeader.
  repeat case_bool_decide.
  - change (writeUInt8 (alloc 2) (Z.lor BPLIST_TYPE.INT 0) 0) with (@Ok RangeError _ [16; 0]).
    cbn [mbind Result_bind]. unfold writeUInt8.
    rewrite write_int_ok by (simpl; lia). eauto.
  - change (writeUInt8 (alloc 3) (Z.lor BPLIST_TYPE.INT 1) 0) with (@Ok RangeError _ [17; 0; 0]).
    cbn [mbind Result_bind]. unfold writeUInt16BE.
    rewrite write_int_ok by (simpl; lia). eauto.
  - change (writeUInt8 (alloc 5) (Z.lor BPLIST_TYPE.INT 2) 0)
      with (@Ok RangeError _ [18; 0; 0; 0; 0]).
    cbn [mbind Result_bind]. unfold writeUInt32BE.
    rewrite write_int_ok by (simpl; lia). eauto.
Qed.

(** The tag byte of a length header carries the type in its high nibble. *)
Lemma lengthHeader_nibble (type len : Z) :
  type ∈ [0x40; 0x50; 0x60; 0xA0; 0xD0] -> 0 <= len < 4294967296 ->
  exists tag rest,
    lengthHeader type len = Ok (tag :: rest) ∧ tag `div` 16 = type `div` 16
    ∧ (len < 15 -> tag `mod` 16 = len ∧ rest = []).
Proof.
  intros Htype Hlen. unfold lengthHeader. case_bool_decide as Hsmall.
  - exists (Z.lor type len `mod` 256), []. split; [reflexivity|].
    assert (Hcases : len = 0 ∨ len = 1 ∨ len = 2 ∨ len = 3 ∨ len = 4 ∨ len = 5 ∨ len = 6
                     ∨ len = 7 ∨ len = 8 ∨ len = 9 ∨ len = 10 ∨ len = 11 ∨ len = 12
                     ∨ len = 13 ∨ len = 14) by lia.
    rewrite !elem_of_cons in Htype.
    destruct Htype as [->|[->|[->|[->|[->|Hf]]]]]; [..|by apply elem_of_nil in Hf];
      repeat (destruct Hcases as [->|Hcases]; [by vm_compute|]);
      subst len; by vm_compute.
  - destruct (createIntHeader_ok len Hlen) as [header ->].
    cbn [mbind Result_bind]. exists (Z.lor type 15 `mod` 256), (header ++ []).
    split; [reflexivity|]. split; [|lia].
    rewrite !elem_of_cons in Htype.
    destruct Htype as [->|[->|[->|[->|[->|Hf]]]]]; [..|by apply elem_of_nil in Hf];
      by vm_compute.
Qed.

(** What the encoder does for every string that is not ASCII: the type
    nibble is 6, a length below 15 sits in the low nibble and counts code
    units, and the body is [Buffer.from(value, 'utf16le')]. *)
Lemma createStringData_unicode (s : list Z) :
  isAscii s = false -> Z.of_nat (length s) < 4294967296 ->
  exists tag rest,
    _createStringData s = Ok (tag :: rest ++ from_utf16le s)
    ∧ tag `div` 16 = 6
    ∧ (Z.of_nat (length s) < 15 -> tag `mod` 16 = Z.of_nat (length s) ∧ rest = []).
Proof.
  intros Hascii Hlen. unfold _createStringData. rewrite Hascii.
  rewrite length_from_utf16le.
  replace (Z.of_nat (2 * length s) `div` 2) with (Z.of_nat (length s))
    by (rewrite Nat2Z.inj_mul, Z.mul_comm, Z.div_mul; lia).
  destruct (lengthHeader_nibble BPLIST_TYPE.STRING_UNICODE (Z.of_nat (length s)))
    as (tag & rest & -> & Htag & Hsmall); [set_solver | lia |].
  exists tag, rest. split; [|done].
  cbn [mbind Result_bind]. unfold Buffer.concat. cbn. by rewrite app_nil_r.
Qed.

(** C1.  The specification asks for UTF-16 big-endian bodies; the encoder writes
    [Buffer.from(value, 'utf16le')].  For the one-character string U+00E9
    the record is [61 e9 00]: tag [0x6] with length 1, then the code unit
    low byte first, where big-endian order is [00 e9]. *)
Theorem createStringData_little_endian :
  _createStringData [0xE9] = Ok [0x61; 0xE9; 0x00]
  ∧ 0x61 :: utf16be [0xE9] = [0x61; 0x00; 0xE9].
Proof. split; reflexivity. Qed.

(** *** Object table, offsets and trailer *)

Lemma calculateObjectDataLength_concat (buffers : list Buffer.t) :
  _calculateObjectDataLength buffers = Z.of_nat (length (Buffer.concat buffers)).
Proof.
  unfold _calculateObjectDataLength, Buffer.concat.
  assert (Hgen : forall acc : Z,
             foldl (fun (sum : Z) (buffer : Buffer.t) => sum + Z.of_nat (length buffer))
                   acc buffers
             = acc + Z.of_nat (length (List.concat buffers))).
  { induction buffers as [|b bs IH]; intros acc; cbn [foldl List.concat].
    - cbn. lia.
    - rewrite IH, length_app. lia. }
  rewrite Hgen. lia.
Qed.

(** The loop of [create] pushes, for each record, the length of the records
    before it. *)
Lemma createObjects_offsets c table :
  forall offs data offs' data',
    createObjects c table offs data = Ok (offs', data') ->
    length offs = length data ->
    (forall i o, offs !! i = Some o ->
                 o = Z.of_nat (length (Buffer.concat (take i data)))) ->
    length offs' = length data'
    ∧ forall i o, offs' !! i = Some o ->
                  o = Z.of_nat (length (Buffer.concat (take i data'))).
Proof.
  induction table as [|value rest IH]; intros offs data offs' data' Hrun Hlen Hoffs.
  - cbn in Hrun. injection Hrun as <- <-. by split.
  - cbn [createObjects] in Hrun.
    destruct (_createObjectData c value) as [record|e] eqn:Hrecord;
      cbn [mbind Result_bind] in Hrun; [|discriminate].
    apply IH in Hrun; [exact Hrun | by rewrite !length_app, Hlen |].
    intros i o Hi.
    destruct (decide (i < length offs)%nat) as [Hlt|Hge].
    + rewrite lookup_app_l in Hi by done.
      rewrite take_app_le by lia. by apply Hoffs.
    + rewrite lookup_app_r in Hi by lia.
      apply list_lookup_singleton_Some in Hi as [Hi <-].
      assert (i = length data) as -> by lia.
      rewrite take_app_length. apply calculateObjectDataLength_concat.
Qed.

(** For every root: entry [i] of [objectOffsets], which [create] writes into
    the offset table, is the start of record [i] counted from the end of the
    eight-byte magic, that is eight less than its offset in the buffer. *)
Lemma objectOffsets_after_magic (root : PlistValue) (im : Image) :
  create_image (BPlist.new root) = Ok im ->
  length (objectOffsets im) = length (objectData im)
  ∧ forall i o, objectOffsets im !! i = Some o -> o = record_start im i - 8.
Proof.
  unfold create_image.
  destruct (createObjects _ _ [] []) as [[offs data]|e] eqn:Hobjects;
    cbn [mbind Result_bind]; [|discriminate].
  destruct (_createOffsetTable _ _) as [table|e]; cbn [mbind Result_bind]; [|discriminate].
  destruct (_createTrailer _ _ _) as [trailer|e]; cbn [mbind Result_bind]; [|discriminate].
  intros [= <-]. cbn [objectOffsets objectData fst snd].
  apply createObjects_offsets in Hobjects as [Hlen Hoffs]; [|done|by intros i o [=]].
  split; [done|]. intros i o Hi. apply Hoffs in Hi as ->.
  unfold record_start. cbn. lia.
Qed.

(** C2.  The specification asks for offsets counted from byte 0 of the
    buffer; the encoder counts them from the end of the magic.  For the root
    [true] the buffer is the magic, the record [09] at byte 8, one table
    entry and the trailer: the entry is 0, and byte 0 is the [b] of
    [bplist00]. *)
Theorem offset_table_entry_counts_from_records :
  createBinaryPlist (PBool true)
  = Ok ([0x62; 0x70; 0x6c; 0x69; 0x73; 0x74; 0x30; 0x30; 0x09; 0x00]
        ++ [0; 0; 0; 0; 0; 0; 1; 1] ++ [0; 0; 0; 0; 0; 0; 0; 1]
        ++ [0; 0; 0; 0; 0; 0; 0; 0] ++ [0; 0; 0; 0; 0; 0; 0; 9])
  ∧ of_result (fun buf => offset_entry buf 0) (createBinaryPlist (PBool true)) = Some 0
  ∧ of_result (fun buf => buf !! 8%nat) (createBinaryPlist (PBool true)) = Some (Some 0x09)
  ∧ match create_image (BPlist.new (PBool true)) with
    | Ok im => record_start im 0 = 8
    | Err _ => False
    end.
Proof. repeat split; vm_compute; reflexivity. Qed.

(** C3, as the code has it.  The encoding of [{ a: 1, b: [true, null] }]
    begins with [62 70 6c 69 73 74 30 30], and its trailer reports seven
    objects (the dictionary, [a], 1, [b], the array, [true] and [null]),
    top object 0, and reference and offset sizes of one byte. *)
Theorem scenario1_trailer :
  of_result (take 8) (createBinaryPlist scenario1)
  = Some [0x62; 0x70; 0x6c; 0x69; 0x73; 0x74; 0x30; 0x30]
  ∧ of_result num_objects (createBinaryPlist scenario1) = Some 7
  ∧ of_result top_object_id (createBinaryPlist scenario1) = Some 0
  ∧ of_result ref_size (createBinaryPlist scenario1) = Some 1
  ∧ of_result offset_size (createBinaryPlist scenario1) = Some 1.
Proof. repeat split; vm_compute; reflexivity. Qed.

(** C3, as the specification has it: the trailer does not report six
    objects; the object table holds [null] as its seventh entry. *)
Lemma scenario1_not_six_objects :
  of_result num_objects (createBinaryPlist scenario1) ≠ Some 6
  ∧ _objectTable (_collectObjects (BPlist.new scenario1)) !! 6%nat = Some PNull.
Proof. split; [vm_compute; discriminate | vm_compute; reflexivity]. Qed.

(** ** More on the binary plist encoder *)

Import Layout.

(** *** Widths and big-endian integers *)

Lemma length_le_bytes (w : nat) (v : Z) : length (le_bytes w v) = w.
Proof. revert v. induction w as [|w IH]; intros v; cbn; [done|]. by rewrite IH. Qed.

Lemma length_be_bytes (w : nat) (v : Z) : length (be_bytes w v) = w.
Proof. unfold be_bytes. by rewrite length_rev, length_le_bytes. Qed.

Lemma read_be_snoc (l : list Z) (b : Z) : read_be (l ++ [b]) = read_be l * 256 + b.
Proof. unfold read_be. by rewrite foldl_app. Qed.

Lemma read_be_be_bytes_mod (w : nat) (v : Z) :
  read_be (be_bytes w v) = v `mod` 256 ^ Z.of_nat w.
Proof.
  revert v. induction w as [|w IH]; intros v.
  - cbn. by rewrite Z.mod_1_r.
  - unfold be_bytes in *. cbn [le_bytes rev]. rewrite read_be_snoc, IH.
    rewrite Nat2Z.inj_succ, Z.pow_succ_r by lia.
    rewrite Z.rem_mul_r by lia. lia.
Qed.

Lemma read_be_be_bytes (w : nat) (v : Z) :
  0 <= v < 256 ^ Z.of_nat w -> read_be (be_bytes w v) = v.
Proof. intros Hv. rewrite read_be_be_bytes_mod. by apply Z.mod_small. Qed.

Lemma calculateMinByteSize_width (value : Z) : is_width (_calculateMinByteSize value).
Proof. unfold is_width, _calculateMinByteSize. repeat case_bool_decide; tauto. Qed.

(** X1.  For a value below 2^64, [_calculateMinByteSize] returns one of the
    widths 1, 2, 4 and 8; the value fits that many bytes, and no smaller one
    of the four widths holds it. *)
Theorem calculateMinByteSize_smallest (value : Z) :
  0 <= value < 2 ^ 64 ->
  let size := _calculateMinByteSize value in
  is_width size
  ∧ value < 256 ^ size
  ∧ forall size', is_width size' -> value < 256 ^ size' -> size <= size'.
Proof.
  intros Hv size. split; [apply calculateMinByteSize_width|].
  subst size. unfold _calculateMinByteSize.
  repeat case_bool_decide; (split; [lia|]);
    intros size' [->|[->|[->| ->]]] Hfit; lia.
Qed.

Lemma calculateMinByteSize_smallest_witness :
  _calculateMinByteSize 65536 = 4 ∧ 65536 < 256 ^ 4.
Proof.
  destruct (calculateMinByteSize_smallest 65536) as (_ & Hfit & _); [lia|].
  split; [reflexivity|exact Hfit].
Defined.

Lemma write_int_inv lo hi w buf value pos buf' :
  write_int lo hi w buf value pos = Ok buf' ->
  lo <= value <= hi ∧ (pos + w <= length buf)%nat
  ∧ buf' = splice buf pos (be_bytes w value).
Proof.
  unfold write_int. repeat case_bool_decide; cbn; intros [=]; done.
Qed.

Lemma write_int_err lo hi w buf value pos :
  ¬ (lo <= value <= hi) -> write_int lo hi w buf value pos = Err ERR_OUT_OF_RANGE.
Proof. intros Hv. unfold write_int. by rewrite (bool_decide_false _ Hv). Qed.

Lemma length_splice (buf : Buffer.t) (pos : nat) (bs : list Z) :
  (pos + length bs <= length buf)%nat -> length (splice buf pos bs) = length buf.
Proof.
  intros Hfit. unfold splice. rewrite !length_app, length_take, length_drop. lia.
Qed.

(** The writer that [_writeOffsetToBuffer] picks for a width. *)
Lemma writeOffsetToBuffer_width (buffer : Buffer.t) (position : nat) (value size : Z) :
  is_width size ->
  _writeOffsetToBuffer buffer position value size
  = write_int 0 (256 ^ size - 1) (Z.to_nat size) buffer value position.
Proof. intros [->|[->|[->| ->]]]; reflexivity. Qed.

(** X2.  [_writeOffsetToBuffer] with a width of 1, 2, 4 or 8 bytes and room
    in the buffer: a value that fits the width is written big-endian at the
    position (the bytes read back give the value) and the bytes before and
    after it are left alone; a value that does not fit the width, or is
    negative, makes the write throw a range error. *)
Theorem writeOffsetToBuffer_spec (buffer : Buffer.t) (position : nat) (value size : Z) :
  is_width size ->
  (position + Z.to_nat size <= length buffer)%nat ->
  (0 <= value < 256 ^ size ->
   exists buffer',
     _writeOffsetToBuffer buffer position value size = Ok buffer'
     ∧ length buffer' = length buffer
     ∧ field position (Z.to_nat size) buffer' = value
     ∧ take position buffer' = take position buffer
     ∧ drop (position + Z.to_nat size) buffer' = drop (position + Z.to_nat size) buffer)
  ∧ (¬ (0 <= value < 256 ^ size) ->
     _writeOffsetToBuffer buffer position value size = Err ERR_OUT_OF_RANGE).
Proof.
  intros Hw Hroom. rewrite writeOffsetToBuffer_width by done.
  assert (Hpos : 0 < size) by (destruct Hw as [->|[->|[->| ->]]]; lia).
  split.
  - intros Hv. eexists. rewrite write_int_ok by (done || lia).
    split; [done|].
    assert (Hlen : length (be_bytes (Z.to_nat size) value) = Z.to_nat size)
      by apply length_be_bytes.
    split; [apply length_splice; lia|].
    unfold field, splice. rewrite Hlen.
    split.
    { rewrite drop_app_length' by (rewrite length_take; lia).
      rewrite take_app_length' by done.
      apply read_be_be_bytes. rewrite Z2Nat.id by lia. done. }
    split.
    { rewrite take_app_length' by (rewrite length_take; lia). done. }
    rewrite app_assoc, drop_app_length'; [done|].
    rewrite length_app, length_take. lia.
  - intros Hv. apply write_int_err. lia.
Qed.

Lemma writeOffsetToBuffer_spec_witness :
  exists buffer',
    _writeOffsetToBuffer [1; 2; 3; 4] 1 0x1234 2 = Ok buffer'
    ∧ length buffer' = 4%nat ∧ field 1 2 buffer' = 0x1234.
Proof.
  destruct (writeOffsetToBuffer_spec [1; 2; 3; 4] 1 0x1234 2) as [Hok _];
    [right; by left | cbn; lia |].
  destruct Hok as (buffer' & H1 & H2 & H3 & _); [lia|].
  exists buffer'. done.
Defined.

(** *** Integer records *)

Lemma createIntHeader_record (len : Z) :
  0 <= len < 4294967296 ->
  _createIntHeader len = Ok (int_record (length_exponent len) len).
Proof.
  intros Hlen. unfold _createIntHeader, length_exponent.
  repeat case_bool_decide.
  - change (writeUInt8 (alloc 2) (Z.lor BPLIST_TYPE.INT 0) 0) with (@Ok RangeError _ [16; 0]).
    cbn [mbind Result_bind]. unfold writeUInt8.
    rewrite write_int_ok by (simpl; lia). reflexivity.
  - change (writeUInt8 (alloc 3) (Z.lor BPLIST_TYPE.INT 1) 0)
      with (@Ok RangeError _ [17; 0; 0]).
    cbn [mbind Result_bind]. unfold writeUInt16BE.
    rewrite write_int_ok by (simpl; lia). reflexivity.
  - change (writeUInt8 (alloc 5) (Z.lor BPLIST_TYPE.INT 2) 0)
      with (@Ok RangeError _ [18; 0; 0; 0; 0]).
    cbn [mbind Result_bind]. unfold writeUInt32BE.
    rewrite write_int_ok by (simpl; lia). reflexivity.
Qed.

Lemma createIntHeader_out_of_range (len : Z) :
  ¬ (0 <= len < 4294967296) -> _createIntHeader len = Err ERR_OUT_OF_RANGE.
Proof.
  intros Hlen. unfold _createIntHeader.
  repeat case_bool_decide.
  - change (writeUInt8 (alloc 2) (Z.lor BPLIST_TYPE.INT 0) 0) with (@Ok RangeError _ [16; 0]).
    cbn [mbind Result_bind]. unfold writeUInt8. apply write_int_err. lia.
  - lia.
  - change (writeUInt8 (alloc 5) (Z.lor BPLIST_TYPE.INT 2) 0)
      with (@Ok RangeError _ [18; 0; 0; 0; 0]).
    cbn [mbind Result_bind]. unfold writeUInt32BE. apply write_int_err. lia.
Qed.

Lemma length_exponent_fits (len : Z) :
  0 <= len < 4294967296 -> len < 256 ^ Z.of_nat (2 ^ length_exponent len).
Proof. intros Hlen. unfold length_exponent. repeat case_bool_decide; cbn; lia. Qed.

(** X3.  [_createIntHeader], which writes the length after a 0xF nibble,
    encodes a length below 2^32 as an integer record of 1, 2 or 4 bytes: the
    tag 0x10, 0x11 or 0x12, then the length big-endian, which reads back as
    the length.  Any other length throws a range error. *)
Theorem createIntHeader_spec (len : Z) :
  (0 <= len < 4294967296 ->
   _createIntHeader len = Ok (int_record (length_exponent len) len)
   ∧ read_be (drop 1 (int_record (length_exponent len) len)) = len)
  ∧ (¬ (0 <= len < 4294967296) -> _createIntHeader len = Err ERR_OUT_OF_RANGE).
Proof.
  split; [|apply createIntHeader_out_of_range].
  intros Hlen. split; [by apply createIntHeader_record|].
  unfold int_record. cbn [drop]. apply read_be_be_bytes.
  split; [lia|by apply length_exponent_fits].
Qed.

Lemma createIntHeader_spec_witness :
  _createIntHeader 300 = Ok [0x11; 0x01; 0x2c]
  ∧ _createIntHeader 4294967296 = Err ERR_OUT_OF_RANGE.
Proof.
  destruct (createIntHeader_spec 300) as [Hok _].
  destruct (createIntHeader_spec 4294967296) as [_ Herr].
  split; [apply Hok; lia|apply Herr; lia].
Defined.

(** The exponent [_createIntegerData] picks for a [number]. *)
Lemma createIntegerData_number (n : Z) :
  -9223372036854775808 <= n <= 9223372036854775807 ->
  _createIntegerData (Number n)
  = Ok (int_record
          (if bool_decide (-128 <= n <= 255) then 0
           else if bool_decide (-32768 <= n <= 32767) then 1
           else if bool_decide (-2147483648 <= n <= 2147483647) then 2 else 3) n).
Proof.
  intros Hn. unfold _createIntegerData.
  destruct (decide (0 <= n <= 255)) as [H8u|H8u].
  { rewrite (bool_decide_true (n >= 0)), (bool_decide_true (n <= 255)),
      (bool_decide_true (-128 <= n <= 255)) by lia. cbn [andb].
    change (writeUInt8 (alloc 2) (Z.lor BPLIST_TYPE.INT 0) 0) with (@Ok RangeError _ [16; 0]).
    cbn [mbind Result_bind]. unfold writeUInt8.
    rewrite write_int_ok by (simpl; lia). reflexivity. }
  replace (bool_decide (n >= 0) && bool_decide (n <= 255)) with false
    by (symmetry; apply andb_false_iff; rewrite !bool_decide_eq_false; lia).
  destruct (decide (-128 <= n <= 127)) as [H8|H8].
  { rewrite (bool_decide_true (n >= -128)), (bool_decide_true (n <= 127)),
      (bool_decide_true (-128 <= n <= 255)) by lia. cbn [andb].
    change (writeUInt8 (alloc 2) (Z.lor BPLIST_TYPE.INT 0) 0) with (@Ok RangeError _ [16; 0]).
    cbn [mbind Result_bind]. unfold writeInt8.
    rewrite write_int_ok by (simpl; lia). reflexivity. }
  replace (bool_decide (n >= -128) && bool_decide (n <= 127)) with false
    by (symmetry; apply andb_false_iff; rewrite !bool_decide_eq_false; lia).
  rewrite (bool_decide_false (-128 <= n <= 255)) by lia.
  destruct (decide (-32768 <= n <= 32767)) as [H16|H16].
  { rewrite (bool_decide_true (n >= -32768)), (bool_decide_true (n <= 32767)),
      (bool_decide_true (-32768 <= n <= 32767)) by lia. cbn [andb].
    change (writeUInt8 (alloc 3) (Z.lor BPLIST_TYPE.INT 1) 0)
      with (@Ok RangeError _ [17; 0; 0]).
    cbn [mbind Result_bind]. unfold writeInt16BE.
    rewrite write_int_ok by (simpl; lia). reflexivity. }
  replace (bool_decide (n >= -32768) && bool_decide (n <= 32767)) with false
    by (symmetry; apply andb_false_iff; rewrite !bool_decide_eq_false; lia).
  rewrite (bool_decide_false (-32768 <= n <= 32767)) by lia.
  destruct (decide (-2147483648 <= n <= 2147483647)) as [H32|H32].
  { rewrite (bool_decide_true (n >= -2147483648)), (bool_decide_true (n <= 2147483647)),
      (bool_decide_true (-2147483648 <= n <= 2147483647)) by lia. cbn [andb].
    change (writeUInt8 (alloc 5) (Z.lor BPLIST_TYPE.INT 2) 0)
      with (@Ok RangeError _ [18; 0; 0; 0; 0]).
    cbn [mbind Result_bind]. unfold writeInt32BE.
    rewrite write_int_ok by (simpl; lia). reflexivity. }
  replace (bool_decide (n >= -2147483648) && bool_decide (n <= 2147483647)) with false
    by (symmetry; apply andb_false_iff; rewrite !bool_decide_eq_false; lia).
  rewrite (bool_decide_false (-2147483648 <= n <= 2147483647)) by lia.
  change (writeUInt8 (alloc 9) (Z.lor BPLIST_TYPE.INT 3) 0)
    with (@Ok RangeError _ [19; 0; 0; 0; 0; 0; 0; 0; 0]).
  cbn [mbind Result_bind]. unfold writeBigInt64BE.
  rewrite write_int_ok by (simpl; lia). reflexivity.
Qed.

Lemma twos_complement_be_bytes (w : nat) (n : Z) :
  - (256 ^ Z.of_nat w `div` 2) <= n < 256 ^ Z.of_nat w `div` 2 ->
  twos_complement w (read_be (be_bytes w n)) = n.
Proof.
  intros Hn. rewrite read_be_be_bytes_mod. unfold twos_complement.
  assert (Hpow : 0 < 256 ^ Z.of_nat w) by (apply Z.pow_pos_nonneg; lia).
  pose proof (Z.div_mod (256 ^ Z.of_nat w) 2 ltac:(lia)) as Hhalf.
  pose proof (Z.mod_pos_bound (256 ^ Z.of_nat w) 2 ltac:(lia)) as Hrem.
  destruct (decide (0 <= n)) as [Hpos|Hneg].
  - rewrite Z.mod_small by lia. by rewrite bool_decide_true by lia.
  - replace (n `mod` 256 ^ Z.of_nat w) with (n + 256 ^ Z.of_nat w)
      by (apply Z.mod_unique_pos with (q := -1); lia).
    rewrite bool_decide_false by lia. lia.
Qed.

Ltac closed_powers :=
  repeat match goal with
         | |- context [256 ^ Z.of_nat ?w] =>
             let x := eval vm_compute in (256 ^ Z.of_nat w) in
             change (256 ^ Z.of_nat w) with x
         end;
  repeat match goal with
         | |- context [Z.div (Zpos ?a) 2] =>
             let x := eval vm_compute in (Z.div (Zpos a) 2) in
             change (Z.div (Zpos a) 2) with x
         end.

(** X4.  For a [number] in the signed 64-bit range [_createIntegerData]
    emits the tag 0x10 + k and 2^k bytes, with k at most 3.  The values 0 to
    255 take one byte and read back unsigned as themselves; every value
    outside 128..255 reads back as itself when the bytes are taken as a
    big-endian two's complement integer. *)
Theorem createIntegerData_round_trip (n : Z) :
  -9223372036854775808 <= n <= 9223372036854775807 ->
  exists k,
    _createIntegerData (Number n) = Ok (int_record k n)
    ∧ (k <= 3)%nat
    ∧ (0 <= n <= 255 -> k = 0%nat ∧ read_be (be_bytes (2 ^ k) n) = n)
    ∧ (¬ (128 <= n <= 255) -> twos_complement (2 ^ k) (read_be (be_bytes (2 ^ k) n)) = n).
Proof.
  intros Hn. eexists. split; [by apply createIntegerData_number|].
  repeat case_bool_decide; (split; [lia|]); split;
    try (intros ?; exfalso; lia);
    try (intros ?; split; [done|]; apply read_be_be_bytes; closed_powers; lia);
    intros ?; apply twos_complement_be_bytes; closed_powers; lia.
Qed.

Lemma createIntegerData_round_trip_witness :
  exists k,
    _createIntegerData (Number (-70000)) = Ok (int_record k (-70000))
    ∧ twos_complement (2 ^ k) (read_be (be_bytes (2 ^ k) (-70000))) = -70000.
Proof.
  destruct (createIntegerData_round_trip (-70000)) as (k & Hrecord & _ & _ & Hsigned); [lia|].
  exists k. split; [exact Hrecord|]. apply Hsigned. lia.
Defined.

(** X5.  A [bigint] in the signed 64-bit range is written in eight bytes
    (tag 0x13) whatever its size; outside that range a [bigint] and a
    [number] both make the encoder throw a range error. *)
Theorem createIntegerData_eight_bytes_or_error (n : Z) :
  (-9223372036854775808 <= n <= 9223372036854775807 ->
   _createIntegerData (BigInt n) = Ok (int_record 3 n))
  ∧ (¬ (-9223372036854775808 <= n <= 9223372036854775807) ->
     _createIntegerData (BigInt n) = Err ERR_OUT_OF_RANGE
     ∧ _createIntegerData (Number n) = Err ERR_OUT_OF_RANGE).
Proof.
  split.
  - intros Hn. unfold _createIntegerData.
    change (writeUInt8 (alloc 9) (Z.lor BPLIST_TYPE.INT 3) 0)
      with (@Ok RangeError _ [19; 0; 0; 0; 0; 0; 0; 0; 0]).
    cbn [mbind Result_bind]. unfold writeBigInt64BE.
    rewrite write_int_ok by (simpl; lia). reflexivity.
  - intros Hn. unfold _createIntegerData.
    change (writeUInt8 (alloc 9) (Z.lor BPLIST_TYPE.INT 3) 0)
      with (@Ok RangeError _ [19; 0; 0; 0; 0; 0; 0; 0; 0]).
    cbn [mbind Result_bind]. unfold writeBigInt64BE.
    split; [apply write_int_err; lia|].
    repeat (case_bool_decide; try lia); cbn [andb]; apply write_int_err; lia.
Qed.

Lemma createIntegerData_eight_bytes_or_error_witness :
  _createIntegerData (BigInt 1) = Ok [0x13; 0; 0; 0; 0; 0; 0; 0; 1]
  ∧ _createIntegerData (Number 9223372036854775808) = Err ERR_OUT_OF_RANGE.
Proof.
  destruct (createIntegerData_eight_bytes_or_error 1) as [Hok _].
  destruct (createIntegerData_eight_bytes_or_error 9223372036854775808) as [_ Herr].
  split; [apply Hok; lia|apply Herr; lia].
Defined.

(** *** Length headers, data and strings *)

Lemma lengthHeader_header_of (type len : Z) :
  type ∈ [0x40; 0x50; 0x60; 0xA0; 0xD0] -> 0 <= len < 4294967296 ->
  lengthHeader type len = Ok (header_of type len).
Proof.
  intros Htype Hlen. unfold lengthHeader, header_of.
  rewrite !elem_of_cons in Htype. case_bool_decide as Hsmall.
  - assert (Hcases : len = 0 ∨ len = 1 ∨ len = 2 ∨ len = 3 ∨ len = 4 ∨ len = 5 ∨ len = 6
                     ∨ len = 7 ∨ len = 8 ∨ len = 9 ∨ len = 10 ∨ len = 11 ∨ len = 12
                     ∨ len = 13 ∨ len = 14) by lia.
    destruct Htype as [->|[->|[->|[->|[->|Hf]]]]]; [..|by apply elem_of_nil in Hf];
      repeat (destruct Hcases as [->|Hcases]; [reflexivity|]);
      subst len; reflexivity.
  - rewrite createIntHeader_record by done. cbn [mbind Result_bind].
    unfold Buffer.concat. cbn [List.concat app from_array map]. rewrite app_nil_r.
    destruct Htype as [->|[->|[->|[->|[->|Hf]]]]]; [..|by apply elem_of_nil in Hf];
      reflexivity.
Qed.

Lemma lengthHeader_too_long (type len : Z) :
  4294967296 <= len -> lengthHeader type len = Err ERR_OUT_OF_RANGE.
Proof.
  intros Hlen. unfold lengthHeader. rewrite bool_decide_false by lia.
  by rewrite createIntHeader_out_of_range by lia.
Qed.

(** X6.  [_createBufferData] emits the marker 0x4 with the length (in the
    low nibble when it is below 15, else the nibble 0xF and an integer
    record), then the bytes unchanged; data of 2^32 bytes or more throws a
    range error. *)
Theorem createBufferData_spec (data : list Z) :
  (Z.of_nat (length data) < 4294967296 ->
   _createBufferData data = Ok (header_of 0x40 (Z.of_nat (length data)) ++ data))
  ∧ (4294967296 <= Z.of_nat (length data) ->
     _createBufferData data = Err ERR_OUT_OF_RANGE).
Proof.
  unfold _createBufferData. split; intros Hlen.
  - rewrite lengthHeader_header_of by first [lia | rewrite !elem_of_cons; auto 10].
    cbn [mbind Result_bind]. unfold Buffer.concat. cbn [List.concat].
    by rewrite app_nil_r.
  - by rewrite lengthHeader_too_long.
Qed.

Lemma createBufferData_spec_witness :
  _createBufferData [0xde; 0xad; 0xbe; 0xef] = Ok [0x44; 0xde; 0xad; 0xbe; 0xef].
Proof.
  destruct (createBufferData_spec [0xde; 0xad; 0xbe; 0xef]) as [Hok _].
  apply Hok. cbn. lia.
Defined.

Lemma isAscii_true (s : list Z) : Forall (fun cu => 0 <= cu <= 0x7F) s -> isAscii s = true.
Proof.
  unfold isAscii. induction 1 as [|cu s Hcu _ IH]; [done|].
  cbn. rewrite bool_decide_true by lia. exact IH.
Qed.

Lemma from_ascii_id (s : list Z) : Forall (fun cu => 0 <= cu <= 0x7F) s -> from_ascii s = s.
Proof.
  unfold from_ascii. induction 1 as [|cu s Hcu _ IH]; [done|].
  cbn. rewrite Z.mod_small by lia. by rewrite IH.
Qed.

(** X7.  A string whose code units are all at most 0x7F is written as an
    ASCII string: the marker 0x5 with the length in code units, then one
    byte per code unit, unchanged; a string of 2^32 code units or more
    throws a range error. *)
Theorem createStringData_ascii (s : list Z) :
  Forall (fun cu => 0 <= cu <= 0x7F) s ->
  (Z.of_nat (length s) < 4294967296 ->
   _createStringData s = Ok (header_of 0x50 (Z.of_nat (length s)) ++ s))
  ∧ (4294967296 <= Z.of_nat (length s) -> _createStringData s = Err ERR_OUT_OF_RANGE).
Proof.
  intros Hascii. unfold _createStringData.
  rewrite isAscii_true, from_ascii_id by done. split; intros Hlen.
  - rewrite lengthHeader_header_of by first [lia | rewrite !elem_of_cons; auto 10].
    cbn [mbind Result_bind]. unfold Buffer.concat. cbn [List.concat].
    by rewrite app_nil_r.
  - by rewrite lengthHeader_too_long.
Qed.

Lemma createStringData_ascii_witness :
  _createStringData (js "Connect") = Ok (0x57 :: js "Connect").
Proof.
  destruct (createStringData_ascii (js "Connect")) as [Hok _].
  - repeat constructor; vm_compute; discriminate.
  - apply Hok. cbn. lia.
Defined.

(** *** Tables of references and offsets *)

Lemma length_table_bytes (w : nat) (values : list Z) :
  length (table_bytes w values) = (length values * w)%nat.
Proof.
  unfold table_bytes. induction values as [|v values IH]; [done|].
  cbn [map List.concat length]. rewrite length_app, length_be_bytes, IH. lia.
Qed.

Lemma table_bytes_app (w : nat) (l1 l2 : list Z) :
  table_bytes w (l1 ++ l2) = table_bytes w l1 ++ table_bytes w l2.
Proof. unfold table_bytes. by rewrite map_app, concat_app. Qed.

(** The loop that fills a zeroed buffer with one entry per value. *)
Lemma write_table (size : Z) (values : list Z) :
  is_width size ->
  forall (n i : nat) (buf : Buffer.t),
    (i + n)%nat = length values ->
    buf = table_bytes (Z.to_nat size) (take i values) ++ replicate (n * Z.to_nat size) 0 ->
    for_loop n i
      (fun i buf => _writeOffsetToBuffer buf (i * Z.to_nat size)%nat
                      (default 0 (values !! i)) size) buf
    = if decide (Forall (in_width size) (drop i values))
      then Ok (table_bytes (Z.to_nat size) values)
      else Err ERR_OUT_OF_RANGE.
Proof.
  intros Hw. set (w := Z.to_nat size).
  assert (Hwpos : (0 < w)%nat) by (subst w; destruct Hw as [->|[->|[->| ->]]]; lia).
  induction n as [|n IH]; intros i buf Hlen ->.
  - cbn [for_loop]. rewrite drop_ge by lia. rewrite decide_True by constructor.
    rewrite take_ge by lia. cbn. by rewrite app_nil_r.
  - cbn [for_loop].
    destruct (values !! i) as [v|] eqn:Hv; [|apply lookup_ge_None in Hv; lia].
    cbn [default from_option id].
    rewrite (drop_S _ _ _ Hv).
    rewrite writeOffsetToBuffer_width by done. fold w.
    destruct (decide (in_width size v)) as [Hin|Hout].
    + rewrite write_int_ok.
      2:{ unfold in_width in Hin. lia. }
      2:{ rewrite length_app, length_table_bytes, length_replicate, length_take. lia. }
      cbn [mbind Result_bind].
      rewrite IH with (i := S i); [| lia |].
      * destruct (decide (Forall (in_width size) (drop (S i) values))) as [Hrest|Hrest].
        -- rewrite decide_True by (by constructor). done.
        -- rewrite decide_False; [done|]. by intros [_ ?]%Forall_cons.
      * unfold splice.
        assert (Hprefix : length (table_bytes w (take i values)) = (i * w)%nat).
        { rewrite length_table_bytes, length_take. f_equal. lia. }
        rewrite take_app_length' by done.
        rewrite length_be_bytes.
        rewrite drop_app_ge by lia.
        rewrite Hprefix, drop_replicate.
        rewrite (take_S_r _ _ _ Hv), table_bytes_app.
        unfold table_bytes at 3. cbn [map List.concat]. rewrite app_nil_r.
        rewrite <- app_assoc. do 2 f_equal. f_equal. lia.
    + rewrite write_int_err by (unfold in_width in Hout; lia).
      cbn [mbind Result_bind].
      rewrite decide_False; [done|]. by intros [? _]%Forall_cons.
Qed.

Lemma write_table_from_start (size : Z) (values : list Z) :
  is_width size ->
  for_loop (length values) 0
    (fun i buf => _writeOffsetToBuffer buf (i * Z.to_nat size)%nat
                    (default 0 (values !! i)) size)
    (alloc (length values * Z.to_nat size))
  = if decide (Forall (in_width size) values)
    then Ok (table_bytes (Z.to_nat size) values)
    else Err ERR_OUT_OF_RANGE.
Proof.
  intros Hw. rewrite (write_table size values Hw (length values) 0); [done|done|].
  done.
Qed.

Lemma writeRefs_table (c : BinaryPlistCreator) (refs : list Z) :
  is_width (_objectRefSize c) ->
  writeRefs c refs
  = if decide (Forall (in_width (_objectRefSize c)) refs)
    then Ok (table_bytes (Z.to_nat (_objectRefSize c)) refs)
    else Err ERR_OUT_OF_RANGE.
Proof. intros Hw. unfold writeRefs. by apply write_table_from_start. Qed.

(** *** The object table *)

(** Induction on a value that reaches the items of an array and the values
    of a dictionary. *)
Lemma PlistValue_nested_ind (P : PlistValue -> Prop) :
  P PNull ->
  (forall b, P (PBool b)) ->
  (forall n, P (PNum n)) ->
  (forall n, P (PBigInt n)) ->
  (forall bits, P (PReal bits)) ->
  (forall id bits, P (PDate id bits)) ->
  (forall id bytes, P (PData id bytes)) ->
  (forall s, P (PString s)) ->
  (forall id items, Forall P items -> P (PArray id items)) ->
  (forall id entries, Forall (fun kv => P (snd kv)) entries -> P (PDict id entries)) ->
  forall value, P value.
Proof.
  intros Hnull Hbool Hnum Hbig Hreal Hdate Hdata Hstr Harr Hdict.
  fix IH 1. intros [|b|n|n|bits|id bits|id bytes|s|id items|id entries].
  - exact Hnull.
  - apply Hbool.
  - apply Hnum.
  - apply Hbig.
  - apply Hreal.
  - apply Hdate.
  - apply Hdata.
  - apply Hstr.
  - apply Harr. induction items as [|item items IHitems].
    + apply Forall_nil_2.
    + apply Forall_cons_2; [apply IH|exact IHitems].
  - apply Hdict. induction entries as [|[k v] entries IHentries].
    + apply Forall_nil_2.
    + apply Forall_cons_2; [apply IH|exact IHentries].
Qed.

Lemma extends_refl (c : BinaryPlistCreator) : extends c c.
Proof. by split. Qed.

Lemma extends_trans (c1 c2 c3 : BinaryPlistCreator) :
  extends c1 c2 -> extends c2 c3 -> extends c1 c3.
Proof. intros [? ?] [? ?]. split; by etrans. Qed.

Lemma extends_lookup (c c' : BinaryPlistCreator) (k : MapKey) :
  extends c c' -> is_Some (_objectRefMap c !! k) -> is_Some (_objectRefMap c' !! k).
Proof.
  intros [_ Hmap] [id Hid]. exists id. by eapply lookup_weaken.
Qed.

Lemma extends_length (c c' : BinaryPlistCreator) :
  extends c c' -> (length (_objectTable c) <= length (_objectTable c'))%nat.
Proof. intros [Hpre _]. by apply prefix_length. Qed.

Lemma has_is_Some (c : BinaryPlistCreator) (value : PlistValue) :
  has c value = true <-> is_Some (_objectRefMap c !! key_of value).
Proof. unfold has. by rewrite bool_decide_eq_true. Qed.

(** Adding a value that the map does not have. *)
Lemma add_consistent (c : BinaryPlistCreator) (value : PlistValue) :
  consistent c -> has c value = false ->
  consistent (add c value) ∧ extends c (add c value)
  ∧ _objectRefMap (add c value) !! key_of value
    = Some (Z.of_nat (length (_objectTable c)))
  ∧ _objectTable (add c value) = _objectTable c ++ [value].
Proof.
  intros [Hentry Hmapped] Hfresh.
  assert (Hnone : _objectRefMap c !! key_of value = None).
  { destruct (_objectRefMap c !! key_of value) eqn:Hk; [|done].
    assert (has c value = true) by (apply has_is_Some; by rewrite Hk). congruence. }
  unfold add. cbn [_objectTable _objectRefMap].
  split; [split|]; cbn [_objectTable _objectRefMap].
  - intros i entry Hi.
    destruct (decide (i < length (_objectTable c))%nat) as [Hlt|Hge].
    + rewrite lookup_app_l in Hi by done.
      rewrite lookup_insert_ne; [by apply Hentry|].
      intros Heq. apply Hentry in Hi. rewrite <- Heq in Hi. congruence.
    + rewrite lookup_app_r in Hi by lia.
      apply list_lookup_singleton_Some in Hi as [Hi <-].
      rewrite lookup_insert_eq. do 2 f_equal. lia.
  - intros k id Hk.
    destruct (decide (key_of value = k)) as [<-|Hne].
    + rewrite lookup_insert_eq in Hk. injection Hk as <-.
      exists value. split; [lia|]. rewrite Nat2Z.id.
      split; [|done]. rewrite lookup_app_r by lia. by rewrite Nat.sub_diag.
    + rewrite lookup_insert_ne in Hk by done.
      destruct (Hmapped k id Hk) as (entry & Hpos & Hi & Hkey).
      exists entry. split; [done|]. split; [|done].
      by apply lookup_app_l_Some.
  - split; [split; [by apply prefix_app_r|by apply insert_subseteq]|].
    split; [apply lookup_insert_eq|done].
Qed.

Lemma collected_all_nil (c : BinaryPlistCreator) : consistent c -> collected_all [] c c.
Proof.
  intros Hc. split; [done|]. split; [apply extends_refl|].
  split; [by intros v ?%elem_of_nil|].
  split; [|done].
  intros entry child Hentry. rewrite drop_ge in Hentry by lia. by apply elem_of_nil in Hentry.
Qed.

Lemma collected_all_app (vs1 vs2 : list PlistValue) (c c1 c2 : BinaryPlistCreator) :
  collected_all vs1 c c1 -> collected_all vs2 c1 c2 -> collected_all (vs1 ++ vs2) c c2.
Proof.
  intros (Hc1 & Hext1 & Hhas1 & Hclosed1 & Hr1 & Ho1 & Hroot1)
         (Hc2 & Hext2 & Hhas2 & Hclosed2 & Hr2 & Ho2 & Hroot2).
  split; [done|]. split; [by eapply extends_trans|].
  split.
  { intros v [Hv|Hv]%elem_of_app; [|by apply Hhas2].
    eapply extends_lookup; [done|]. by apply Hhas1. }
  split; [|by rewrite Hr2, Ho2, Hroot2].
  intros entry child Hentry Hchild.
  pose proof (extends_length _ _ Hext1) as Hlen.
  destruct Hext2 as [[added Hadded] Hmap].
  rewrite Hadded, drop_app_le in Hentry by done.
  apply elem_of_app in Hentry as [Hentry|Hentry].
  - eapply extends_lookup; [split; [by exists added|done]|]. by eapply Hclosed1.
  - eapply Hclosed2; [|done].
    by rewrite Hadded, drop_app_length.
Qed.

Lemma collected_all_weaken (vs vs' : list PlistValue) (c c' : BinaryPlistCreator) :
  (forall v, v ∈ vs' -> v ∈ vs) -> collected_all vs c c' -> collected_all vs' c c'.
Proof.
  intros Hsub (Hc & Hext & Hhas & Hrest). split; [done|]. split; [done|].
  split; [|done]. intros v Hv. by apply Hhas, Hsub.
Qed.

(** A value that is added, and whose children are collected then. *)
Lemma collected_added (value : PlistValue) (c c' : BinaryPlistCreator) :
  consistent c -> has c value = false ->
  collected_all (children value) (add c value) c' ->
  collected_all [value] c c'.
Proof.
  intros Hc Hfresh (Hc' & Hext & Hhas & Hclosed & Hr & Ho & Hroot).
  destruct (add_consistent c value Hc Hfresh) as (Hc1 & Hext1 & Hkey & Htable).
  split; [done|]. split; [by eapply extends_trans|].
  split.
  { intros v ->%list_elem_of_singleton. eapply extends_lookup; [done|]. by rewrite Hkey. }
  split; [|done].
  intros entry child Hentry Hchild.
  destruct Hext as [[added Hadded] Hmap].
  rewrite Hadded, Htable, <- app_assoc, drop_app_length in Hentry.
  apply elem_of_cons in Hentry as [->|Hentry]; [by apply Hhas|].
  eapply Hclosed; [|done].
  by rewrite Hadded, drop_app_length.
Qed.

Lemma collected_present (value : PlistValue) (c : BinaryPlistCreator) :
  consistent c -> has c value = true -> collected_all [value] c c.
Proof.
  intros Hc Hhas. destruct (collected_all_nil c Hc) as (_ & Hext & _ & Hrest).
  split; [done|]. split; [done|]. split; [|done].
  intros v ->%list_elem_of_singleton. by apply has_is_Some.
Qed.

Lemma collectKey_collected (key : list Z) (c : BinaryPlistCreator) :
  consistent c -> collected_all [PString key] c (collectKey key c).
Proof.
  intros Hc. unfold collectKey. destruct (has c (PString key)) eqn:Hhas.
  - by apply collected_present.
  - apply collected_added; [done|done|].
    apply collected_all_nil. by apply add_consistent.
Qed.

Lemma collect_items (items : list PlistValue) :
  Forall (fun item => forall c, consistent c ->
                        collected_all [item] c (_collectObjectsRecursive item c)) items ->
  forall c, consistent c ->
    collected_all items c (foldl (fun c item => _collectObjectsRecursive item c) c items).
Proof.
  induction 1 as [|item items Hitem _ IH]; intros c Hc; [by apply collected_all_nil|].
  cbn [foldl]. change (item :: items) with ([item] ++ items).
  eapply collected_all_app; [by apply Hitem|].
  apply IH. by destruct (Hitem c Hc).
Qed.

Lemma collect_entries (entries : list (list Z * PlistValue)) :
  Forall (fun kv => forall c, consistent c ->
                      collected_all [snd kv] c (_collectObjectsRecursive (snd kv) c)) entries ->
  forall c, consistent c ->
    collected_all (children (PDict 0 entries)) c
      (foldl (fun c kv => _collectObjectsRecursive (snd kv) (collectKey (fst kv) c)) c entries).
Proof.
  induction 1 as [|[k v] entries Hentry _ IH]; intros c Hc; [by apply collected_all_nil|].
  cbn [foldl fst snd] in *.
  eapply collected_all_weaken with (vs := ([PString k] ++ [v]) ++ children (PDict 0 entries)).
  { cbn. intros x. rewrite !elem_of_cons, !elem_of_app, !elem_of_cons. tauto. }
  pose proof (collectKey_collected k c Hc) as Hkey.
  assert (Hc1 : consistent (collectKey k c)) by by destruct Hkey.
  pose proof (Hentry _ Hc1) as Hvalue.
  eapply collected_all_app; [by eapply collected_all_app|].
  apply IH. by destruct Hvalue.
Qed.

(** What [_collectObjectsRecursive] does to a consistent creator. *)
Lemma collectObjectsRecursive_collected (value : PlistValue) :
  forall c, consistent c -> collected_all [value] c (_collectObjectsRecursive value c).
Proof.
  induction value as [|b|n|n|bits|id bits|id bytes|s|id items IH|id entries IH]
    using PlistValue_nested_ind; intros c Hc;
    cbn [_collectObjectsRecursive];
    (destruct (has c _) eqn:Hhas; [by apply collected_present|]);
    (apply collected_added; [done|done|]).
  1-8: apply collected_all_nil; by apply add_consistent.
  - apply (collect_items items IH). by apply add_consistent.
  - apply (collect_entries entries IH). by apply add_consistent.
Qed.

Lemma consistent_new (root : PlistValue) : consistent (BPlist.new root).
Proof.
  split; cbn.
  - intros i entry Hi. by rewrite lookup_nil in Hi.
  - intros k id Hk. by rewrite lookup_empty in Hk.
Qed.

(** A value that the map does not have is added at the end of the table,
    and its children are collected on the result. *)
Lemma collectObjectsRecursive_fresh (value : PlistValue) (c : BinaryPlistCreator) :
  consistent c -> has c value = false ->
  collected_all (children value) (add c value) (_collectObjectsRecursive value c).
Proof.
  intros Hc Hfresh.
  assert (Hc1 : consistent (add c value)) by by apply add_consistent.
  destruct value; cbn [_collectObjectsRecursive]; rewrite Hfresh;
    try (by apply collected_all_nil).
  - apply collect_items; [|done].
    apply Forall_forall. intros item _. apply collectObjectsRecursive_collected.
  - apply collect_entries; [|done].
    apply Forall_forall. intros kv _. apply collectObjectsRecursive_collected.
Qed.

Lemma collectObjects_fields (c : BinaryPlistCreator) :
  _objectTable (_collectObjects c) = _objectTable (_collectObjectsRecursive (_rootObject c) c)
  ∧ _objectRefMap (_collectObjects c)
    = _objectRefMap (_collectObjectsRecursive (_rootObject c) c)
  ∧ _objectRefSize (_collectObjects c)
    = _calculateMinByteSize (Z.of_nat (length (_objectTable (_collectObjects c))) - 1).
Proof. done. Qed.

(** The creator after [_collectObjects], for any root. *)
Lemma collectObjects_collected (root : PlistValue) :
  let c := _collectObjects (BPlist.new root) in
  consistent c ∧ closed_from 0 c ∧ _objectTable c !! 0%nat = Some root.
Proof.
  intros c.
  pose proof (collectObjectsRecursive_fresh root (BPlist.new root) (consistent_new root)
                eq_refl) as (Hc & Hext & _ & Hclosed & _).
  pose proof (collectObjectsRecursive_collected root (BPlist.new root) (consistent_new root))
    as (_ & _ & _ & Hclosed0 & _).
  destruct (collectObjects_fields (BPlist.new root)) as (Htable & Hmap & _).
  fold c in Htable, Hmap. cbn [_rootObject BPlist.new] in Htable, Hmap.
  split; [|split].
  - destruct Hc as [Hentry Hmapped]. split.
    + intros i entry. rewrite Htable, Hmap. apply Hentry.
    + intros k id. rewrite Htable, Hmap. apply Hmapped.
  - intros entry child. unfold closed_from in Hclosed0. cbn [length BPlist.new _objectTable] in Hclosed0.
    rewrite Htable, Hmap. apply Hclosed0.
  - rewrite Htable. destruct Hext as [[added Hadded] _]. rewrite Hadded. done.
Qed.

(** X8.  After [_collectObjects], for any root: the root is entry 0 of the
    object table; no two entries of the table have the same key in the
    reference map, so a value is listed once; the map sends every entry to
    its index, and every index in the map holds an entry with that key; and
    the reference size is the smallest width that holds the last index. *)
Theorem collectObjects_table (root : PlistValue) :
  let c := _collectObjects (BPlist.new root) in
  _objectTable c !! 0%nat = Some root
  ∧ NoDup (key_of <$> _objectTable c)
  ∧ (forall (i : nat) (entry : PlistValue),
        _objectTable c !! i = Some entry ->
        _objectRefMap c !! key_of entry = Some (Z.of_nat i))
  ∧ (forall (k : MapKey) (id : Z),
        _objectRefMap c !! k = Some id ->
        exists entry, _objectTable c !! Z.to_nat id = Some entry ∧ key_of entry = k)
  ∧ _objectRefSize c = _calculateMinByteSize (Z.of_nat (length (_objectTable c)) - 1).
Proof.
  intros c. destruct (collectObjects_collected root) as ([Hentry Hmapped] & _ & Hroot).
  fold c in Hentry, Hmapped, Hroot.
  split; [done|]. split.
  { apply NoDup_alt. intros i j k Hi Hj.
    rewrite list_lookup_fmap in Hi, Hj.
    destruct (_objectTable c !! i) as [ei|] eqn:Hei; [|done].
    destruct (_objectTable c !! j) as [ej|] eqn:Hej; [|done].
    cbn in Hi, Hj. injection Hi as Hi. injection Hj as Hj.
    apply Hentry in Hei, Hej. rewrite Hi in Hei. rewrite Hj in Hej.
    rewrite Hei in Hej. injection Hej as Heq. lia. }
  split; [done|]. split; [|done].
  intros k id Hk. destruct (Hmapped k id Hk) as (entry & _ & Hi & Hkey). eauto.
Qed.

Lemma resolves_of (c : BinaryPlistCreator) (value : PlistValue) :
  consistent c -> is_Some (_objectRefMap c !! key_of value) ->
  resolves c value
  ∧ 0 <= refOf c (Some value) < Z.of_nat (length (_objectTable c)).
Proof.
  intros [_ Hmapped] [id Hid].
  destruct (Hmapped _ _ Hid) as (entry & Hpos & Hi & Hkey).
  split.
  - exists (Z.to_nat id), entry. by rewrite Z2Nat.id.
  - unfold refOf. cbn. rewrite Hid. cbn.
    apply lookup_lt_Some in Hi. lia.
Qed.

(** X9.  After [_collectObjects] every item of every array in the table, and
    every key and every value of every dictionary in the table, has a
    reference: the map gives it the index of an entry with its key, and the
    index lies inside the table. *)
Theorem references_resolve (root : PlistValue) :
  let c := _collectObjects (BPlist.new root) in
  forall entry child,
    entry ∈ _objectTable c -> child ∈ children entry ->
    resolves c child
    ∧ 0 <= refOf c (Some child) < Z.of_nat (length (_objectTable c)).
Proof.
  intros c entry child Hentry Hchild.
  destruct (collectObjects_collected root) as (Hc & Hclosed & _). fold c in Hc, Hclosed.
  apply resolves_of; [done|]. by eapply Hclosed.
Qed.

(** *** Array and dictionary records *)

Lemma calculateMinByteSize_fits (value : Z) :
  0 <= value < 2 ^ 64 -> value < 256 ^ _calculateMinByteSize value.
Proof. intros Hv. unfold _calculateMinByteSize. repeat case_bool_decide; lia. Qed.

Lemma index_in_width (c : BinaryPlistCreator) (r : Z) :
  _objectRefSize c = _calculateMinByteSize (Z.of_nat (length (_objectTable c)) - 1) ->
  Z.of_nat (length (_objectTable c)) <= 2 ^ 64 ->
  0 <= r < Z.of_nat (length (_objectTable c)) ->
  in_width (_objectRefSize c) r.
Proof.
  intros -> Hsize Hr. unfold in_width. split; [lia|].
  pose proof (calculateMinByteSize_fits (Z.of_nat (length (_objectTable c)) - 1)). lia.
Qed.

Lemma dict_get_first (entries : list (list Z * PlistValue)) (key : list Z) :
  key ∈ map fst entries ->
  exists value, dict_get entries key = Some value ∧ (key, value) ∈ entries.
Proof.
  unfold dict_get. induction entries as [|[k v] entries IH]; cbn; [by intros ?%elem_of_nil|].
  intros Hin. case_bool_decide as Hk; cbn in Hk.
  - subst k. exists v. split; [done|]. apply elem_of_cons. by left.
  - apply elem_of_cons in Hin as [->|Hin]; [done|].
    destruct (IH Hin) as (value & Hget & Hval). exists value. split; [done|].
    apply elem_of_cons. by right.
Qed.

Lemma dict_get_NoDup (entries : list (list Z * PlistValue)) (key : list Z) (value : PlistValue) :
  NoDup (map fst entries) -> (key, value) ∈ entries -> dict_get entries key = Some value.
Proof.
  unfold dict_get. induction entries as [|[k v] entries IH]; cbn; [by intros _ ?%elem_of_nil|].
  intros [Hfresh Hnodup]%NoDup_cons Hin. case_bool_decide as Hk; cbn in Hk.
  - subst k. apply elem_of_cons in Hin as [[= ->]|Hin]; [done|].
    exfalso. apply Hfresh. apply list_elem_of_fmap. by exists (key, value).
  - apply elem_of_cons in Hin as [[= -> ->]|Hin]; [done|]. by apply IH.
Qed.

(** X10.  The record of an array of the object table, with fewer than 2^32
    items in a table of at most 2^64 entries, is the marker 0xA with the
    number of items, then the reference of each item in order, each in
    [_objectRefSize] bytes big-endian; the encoder does not fail on it. *)
Theorem createObjectData_array (root : PlistValue) (id : nat) (items : list PlistValue) :
  let c := _collectObjects (BPlist.new root) in
  PArray id items ∈ _objectTable c ->
  Z.of_nat (length (_objectTable c)) <= 2 ^ 64 ->
  Z.of_nat (length items) < 4294967296 ->
  _createObjectData c (PArray id items)
  = Ok (header_of 0xA0 (Z.of_nat (length items))
        ++ table_bytes (Z.to_nat (_objectRefSize c))
             (map (fun item => refOf c (Some item)) items)).
Proof.
  intros c Hin Hsize Hlen.
  destruct (collectObjects_collected root) as (Hc & Hclosed & _). fold c in Hc, Hclosed.
  destruct (collectObjects_fields (BPlist.new root)) as (_ & _ & Hrefsize). fold c in Hrefsize.
  cbn [_createObjectData]. unfold _createArrayData.
  rewrite lengthHeader_header_of by first [lia | rewrite !elem_of_cons; auto 10]. cbn [mbind Result_bind].
  rewrite writeRefs_table by (rewrite Hrefsize; apply calculateMinByteSize_width).
  rewrite decide_True.
  - cbn [mbind Result_bind]. unfold Buffer.concat. cbn [List.concat]. by rewrite app_nil_r.
  - apply Forall_forall. intros r (item & -> & Hitem)%list_elem_of_fmap.
    apply index_in_width; [done|done|].
    apply resolves_of; [done|].
    apply (Hclosed (PArray id items) item); [by rewrite drop_0|done].
Qed.

(** X11.  The record of a dictionary of the object table whose keys are
    distinct, with fewer than 2^32 entries in a table of at most 2^64
    entries, is the marker 0xD with the number of entries, then the
    references of all keys in order, then the references of all values in
    order, each in [_objectRefSize] bytes big-endian; the encoder does not
    fail on it. *)
Theorem createObjectData_dictionary
    (root : PlistValue) (id : nat) (entries : list (list Z * PlistValue)) :
  let c := _collectObjects (BPlist.new root) in
  PDict id entries ∈ _objectTable c ->
  NoDup (map fst entries) ->
  Z.of_nat (length (_objectTable c)) <= 2 ^ 64 ->
  Z.of_nat (length entries) < 4294967296 ->
  _createObjectData c (PDict id entries)
  = Ok (header_of 0xD0 (Z.of_nat (length entries))
        ++ table_bytes (Z.to_nat (_objectRefSize c))
             (map (fun kv => refOf c (Some (PString (fst kv)))) entries)
        ++ table_bytes (Z.to_nat (_objectRefSize c))
             (map (fun kv => refOf c (Some (snd kv))) entries)).
Proof.
  intros c Hin Hkeys Hsize Hlen.
  destruct (collectObjects_collected root) as (Hc & Hclosed & _). fold c in Hc, Hclosed.
  destruct (collectObjects_fields (BPlist.new root)) as (_ & _ & Hrefsize). fold c in Hrefsize.
  assert (Hchild : forall child, child ∈ children (PDict id entries) ->
                     in_width (_objectRefSize c) (refOf c (Some child))).
  { intros child Hchild. apply index_in_width; [done|done|].
    apply resolves_of; [done|].
    apply (Hclosed (PDict id entries) child); [by rewrite drop_0|done]. }
  cbn [_createObjectData]. unfold _createDictionaryData.
  rewrite length_map.
  rewrite lengthHeader_header_of by first [lia | rewrite !elem_of_cons; auto 10]. cbn [mbind Result_bind].
  rewrite !writeRefs_table by (rewrite Hrefsize; apply calculateMinByteSize_width).
  rewrite !map_map.
  assert (Hvalues : map (fun kv => refOf c (dict_get entries (fst kv))) entries
                    = map (fun kv => refOf c (Some (snd kv))) entries).
  { apply map_ext_in. intros [k v] Hkv%list_elem_of_In. cbn.
    by rewrite (dict_get_NoDup entries k v). }
  rewrite Hvalues.
  assert (Hkeyrefs : Forall (in_width (_objectRefSize c))
                       (map (fun kv => refOf c (Some (PString (fst kv)))) entries)).
  { apply Forall_forall. intros r (kv & -> & Hkv)%list_elem_of_fmap.
    apply Hchild. cbn. apply elem_of_app. left.
    apply list_elem_of_fmap. by exists kv. }
  assert (Hvaluerefs : Forall (in_width (_objectRefSize c))
                         (map (fun kv => refOf c (Some (snd kv))) entries)).
  { apply Forall_forall. intros r (kv & -> & Hkv)%list_elem_of_fmap.
    apply Hchild. cbn. apply elem_of_app. right.
    apply list_elem_of_fmap. by exists kv. }
  rewrite !decide_True by assumption.
  cbn [mbind Result_bind]. unfold Buffer.concat. cbn [List.concat]. by rewrite app_nil_r.
Qed.

Lemma references_resolve_witness :
  resolves (_collectObjects (BPlist.new scenario1)) PNull
  ∧ 0 <= refOf (_collectObjects (BPlist.new scenario1)) (Some PNull)
    < Z.of_nat (length (_objectTable (_collectObjects (BPlist.new scenario1)))).
Proof.
  apply (references_resolve scenario1 (PArray 1 [PBool true; PNull]) PNull).
  - apply list_elem_of_lookup. exists 4%nat. reflexivity.
  - apply list_elem_of_lookup. exists 1%nat. reflexivity.
Defined.

Lemma createObjectData_array_witness :
  _createObjectData (_collectObjects (BPlist.new scenario1)) (PArray 1 [PBool true; PNull])
  = Ok [0xA2; 5; 6].
Proof.
  apply (createObjectData_array scenario1 1 [PBool true; PNull]).
  - apply list_elem_of_lookup. exists 4%nat. reflexivity.
  - by vm_compute.
  - by vm_compute.
Defined.

Lemma createObjectData_dictionary_witness :
  _createObjectData (_collectObjects (BPlist.new scenario1)) scenario1
  = Ok [0xD2; 1; 3; 2; 4].
Proof.
  apply (createObjectData_dictionary scenario1 0
           [(js "a", PNum 1); (js "b", PArray 1 [PBool true; PNull])]).
  - apply list_elem_of_lookup. exists 0%nat. reflexivity.
  - apply NoDup_cons. split; [|apply NoDup_singleton].
    intros Hin. apply list_elem_of_singleton in Hin. discriminate Hin.
  - by vm_compute.
  - by vm_compute.
Defined.

(** *** Trailer and offset table *)

Lemma createTrailer_layout (c : BinaryPlistCreator) (numObjects offsetTableOffset : Z)
    (trailer : Buffer.t) :
  _createTrailer c numObjects offsetTableOffset = Ok trailer ->
  0 <= _offsetSize c <= 255 ∧ 0 <= _objectRefSize c <= 255
  ∧ 0 <= numObjects < 2 ^ 64 ∧ 0 <= offsetTableOffset < 2 ^ 64
  ∧ trailer = [0; 0; 0; 0; 0; 0; _offsetSize c; _objectRefSize c]
              ++ be_bytes 8 numObjects ++ be_bytes 8 0 ++ be_bytes 8 offsetTableOffset.
Proof.
  unfold _createTrailer, _writeBigIntToBuffer, writeUInt8, writeBigUInt64BE.
  change (splice (alloc BPLIST_TRAILER_SIZE) 0 (replicate 6 0)) with (replicate 32 0).
  intros Hrun.
  destruct (write_int 0 255 1 (replicate 32 0) (_offsetSize c) 6) as [t1|] eqn:H1;
    cbn [mbind Result_bind] in Hrun; [|discriminate].
  apply write_int_inv in H1 as (Hos & _ & ->).
  destruct (write_int 0 255 1 _ (_objectRefSize c) 7) as [t2|] eqn:H2;
    cbn [mbind Result_bind] in Hrun; [|discriminate].
  apply write_int_inv in H2 as (Hrs & _ & ->).
  destruct (write_int 0 18446744073709551615 8 _ numObjects 8) as [t3|] eqn:H3;
    cbn [mbind Result_bind] in Hrun; [|discriminate].
  apply write_int_inv in H3 as (Hn & _ & ->).
  destruct (write_int 0 18446744073709551615 8 _ 0 16) as [t4|] eqn:H4;
    cbn [mbind Result_bind] in Hrun; [|discriminate].
  apply write_int_inv in H4 as (_ & _ & ->).
  apply write_int_inv in Hrun as (Hoff & _ & ->).
  repeat (split; [lia|]).
  cbn. rewrite !(Z.mod_small (_offsetSize c)), !(Z.mod_small (_objectRefSize c)) by lia.
  reflexivity.
Qed.

Lemma image_bytes_eq (im : Image) :
  image_bytes im
  = (BPLIST_MAGIC_AND_VERSION ++ Buffer.concat (objectData im))
    ++ offsetTable im ++ trailer im.
Proof.
  unfold image_bytes, Buffer.concat.
  rewrite !concat_app. cbn [List.concat]. by rewrite !app_nil_r, <- !app_assoc.
Qed.

Lemma createObjects_length c table :
  forall offs data offs' data',
    createObjects c table offs data = Ok (offs', data') ->
    length offs' = (length offs + length table)%nat.
Proof.
  induction table as [|value rest IH]; intros offs data offs' data' Hrun.
  - cbn in Hrun. injection Hrun as <- <-. cbn. lia.
  - cbn [createObjects] in Hrun.
    destruct (_createObjectData c value) as [record|e];
      cbn [mbind Result_bind] in Hrun; [|discriminate].
    apply IH in Hrun. rewrite length_app in Hrun. cbn in *. lia.
Qed.

(** Everything [create_image] leaves in its result, when it succeeds. *)
Lemma create_image_inv (root : PlistValue) (im : Image) :
  create_image (BPlist.new root) = Ok im ->
  let c := _collectObjects (BPlist.new root) in
  let size := _calculateMinByteSize (_calculateObjectDataLength (objectData im)) in
  creator im = set_offsetSize c size
  ∧ createObjects c (_objectTable c) [] [] = Ok (objectOffsets im, objectData im)
  ∧ _createOffsetTable (set_offsetSize c size) (objectOffsets im) = Ok (offsetTable im)
  ∧ _createTrailer (set_offsetSize c size) (Z.of_nat (length (_objectTable c)))
      (Z.of_nat (length BPLIST_MAGIC_AND_VERSION)
       + _calculateObjectDataLength (objectData im))
    = Ok (trailer im).
Proof.
  unfold create_image.
  destruct (createObjects _ _ [] []) as [[offs data]|e] eqn:Hobjects;
    cbn [mbind Result_bind]; [|discriminate].
  destruct (_createOffsetTable _ _) as [table|e] eqn:Htable;
    cbn [mbind Result_bind]; [|discriminate].
  destruct (_createTrailer _ _ _) as [trailer|e] eqn:Htrailer;
    cbn [mbind Result_bind]; [|discriminate].
  intros [= <-]. cbn [creator objectOffsets objectData offsetTable BPlist.trailer fst snd] in *.
  done.
Qed.

Lemma trailer_of_image (im : Image) :
  length (trailer im) = 32%nat -> trailer_of (image_bytes im) = trailer im.
Proof.
  intros Hlen. unfold trailer_of. rewrite image_bytes_eq, !app_assoc.
  rewrite drop_app_length'; [done|].
  rewrite !length_app, Hlen. cbn. lia.
Qed.

Lemma trailer_fields (os rs n off : Z) :
  0 <= os <= 255 -> 0 <= rs <= 255 -> 0 <= n < 2 ^ 64 -> 0 <= off < 2 ^ 64 ->
  let t := [0; 0; 0; 0; 0; 0; os; rs] ++ be_bytes 8 n ++ be_bytes 8 0 ++ be_bytes 8 off in
  field 6 1 t = os ∧ field 7 1 t = rs ∧ field 8 8 t = n ∧ field 16 8 t = 0
  ∧ field 24 8 t = off.
Proof.
  intros Hos Hrs Hn Hoff t. subst t. unfold field.
  assert (Hread : forall v, 0 <= v < 2 ^ 64 -> read_be (be_bytes 8 v) = v).
  { intros v Hv. apply read_be_be_bytes. cbn. lia. }
  split; [cbn; lia|]. split; [cbn; lia|].
  change (drop 8 ([0; 0; 0; 0; 0; 0; os; rs] ++ ?x)) with x.
  change (drop 16 ([0; 0; 0; 0; 0; 0; os; rs] ++ ?x)) with (drop 8 x).
  change (drop 24 ([0; 0; 0; 0; 0; 0; os; rs] ++ ?x)) with (drop 16 x).
  split; [rewrite take_app_length' by (by rewrite length_be_bytes); by apply Hread|].
  split.
  - rewrite drop_app_length' by (by rewrite length_be_bytes).
    rewrite take_app_length' by (by rewrite length_be_bytes). by apply Hread.
  - rewrite app_assoc, drop_app_length' by (rewrite length_app, !length_be_bytes; done).
    rewrite take_ge by (rewrite length_be_bytes; lia). by apply Hread.
Qed.

(** The image of any root, read back from its last 32 bytes. *)
Lemma image_layout (root : PlistValue) (im : Image) :
  create_image (BPlist.new root) = Ok im ->
  let buf := image_bytes im in
  let c := creator im in
  _objectTable c !! 0%nat = Some root
  ∧ length (objectData im) = length (_objectTable c)
  ∧ length (trailer im) = 32%nat
  ∧ offset_size buf = _offsetSize c
  ∧ ref_size buf = _objectRefSize c
  ∧ num_objects buf = Z.of_nat (length (_objectTable c))
  ∧ top_object_id buf = 0
  ∧ offset_table_offset buf = 8 + Z.of_nat (length (Buffer.concat (objectData im)))
  ∧ drop (Z.to_nat (offset_table_offset buf)) buf = offsetTable im ++ trailer im.
Proof.
  intros Hrun buf c.
  destruct (create_image_inv root im Hrun) as (Hc & Hobjects & Htable & Htrailer).
  destruct (collectObjects_collected root) as (_ & _ & Hroot).
  apply createTrailer_layout in Htrailer as (Hos & Hrs & Hn & Hoff & Hlayout).
  rewrite calculateObjectDataLength_concat in Hos, Hoff, Hlayout.
  assert (Hlen : length (trailer im) = 32%nat).
  { rewrite Hlayout, !length_app, !length_be_bytes. reflexivity. }
  subst buf c. rewrite Hc. cbn [set_offsetSize _objectTable _offsetSize _objectRefSize] in *.
  split; [done|].
  split.
  { pose proof (createObjects_offsets _ _ _ _ _ _ Hobjects eq_refl) as [Hlens _];
      [by intros i o [=]|].
    apply createObjects_length in Hobjects. cbn [length Nat.add] in Hobjects. lia. }
  split; [done|].
  unfold offset_size, ref_size, num_objects, top_object_id, offset_table_offset.
  rewrite trailer_of_image by done. rewrite Hlayout.
  destruct (trailer_fields _ _ _ _ Hos Hrs Hn Hoff) as (-> & -> & -> & -> & ->).
  rewrite calculateObjectDataLength_concat.
  repeat (split; [done|]).
  rewrite image_bytes_eq, drop_app_length'; [by rewrite Hlayout|].
  rewrite length_app. cbn [length BPLIST_MAGIC_AND_VERSION]. lia.
Qed.

(** X12.  Whenever the encoder returns an image, for any root: the root is
    object 0, there is one record per entry of the object table, and the
    last 32 bytes of the buffer are the trailer.  Read back, the trailer
    gives the offset size and the reference size that the creator chose, the
    number of entries of the object table, top object 0, and as offset of
    the offset table 8 plus the length of all records; from that offset on
    the buffer is the offset table followed by the trailer. *)
Theorem image_trailer (root : PlistValue) (im : Image) :
  create_image (BPlist.new root) = Ok im ->
  let buf := image_bytes im in
  let c := creator im in
  _objectTable c !! 0%nat = Some root
  ∧ length (objectData im) = length (_objectTable c)
  ∧ length (trailer im) = 32%nat
  ∧ offset_size buf = _offsetSize c
  ∧ ref_size buf = _objectRefSize c
  ∧ num_objects buf = Z.of_nat (length (_objectTable c))
  ∧ top_object_id buf = 0
  ∧ offset_table_offset buf = 8 + Z.of_nat (length (Buffer.concat (objectData im)))
  ∧ drop (Z.to_nat (offset_table_offset buf)) buf = offsetTable im ++ trailer im.
Proof. apply image_layout. Qed.

Lemma image_trailer_witness :
  num_objects (image_bytes scenario1_image) = 7
  ∧ offset_table_offset (image_bytes scenario1_image) = 24.
Proof.
  destruct (image_trailer scenario1 scenario1_image)
    as (_ & _ & _ & _ & _ & Hn & _ & Hoff & _); [by vm_compute|].
  rewrite Hn, Hoff. split; by vm_compute.
Defined.

Lemma table_bytes_entry (w : nat) (values : list Z) (i : nat) (v : Z) (rest : Buffer.t) :
  values !! i = Some v -> 0 <= v < 256 ^ Z.of_nat w ->
  field (i * w) w (table_bytes w values ++ rest) = v.
Proof.
  intros Hi Hv. unfold field.
  rewrite <- (take_drop_middle values i v Hi), table_bytes_app.
  assert (Hlen : length (table_bytes w (take i values)) = (i * w)%nat).
  { rewrite length_table_bytes, length_take. apply lookup_lt_Some in Hi.
    f_equal. lia. }
  rewrite <- app_assoc, drop_app_length' by done.
  unfold table_bytes at 1. cbn [map List.concat]. rewrite <- !app_assoc.
  rewrite take_app_length' by (by rewrite length_be_bytes).
  by apply read_be_be_bytes.
Qed.

Lemma createOffsetTable_table (c : BinaryPlistCreator) (offsets : list Z) (table : Buffer.t) :
  is_width (_offsetSize c) ->
  length offsets = length (_objectTable c) ->
  _createOffsetTable c offsets = Ok table ->
  Forall (in_width (_offsetSize c)) offsets
  ∧ table = table_bytes (Z.to_nat (_offsetSize c)) offsets.
Proof.
  intros Hw Hlen. unfold _createOffsetTable. rewrite <- Hlen.
  rewrite write_table_from_start by done.
  destruct (decide _) as [Hall|_]; [|discriminate]. by intros [= <-].
Qed.

(** X13.  Whenever the encoder returns an image, for any root, entry [i] of
    the offset table, read back from the buffer at the table offset and in
    the offset size that the trailer gives, is the start of record [i] less
    8: it counts from the end of the magic.  The entry fits the offset
    size. *)
Theorem offset_table_entries (root : PlistValue) (im : Image) (i : nat) :
  create_image (BPlist.new root) = Ok im ->
  (i < length (_objectTable (creator im)))%nat ->
  offset_entry (image_bytes im) i = record_start im i - 8
  ∧ 0 <= offset_entry (image_bytes im) i < 256 ^ _offsetSize (creator im).
Proof.
  intros Hrun Hi.
  destruct (image_layout root im Hrun) as (_ & Hdata & _ & Hos & _ & _ & _ & Hoff & Hdrop).
  destruct (objectOffsets_after_magic root im Hrun) as [Hlen Hoffsets].
  destruct (create_image_inv root im Hrun) as (Hc & _ & Htable & _).
  rewrite <- Hc in Htable.
  assert (Hw : is_width (_offsetSize (creator im))).
  { rewrite Hc. apply calculateMinByteSize_width. }
  apply createOffsetTable_table in Htable as [Hall Htable]; [|done|congruence].
  destruct (lookup_lt_is_Some_2 (objectOffsets im) i) as [o Ho]; [lia|].
  assert (Hin : in_width (_offsetSize (creator im)) o).
  { rewrite Forall_forall in Hall. apply Hall. by eapply list_elem_of_lookup_2. }
  unfold in_width in Hin.
  assert (Hentry : offset_entry (image_bytes im) i = o).
  { unfold offset_entry. cbv zeta. rewrite Hos. unfold field.
    rewrite <- drop_drop, Hdrop, Htable.
    apply table_bytes_entry; [done|].
    rewrite Z2Nat.id by (destruct Hw as [->|[->|[->| ->]]]; lia). done. }
  rewrite Hentry. split; [by apply Hoffsets|done].
Qed.

Lemma offset_table_entries_witness :
  offset_entry (image_bytes scenario1_image) 1 = record_start scenario1_image 1 - 8
  ∧ 0 <= offset_entry (image_bytes scenario1_image) 1
    < 256 ^ _offsetSize (creator scenario1_image).
Proof.
  apply (offset_table_entries scenario1 scenario1_image 1); [by vm_compute|].
  vm_compute. lia.
Defined.

(** ** The RemoteXPC handshake *)

Import Handshake Wire.

Lemma bind_ok {A B} (m : M A) (k : A -> M B) (h h' : Handshake.t) (a : A) :
  m h = (Ok a, h') -> (m ≫= k) h = k a h'.
Proof. intros Hm. unfold mbind, M_bind. by rewrite Hm. Qed.

Lemma after_writes_app bs cs socket :
  after_writes cs (after_writes bs socket) = after_writes (bs ++ cs) socket.
Proof.
  unfold after_writes. cbn. rewrite length_app, <- app_assoc. f_equal. lia.
Qed.

Lemma accepts_after n bs socket :
  accepts (length bs + n) socket -> accepts n (after_writes bs socket).
Proof. intros H k Hk. cbn in *. apply H. lia. Qed.

Lemma accepts_le n m socket : (m <= n)%nat -> accepts n socket -> accepts m socket.
Proof. intros Hle H k Hk. apply H. lia. Qed.

Lemma socket_write_ok (bytes : Bytes) (h : Handshake.t) :
  accepts 1 (_socket h) ->
  socket_write bytes h
  = (true, Handshake.mk (after_writes [bytes] (_socket h)) (nextMessageId h)).
Proof.
  intros Hok. unfold socket_write, after_writes.
  rewrite Hok by lia. cbn. by rewrite Nat.add_1_r.
Qed.

Lemma writeMagic_ok (h : Handshake.t) :
  accepts 1 (_socket h) ->
  writeMagic h = (Ok (), Handshake.mk (after_writes [HTTP2_MAGIC] (_socket h)) (nextMessageId h)).
Proof. intros Hok. unfold writeMagic. by rewrite socket_write_ok. Qed.

Lemma sendFrame_ok (frame : Bytes) (h : Handshake.t) :
  accepts 1 (_socket h) ->
  sendFrame frame h = (Ok (), Handshake.mk (after_writes [frame] (_socket h)) (nextMessageId h)).
Proof. intros Hok. unfold sendFrame. by rewrite socket_write_ok. Qed.

Lemma sendRequest_ok (data : XpcObject) (h : Handshake.t) (id : Z) :
  nextMessageId h !! Http2Constants.ROOT_CHANNEL = Some id ->
  accepts 1 (_socket h) ->
  sendRequest data h
  = (Ok (), Handshake.mk (after_writes [request_frame id data] (_socket h)) (nextMessageId h)).
Proof. intros Hid Hok. unfold sendRequest. rewrite Hid. by apply sendFrame_ok. Qed.

(** [perform] on a socket that takes nine writes. *)
Lemma perform_ok (socket : Socket) :
  accepts 9 socket ->
  perform (Handshake.new socket)
  = (Ok (), Handshake.mk (after_writes handshake_frames socket)
                         {[ Http2Constants.ROOT_CHANNEL := 1;
                            Http2Constants.REPLY_CHANNEL := 1 ]}).
Proof.
  intros Hok. unfold perform, Handshake.new.
  erewrite bind_ok; [|apply writeMagic_ok; by eapply accepts_le, Hok; lia].
  cbn [_socket nextMessageId].
  do 3 (erewrite bind_ok;
        [|apply sendFrame_ok; cbn [_socket]; rewrite ?after_writes_app;
          apply accepts_after; by eapply accepts_le, Hok; cbn; lia];
        cbn [_socket nextMessageId]; rewrite ?after_writes_app).
  erewrite bind_ok;
    [|apply sendRequest_ok with (id := 0);
      [reflexivity | cbn [_socket]; apply accepts_after; by eapply accepts_le, Hok; cbn; lia]].
  cbn [_socket nextMessageId]; rewrite ?after_writes_app.
  erewrite bind_ok;
    [|apply sendFrame_ok; cbn [_socket]; 
      apply accepts_after; by eapply accepts_le, Hok; cbn; lia].
  cbn [_socket nextMessageId]; rewrite ?after_writes_app.
  erewrite bind_ok; [|reflexivity].
  cbn [_socket nextMessageId].
  do 2 (erewrite bind_ok;
    [|apply sendFrame_ok; cbn [_socket]; 
      apply accepts_after; by eapply accepts_le, Hok; cbn; lia];
    cbn [_socket nextMessageId]; rewrite ?after_writes_app).
  erewrite bind_ok; [|reflexivity].
  cbn [_socket nextMessageId].
  rewrite sendFrame_ok
    by (cbn [_socket]; apply accepts_after; by eapply accepts_le, Hok; cbn; lia).
  cbn [_socket nextMessageId]; rewrite ?after_writes_app.
  reflexivity.
Qed.

Lemma sendFrame_cases (frame : Bytes) (h : Handshake.t) :
  sendFrame frame h
  = if next_write_fails h
    then (Err SendFrameError,
          Handshake.mk (mkSocket (written (_socket h)) (S (calls (_socket h)))
                                 (fails (_socket h))) (nextMessageId h))
    else (Ok (), Handshake.mk (after_writes [frame] (_socket h)) (nextMessageId h)).
Proof.
  unfold sendFrame, socket_write, next_write_fails, after_writes.
  destruct (fails _ _); cbn; [done|]. by rewrite Nat.add_1_r.
Qed.

Lemma writeMagic_cases (h : Handshake.t) :
  writeMagic h
  = if next_write_fails h
    then (Err WriteError,
          Handshake.mk (mkSocket (written (_socket h)) (S (calls (_socket h)))
                                 (fails (_socket h))) (nextMessageId h))
    else (Ok (), Handshake.mk (after_writes [HTTP2_MAGIC] (_socket h)) (nextMessageId h)).
Proof.
  unfold writeMagic, socket_write, next_write_fails, after_writes.
  destruct (fails _ _); cbn; [done|]. by rewrite Nat.add_1_r.
Qed.

Lemma bind_cases {A B} (m : M A) (k : A -> M B) (h : Handshake.t) :
  (m ≫= k) h = match m h with
               | (Ok a, h') => k a h'
               | (Err e, h') => (Err e, h')
               end.
Proof. reflexivity. Qed.

Ltac write_or_fail Hok :=
  destruct (next_write_fails _) eqn:? in Hok; [discriminate|]; cbv iota beta zeta in Hok.

Lemma perform_completes_only_if (socket : Socket) :
  fst (perform (Handshake.new socket)) = Ok () -> accepts 9 socket.
Proof.
  unfold perform, Handshake.new. intros Hok.
  rewrite bind_cases, writeMagic_cases in Hok. write_or_fail Hok. 
  rewrite bind_cases, sendFrame_cases in Hok; write_or_fail Hok.
  do 2 (rewrite bind_cases, sendFrame_cases in Hok; write_or_fail Hok).
  rewrite bind_cases in Hok. unfold sendRequest at 1 in Hok.
  cbn [nextMessageId] in Hok.
  change ({[Http2Constants.ROOT_CHANNEL := 0; Http2Constants.REPLY_CHANNEL := 0]}
            !! Http2Constants.ROOT_CHANNEL) with (Some 0) in Hok.
  cbv iota beta zeta in Hok.
  rewrite sendFrame_cases in Hok. write_or_fail Hok.
  rewrite bind_cases, sendFrame_cases in Hok. write_or_fail Hok.
  rewrite bind_cases in Hok. unfold increment at 1 in Hok. cbv iota beta zeta in Hok.
  do 2 (rewrite bind_cases, sendFrame_cases in Hok; write_or_fail Hok).
  rewrite bind_cases in Hok. unfold increment at 1 in Hok. cbv iota beta zeta in Hok.
  rewrite sendFrame_cases in Hok. write_or_fail Hok.
  clear Hok. unfold next_write_fails in *. cbn in *.
  intros k Hk.
  assert (Hcases : k = calls socket ∨ k = (calls socket + 1)%nat
                   ∨ k = (calls socket + 1 + 1)%nat
                   ∨ k = (calls socket + 1 + 1 + 1)%nat
                   ∨ k = (calls socket + 1 + 1 + 1 + 1)%nat
                   ∨ k = (calls socket + 1 + 1 + 1 + 1 + 1)%nat
                   ∨ k = (calls socket + 1 + 1 + 1 + 1 + 1 + 1)%nat
                   ∨ k = (calls socket + 1 + 1 + 1 + 1 + 1 + 1 + 1)%nat
                   ∨ k = (calls socket + 1 + 1 + 1 + 1 + 1 + 1 + 1 + 1)%nat) by lia.
  repeat (destruct Hcases as [->|Hcases]; [assumption|]). by subst.
Qed.

(** C4.  [perform] on a new instance completes on every socket that takes
    nine writes, and only on those.  When it completes it has written
    exactly the preface, SETTINGS (3 = 100, 4 = 1048576) on stream 0,
    WINDOW_UPDATE 983041 on stream 0, HEADERS with END_HEADERS on stream 1,
    DATA on stream 1 with (flags 0x1, id 0, body [{}]), DATA on stream 1 with
    (flags 0x0201, id 0, null), HEADERS with END_HEADERS on stream 3, DATA on
    stream 3 with (flags 0x1 | 0x400000, id 0, null) and the SETTINGS ACK on
    stream 0, in this order, and the next message id of ROOT and of REPLY
    is 1. *)
Theorem perform_writes (socket : Socket) :
  let completed :=
    (Ok (), Handshake.mk (after_writes handshake_frames socket)
                         {[ Http2Constants.ROOT_CHANNEL := 1;
                            Http2Constants.REPLY_CHANNEL := 1 ]}) in
  (accepts 9 socket -> perform (Handshake.new socket) = completed)
  ∧ (fst (perform (Handshake.new socket)) = Ok () ->
     perform (Handshake.new socket) = completed).
Proof.
  split; [apply perform_ok|].
  intros Hok. by apply perform_ok, perform_completes_only_if.
Qed.

Lemma perform_writes_witness :
  perform (Handshake.new healthy)
  = (Ok (), Handshake.mk (mkSocket handshake_frames 9 (fun _ => false))
                         {[ Http2Constants.ROOT_CHANNEL := 1;
                            Http2Constants.REPLY_CHANNEL := 1 ]}).
Proof.
  destruct (perform_writes healthy) as [Hcompletes _].
  apply Hcompletes. intros k _. reflexivity.
Defined.

Lemma after_handshake_eq :
  after_handshake
  = Handshake.mk (mkSocket handshake_frames 9 (fun _ => false))
                 {[ Http2Constants.ROOT_CHANNEL := 1; Http2Constants.REPLY_CHANNEL := 1 ]}.
Proof. reflexivity. Qed.

(** C5, as the code has it.  A call of [sendRequest] on an instance whose
    ROOT channel has next message id [id] sends one DATA frame on stream 1
    whose XPC message has flags ALWAYS_SET, id [id] and the caller's body,
    and leaves the next message id as it was; so a second call carries the
    same id. *)
Theorem sendRequest_keeps_message_id (data1 data2 : XpcObject) (h : Handshake.t) (id : Z) :
  nextMessageId h !! Http2Constants.ROOT_CHANNEL = Some id ->
  accepts 2 (_socket h) ->
  let h1 := snd (sendRequest data1 h) in
  let h2 := snd (sendRequest data2 h1) in
  fst (sendRequest data1 h) = Ok ()
  ∧ fst (sendRequest data2 h1) = Ok ()
  ∧ written (_socket h1) = written (_socket h) ++ [request_frame id data1]
  ∧ written (_socket h2)
    = written (_socket h) ++ [request_frame id data1; request_frame id data2]
  ∧ nextMessageId h1 = nextMessageId h
  ∧ nextMessageId h2 = nextMessageId h.
Proof.
  intros Hid Hok. cbn zeta.
  rewrite (sendRequest_ok data1 h id) by (done || by eapply accepts_le, Hok; lia).
  cbn [fst snd].
  rewrite (sendRequest_ok data2 _ id)
    by (done || (cbn [_socket]; apply accepts_after; by eapply accepts_le, Hok; cbn; lia)).
  cbn [fst snd _socket nextMessageId]. rewrite after_writes_app.
  cbn. repeat split.
Qed.

Lemma sendRequest_keeps_message_id_witness :
  written (_socket (snd (sendRequest XNull (snd (sendRequest (XDict []) after_handshake)))))
  = handshake_frames ++ [request_frame 1 (XDict []); request_frame 1 XNull].
Proof.
  rewrite after_handshake_eq.
  apply (sendRequest_keeps_message_id (XDict []) XNull
           (Handshake.mk (mkSocket handshake_frames 9 (fun _ => false))
                         {[ Http2Constants.ROOT_CHANNEL := 1;
                            Http2Constants.REPLY_CHANNEL := 1 ]}) 1).
  - reflexivity.
  - intros k _. reflexivity.
Defined.

(** C5, as the specification has it: after the handshake, two requests in
    a row both carry id 1, and the next message id of ROOT is still 1 after
    the first of them, not 2. *)
Lemma sendRequest_does_not_increment :
  let h1 := snd (sendRequest (XDict []) after_handshake) in
  let h2 := snd (sendRequest (XDict []) h1) in
  data_ids (drop 9 (written (_socket h2))) = [1; 1]
  ∧ nextMessageId after_handshake !! Http2Constants.ROOT_CHANNEL = Some 1
  ∧ nextMessageId h1 !! Http2Constants.ROOT_CHANNEL = Some 1
  ∧ nextMessageId h1 !! Http2Constants.ROOT_CHANNEL ≠ Some (1 + 1).
Proof. vm_compute. repeat split; congruence. Qed.

(** *** The handshake on any instance and on a failing socket *)

Import Traffic.

Lemma sendRequest_cases (data : XpcObject) (h : Handshake.t) (id : Z) :
  nextMessageId h !! Http2Constants.ROOT_CHANNEL = Some id ->
  sendRequest data h = sendFrame (request_frame id data) h.
Proof. intros Hid. unfold sendRequest. by rewrite Hid. Qed.

Lemma increment_cases {A} (channel : Z) (k : () -> M A) (h : Handshake.t) :
  (increment channel ≫= k) h
  = k () (Handshake.mk (_socket h) (alter Z.succ channel (nextMessageId h))).
Proof. reflexivity. Qed.

Ltac next_write Hacc Hfail k :=
  unfold next_write_fails;
  cbn [_socket calls after_writes length nextMessageId written fails];
  first
    [ rewrite Hacc by lia
    | match goal with
      | |- context [fails ?s ?n] =>
          match type of Hfail with
          | fails _ ?m = true => replace n with m by lia; rewrite Hfail
          end
      end ];
  cbv iota beta.

Ltac perform_steps id Hid Hacc Hfail k :=
  unfold perform;
  rewrite bind_cases, writeMagic_cases; next_write Hacc Hfail k;
  do 3 (try (rewrite bind_cases, sendFrame_cases; next_write Hacc Hfail k));
  try (rewrite bind_cases; rewrite (sendRequest_cases _ _ id) by exact Hid;
       rewrite sendFrame_cases; next_write Hacc Hfail k);
  try (rewrite bind_cases, sendFrame_cases; next_write Hacc Hfail k);
  try (rewrite increment_cases; cbn [_socket nextMessageId]);
  do 2 (try (rewrite bind_cases, sendFrame_cases; next_write Hacc Hfail k));
  try (rewrite increment_cases; cbn [_socket nextMessageId]);
  try (rewrite sendFrame_cases; next_write Hacc Hfail k).

Ltac perform_done :=
  cbn [fst snd _socket written calls nextMessageId after_writes];
  split; [reflexivity|];
  split; [rewrite <- ?app_assoc; cbn [take perform_frames app]; by rewrite ?app_nil_r|];
  split; [cbn [length]; lia|];
  unfold ids_after; repeat case_bool_decide; try lia; reflexivity.

(** X21.  On an instance whose ROOT channel has a next message id, when the
    first [k] writes go through (k < 9) and the next one reports an error,
    [perform] rejects after exactly [k + 1] calls of [write]: with the error
    of the write when it was the preface, with the error of [sendFrame]
    otherwise.  The socket has received the first [k] buffers of the
    handshake and nothing else; the message id of ROOT was incremented only
    if the sixth buffer went out, that of REPLY only if the eighth did. *)
Theorem perform_stops_at_first_failed_write (h : Handshake.t) (id : Z) (k : nat) :
  nextMessageId h !! Http2Constants.ROOT_CHANNEL = Some id ->
  (k < 9)%nat ->
  accepts k (_socket h) ->
  fails (_socket h) (calls (_socket h) + k) = true ->
  let h' := snd (perform h) in
  fst (perform h) = Err (write_error k)
  ∧ written (_socket h') = written (_socket h) ++ take k (perform_frames id)
  ∧ calls (_socket h') = (calls (_socket h) + k + 1)%nat
  ∧ nextMessageId h' = ids_after k (nextMessageId h).
Proof.
  intros Hid Hk Hacc Hfail. unfold accepts in Hacc.
  do 9 (destruct k as [|k]; [perform_steps id Hid Hacc Hfail 0%nat; perform_done|]).
  lia.
Qed.

Lemma perform_stops_at_first_failed_write_witness :
  fst (perform (Handshake.new (fails_at 4))) = Err SendFrameError
  ∧ written (_socket (snd (perform (Handshake.new (fails_at 4)))))
    = take 4 handshake_frames.
Proof.
  destruct (perform_stops_at_first_failed_write (Handshake.new (fails_at 4)) 0 4)
    as (Herr & Hwritten & _); [reflexivity|lia| |reflexivity|].
  - intros n Hn. cbn in *. apply bool_decide_false. lia.
  - split; [exact Herr|exact Hwritten].
Defined.

(** X22.  On any instance whose ROOT channel has next message id [id] and
    whose socket takes nine writes, [perform] completes: it writes the nine
    buffers with [id] in the first DATA frame and the literal 0 in the two
    others, and increments both channels.  A second [perform] on the same
    instance therefore sends the ids 1, 0, 0. *)
Theorem perform_on_any_instance (h : Handshake.t) (id : Z) :
  nextMessageId h !! Http2Constants.ROOT_CHANNEL = Some id ->
  accepts 9 (_socket h) ->
  perform h
  = (Ok (), Handshake.mk (after_writes (perform_frames id) (_socket h))
                         (ids_after 9 (nextMessageId h)))
  ∧ data_ids (perform_frames id) = [id; 0; 0]
  ∧ nextMessageId (snd (perform h)) !! Http2Constants.ROOT_CHANNEL = Some (id + 1).
Proof.
  intros Hid Hacc. unfold accepts in Hacc.
  assert (Hrun : perform h
                 = (Ok (), Handshake.mk (after_writes (perform_frames id) (_socket h))
                                        (ids_after 9 (nextMessageId h)))).
  { perform_steps id Hid Hacc Hid 9%nat.
    unfold after_writes. cbn [written calls fails length perform_frames].
    rewrite <- !app_assoc. cbn [app].
    replace (calls (_socket h) + 1 + 1 + 1 + 1 + 1 + 1 + 1 + 1 + 1)%nat
      with (calls (_socket h) + 9)%nat by lia.
    reflexivity. }
  split; [exact Hrun|]. split; [reflexivity|].
  rewrite Hrun. cbn [snd nextMessageId]. unfold ids_after.
  rewrite !bool_decide_true by lia.
  rewrite lookup_alter_ne by done. rewrite lookup_alter_eq, Hid. reflexivity.
Qed.

Lemma perform_on_any_instance_witness :
  data_ids (written (_socket (snd (perform after_handshake)))) = [0; 0; 0; 1; 0; 0]
  ∧ nextMessageId (snd (perform after_handshake)) !! Http2Constants.ROOT_CHANNEL = Some 2.
Proof.
  destruct (perform_on_any_instance after_handshake 1) as (Hrun & _ & Hid);
    [reflexivity|by intros n _|].
  split; [|exact Hid]. rewrite Hrun. reflexivity.
Defined.

(** ** The lockdown TLS upgrade *)

Import Lockdown Pairing.

Lemma getPairRecord_spec (peer : Peer) (s : Lockdown.t) (record : PairRecord.t) :
  readPairRecord peer (_udid s) = Ok (Some record) ->
  getPairRecord peer s
  = if has_identity record then Ok record else Err MissingCertificateOrKey.
Proof.
  intros Hread. unfold getPairRecord, has_identity. rewrite Hread.
  by destruct (truthy_field _), (truthy_field _).
Qed.

(** C8, as the code has it.  For a pair record that lacks any of
    HostCertificate, HostPrivateKey, HostID and SystemBUID no TLS upgrade is
    made and nothing is sent: the service is left as it was, so [_isTLS]
    stays false and the next [sendAndReceive] goes over the plain service.
    [tryUpgradeToTLS] returns normally when the record has the certificate
    and the key (and lacks HostID or SystemBUID); when the certificate or the
    key is missing, [getPairRecord] throws and [tryUpgradeToTLS] rejects with
    its error. *)
Theorem tryUpgradeToTLS_incomplete_record
    (peer : Peer) (s : Lockdown.t) (record : PairRecord.t) :
  readPairRecord peer (_udid s) = Ok (Some record) ->
  complete record = false ->
  _isTLS s = false ->
  tryUpgradeToTLS peer s
  = (if has_identity record then Ok () else Err MissingCertificateOrKey, s)
  ∧ _isTLS (snd (tryUpgradeToTLS peer s)) = false
  ∧ forall msg,
      sent (snd (sendAndReceive peer msg (snd (tryUpgradeToTLS peer s))))
      = sent s ++ [(Plain, msg)].
Proof.
  intros Hread Hincomplete Hplain.
  assert (Hrun : tryUpgradeToTLS peer s
                 = (if has_identity record then Ok () else Err MissingCertificateOrKey, s)).
  { unfold tryUpgradeToTLS. rewrite (getPairRecord_spec peer s record Hread).
    unfold complete, has_identity in *.
    destruct (truthy_field (PairRecord.HostCertificate record)) eqn:Hcert,
             (truthy_field (PairRecord.HostPrivateKey record)) eqn:Hkey;
      cbn [andb]; try reflexivity.
    rewrite Hcert, Hkey.
    destruct (truthy_field (PairRecord.HostID record)),
             (truthy_field (PairRecord.SystemBUID record));
      try discriminate; reflexivity. }
  rewrite Hrun. cbn [snd]. split; [done|]. split; [done|].
  intros msg. unfold sendAndReceive, active_transport. rewrite Hplain. reflexivity.
Qed.

Lemma tryUpgradeToTLS_incomplete_record_witness :
  tryUpgradeToTLS (peer_with without_host_id) (Lockdown.new "udid")
  = (Ok (), Lockdown.new "udid").
Proof.
  apply (tryUpgradeToTLS_incomplete_record
           (peer_with without_host_id) (Lockdown.new "udid") without_host_id);
    reflexivity.
Defined.

(** C8, as the specification has it: with a pair record that only lacks
    HostCertificate, [tryUpgradeToTLS] does not return normally. *)
Lemma tryUpgradeToTLS_rejects_without_certificate :
  fst (tryUpgradeToTLS (peer_with without_certificate) (Lockdown.new "udid"))
  = Err MissingCertificateOrKey
  ∧ is_ok (fst (tryUpgradeToTLS (peer_with without_certificate) (Lockdown.new "udid")))
    = false.
Proof. split; reflexivity. Qed.

(** *** More on the lockdown TLS upgrade *)

Import Upgrade.

(** [tryUpgradeToTLS] by cases on everything it awaits. *)
Lemma tryUpgradeToTLS_cases (peer : Peer) (s : Lockdown.t) :
  tryUpgradeToTLS peer s
  = match readPairRecord peer (_udid s) with
    | Err e => (Err e, s)
    | Ok None => (Err MissingCertificateOrKey, s)
    | Ok (Some record) =>
        if negb (has_identity record) then (Err MissingCertificateOrKey, s)
        else if negb (complete record) then (Ok (), s)
        else
          let s1 := Lockdown.mk (_udid s) (_plistAfterTLS s) (_isTLS s)
                      (sent s ++ [(active_transport s, session_request_of record)]) in
          match answer peer (active_transport s) (session_request_of record) with
          | Err e => (Err e, s1)
          | Ok res =>
              if negb (strict_eq_string (res !! "Request") "StartSession"
                       && truthy_opt (res !! "SessionID"))
              then (Err (UnexpectedSessionData res), s1)
              else if negb (truthy_opt (res !! "EnableSessionSSL")) then (Ok (), s1)
              else if tlsHandshake peer
              then (Ok (),
                    Lockdown.mk (_udid s)
                      (Some (default "" (PairRecord.HostCertificate record),
                             default "" (PairRecord.HostPrivateKey record)))
                      true (sent s1))
              else (Err TLSFailed, s1)
          end
    end.
Proof.
  unfold tryUpgradeToTLS, getPairRecord.
  destruct (readPairRecord peer (_udid s)) as [[record|]|e]; [|done|done].
  unfold has_identity, complete, has_identity.
  destruct (truthy_field (PairRecord.HostCertificate record)) eqn:Hcert; [|done].
  destruct (truthy_field (PairRecord.HostPrivateKey record)) eqn:Hkey; [|done].
  cbn [negb orb andb]. rewrite Hcert, Hkey. cbn [negb orb andb].
  destruct (truthy_field (PairRecord.HostID record)); [|done].
  destruct (truthy_field (PairRecord.SystemBUID record)); [|done].
  cbn [negb orb andb].
  unfold startSession, sendAndReceive, session_request_of, session_request, upgradeSocketToTLS.
  destruct (answer peer _ _) as [res|e]; [|done].
  destruct (strict_eq_string (res !! "Request") "StartSession" && truthy_opt (res !! "SessionID"));
    [|done].
  cbn [negb enableSessionSSL].
  destruct (truthy_opt (res !! "EnableSessionSSL")); [|done].
  cbn [negb]. by destruct (tlsHandshake peer).
Qed.

(** X23.  On a service that is not on TLS, [tryUpgradeToTLS] switches to TLS
    exactly when the pair record has all of HostCertificate, HostPrivateKey,
    HostID and SystemBUID, the device answers the StartSession request with
    a StartSession reply that has a session id and a truthy
    EnableSessionSSL, and the TLS handshake succeeds.  It then returns
    normally, the TLS service uses the certificate and the key of the
    record, later messages go over TLS, and the only message sent was the
    StartSession request, over the plain service. *)
Theorem tryUpgradeToTLS_upgrades_iff (peer : Peer) (s : Lockdown.t) :
  _isTLS s = false ->
  let s' := snd (tryUpgradeToTLS peer s) in
  (_isTLS s' = true <-> upgradable peer s)
  ∧ (_isTLS s' = true ->
     fst (tryUpgradeToTLS peer s) = Ok ()
     ∧ active_transport s' = TLS
     ∧ exists record,
         readPairRecord peer (_udid s) = Ok (Some record)
         ∧ _plistAfterTLS s'
           = Some (default "" (PairRecord.HostCertificate record),
                   default "" (PairRecord.HostPrivateKey record))
         ∧ sent s' = sent s ++ [(Plain, session_request_of record)]).
Proof.
  intros Hplain s'. subst s'. rewrite tryUpgradeToTLS_cases.
  assert (Hvia : active_transport s = Plain).
  { unfold active_transport. by rewrite Hplain. }
  unfold upgradable, asks_for_tls. rewrite Hvia.
  destruct (readPairRecord peer (_udid s)) as [[record|]|e] eqn:Hread; cbn [fst snd].
  - assert (Hidentity : complete record = true -> has_identity record = true).
    { unfold complete. by intros [[? _]%andb_prop _]%andb_prop. }
    destruct (has_identity record) eqn:Hid; cbn [negb fst snd].
    + destruct (complete record) eqn:Hcomplete; cbn [negb fst snd].
      * destruct (answer peer Plain (session_request_of record)) as [res|e] eqn:Hanswer;
          cbn [fst snd _isTLS].
        -- destruct (strict_eq_string (res !! "Request") "StartSession"
                     && truthy_opt (res !! "SessionID")) eqn:Hsession;
             cbn [negb fst snd _isTLS].
           ++ destruct (truthy_opt (res !! "EnableSessionSSL")) eqn:Hssl;
                cbn [negb fst snd _isTLS].
              ** destruct (tlsHandshake peer) eqn:Htls; cbn [fst snd _isTLS].
                 --- split.
                     +++ split; [|done]. intros _. exists record, res.
                         by rewrite Hsession.
                     +++ intros _. split; [done|]. split; [done|].
                         exists record. done.
                 --- rewrite Hplain. split; [|done]. split; [done|].
                     intros (record' & res' & Hr & _ & Ha & _ & Ht).
                     congruence.
              ** rewrite Hplain. split; [|done]. split; [done|].
                 intros (record' & res' & Hr & _ & Ha & Hasks & _).
                 injection Hr as <-. rewrite Hanswer in Ha. injection Ha as <-.
                 rewrite Hssl, andb_false_r in Hasks. done.
           ++ rewrite Hplain. split; [|done]. split; [done|].
              intros (record' & res' & Hr & _ & Ha & Hasks & _).
              injection Hr as <-. rewrite Hanswer in Ha. injection Ha as <-.
              rewrite Hsession in Hasks. done.
        -- rewrite Hplain. split; [|done]. split; [done|].
           intros (record' & res' & Hr & _ & Ha & _).
           injection Hr as <-. rewrite Hanswer in Ha. done.
      * rewrite Hplain. split; [|done]. split; [done|].
        intros (record' & res' & Hr & Hc & _). injection Hr as <-. congruence.
    + rewrite Hplain. split; [|done]. split; [done|].
      intros (record' & res' & Hr & Hc & _). injection Hr as <-.
      apply Hidentity in Hc. congruence.
  - rewrite Hplain. split; [|done]. split; [done|].
    intros (record' & res' & Hr & _). done.
  - rewrite Hplain. split; [|done]. split; [done|].
    intros (record' & res' & Hr & _). done.
Qed.

Lemma tryUpgradeToTLS_upgrades_iff_witness :
  _isTLS (snd (tryUpgradeToTLS (peer_with complete_record) (Lockdown.new "udid"))) = true.
Proof.
  destruct (tryUpgradeToTLS_upgrades_iff (peer_with complete_record) (Lockdown.new "udid"))
    as [[_ Hupgrade] _]; [reflexivity|].
  apply Hupgrade. eexists complete_record, _. repeat split.
Defined.

(** What every run of [tryUpgradeToTLS] keeps. *)
Lemma tryUpgradeToTLS_frame (peer : Peer) (s : Lockdown.t) :
  let s' := snd (tryUpgradeToTLS peer s) in
  _udid s' = _udid s
  ∧ (sent s' = sent s
     ∨ exists record,
         readPairRecord peer (_udid s) = Ok (Some record)
         ∧ complete record = true
         ∧ sent s' = sent s ++ [(active_transport s, session_request_of record)])
  ∧ forall e, fst (tryUpgradeToTLS peer s) = Err e ->
              _isTLS s' = _isTLS s ∧ _plistAfterTLS s' = _plistAfterTLS s.
Proof.
  cbv zeta. rewrite tryUpgradeToTLS_cases.
  destruct (readPairRecord peer (_udid s)) as [[record|]|e] eqn:Hread; cbn [fst snd];
    [|by auto|by auto].
  destruct (has_identity record); cbn [negb fst snd]; [|by auto].
  destruct (complete record) eqn:Hcomplete; cbn [negb fst snd]; [|by auto].
  assert (Hsent : forall s1 : Lockdown.t,
             sent s1 = sent s ++ [(active_transport s, session_request_of record)] ->
             sent s1 = sent s
             ∨ exists record0,
                 @Ok LockdownError _ (Some record) = Ok (Some record0)
                 ∧ complete record0 = true
                 ∧ sent s1 = sent s ++ [(active_transport s, session_request_of record0)]).
  { intros s1 Hs1. right. by exists record. }
  destruct (answer peer _ _) as [res|e]; cbn [fst snd]; [|split; [done|split; [by apply Hsent|done]]].
  destruct (strict_eq_string _ _ && _); cbn [negb fst snd];
    [|split; [done|split; [by apply Hsent|done]]].
  destruct (truthy_opt (res !! "EnableSessionSSL")); cbn [negb fst snd];
    [|split; [done|split; [by apply Hsent|done]]].
  destruct (tlsHandshake peer); cbn [fst snd];
    split; try done; split; try (by apply Hsent); done.
Qed.

(** X24.  [tryUpgradeToTLS] keeps the UDID and sends nothing, or exactly one
    message: the StartSession request with the HostID and the SystemBUID of
    a complete pair record, over the transport in use before.  When it
    rejects, [_isTLS] and the TLS service are as they were. *)
Theorem tryUpgradeToTLS_sends_at_most_one_request (peer : Peer) (s : Lockdown.t) :
  let s' := snd (tryUpgradeToTLS peer s) in
  _udid s' = _udid s
  ∧ (sent s' = sent s
     ∨ exists record,
         readPairRecord peer (_udid s) = Ok (Some record)
         ∧ complete record = true
         ∧ sent s' = sent s ++ [(active_transport s, session_request_of record)])
  ∧ forall e, fst (tryUpgradeToTLS peer s) = Err e ->
              _isTLS s' = _isTLS s ∧ _plistAfterTLS s' = _plistAfterTLS s.
Proof. apply tryUpgradeToTLS_frame. Qed.

(** *** Creating a lockdown service for a device *)

Import Factory.

Lemma find_first {A} (P : A -> bool) (l : list A) (x : A) :
  find P l = Some x ->
  exists before after,
    l = before ++ x :: after ∧ P x = true ∧ Forall (fun y => P y = false) before.
Proof.
  induction l as [|y l IH]; [done|]. cbn.
  destruct (P y) eqn:Hy.
  - intros [= ->]. exists [], l. by repeat split.
  - intros (before & after & -> & Hx & Hbefore)%IH.
    exists (y :: before), after. repeat split; [done|]. by constructor.
Qed.

Lemma existsb_find {A} (P : A -> bool) (l : list A) :
  existsb P l = true -> is_Some (find P l).
Proof.
  induction l as [|y l IH]; [done|]. cbn.
  destruct (P y); [by eauto|]. apply IH.
Qed.

(** X25.  [createLockdownServiceByUDID] never throws its last error, that
    the UDID was not found: the [some] check before it tests what the [find]
    looks for.  When it returns, the device is the first of the listed
    devices whose serial number is the UDID, the relay to the id of that
    device connected, and the service is for that UDID. *)
Theorem createLockdownServiceByUDID_selects_first_match
    (w : World) (udid : string) (port : Z) (autoSecure : bool) :
  (forall udid', createLockdownServiceByUDID w udid port autoSecure ≠ Err (UDIDNotFound udid'))
  ∧ forall service device,
      createLockdownServiceByUDID w udid port autoSecure = Ok (service, device) ->
      exists before after,
        listDevices w = Some (before ++ device :: after)
        ∧ SerialNumber device = udid
        ∧ Forall (fun d => SerialNumber d ≠ udid) before
        ∧ connectAndRelay w (DeviceID device) port = true
        ∧ _udid service = udid.
Proof.
  unfold createLockdownServiceByUDID.
  destruct (listDevices w) as [devices|]; [|by split].
  case_bool_decide as Hlen; [by split|].
  destruct (existsb _ devices) eqn:Hsome; cbn [negb]; [|by split].
  destruct (existsb_find _ _ Hsome) as [device Hfind]. cbv zeta. rewrite Hfind.
  apply find_first in Hfind as (before & after & -> & Hserial%bool_decide_eq_true & Hbefore).
  destruct (connectAndRelay w (DeviceID device) port) eqn:Hrelay; [|by split].
  split; [done|]. intros service device' [= <- <-].
  exists before, after. split; [done|]. split; [done|].
  split.
  { eapply Forall_impl; [exact Hbefore|]. intros d Hd. cbn in Hd.
    by apply bool_decide_eq_false in Hd. }
  split; [done|].
  unfold constructor. destruct autoSecure; [|done].
  by destruct (tryUpgradeToTLS_frame (peer w) (Lockdown.new udid)) as [-> _].
Qed.

Lemma createLockdownServiceByUDID_selects_first_match_witness :
  snd <$> (match createLockdownServiceByUDID world_failing_tls "udid" 62078 true with
           | Ok r => Some r
           | Err _ => None
           end) = Some (mkDevice 7 "udid").
Proof.
  destruct (createLockdownServiceByUDID_selects_first_match world_failing_tls "udid" 62078 true)
    as [_ Hfirst].
  destruct (createLockdownServiceByUDID world_failing_tls "udid" 62078 true)
    as [[service device]|e] eqn:Hrun; [|by vm_compute in Hrun].
  destruct (Hfirst service device eq_refl) as (before & after & Hlist & Hserial & Hbefore & _).
  cbn. f_equal. cbn in Hlist. injection Hlist as Hlist.
  destruct before as [|d1 before]; cbn in Hlist.
  - injection Hlist as <- _. apply Forall_nil in Hbefore. by vm_compute in Hserial.
  - injection Hlist as <- Hlist. destruct before as [|d2 before]; cbn in Hlist.
    + by injection Hlist as <- _.
    + injection Hlist as <- _. apply Forall_cons in Hbefore as [_ Hbefore].
      apply Forall_cons in Hbefore as [Hne _]. done.
Defined.

(** X26.  When the device list holds a device with the UDID and the relay
    connects, [createLockdownServiceByUDID] returns a service whatever the
    TLS upgrade does.  Without [autoSecure] the service is a new one; when
    the upgrade rejects, the error is only logged and the service comes back
    on the plain transport. *)
Theorem createLockdownServiceByUDID_survives_failed_upgrade
    (w : World) (udid : string) (port : Z) (autoSecure : bool) (devices : list Device) :
  listDevices w = Some devices ->
  (exists d, d ∈ devices ∧ SerialNumber d = udid) ->
  (forall d, d ∈ devices -> connectAndRelay w (DeviceID d) port = true) ->
  exists service device,
    createLockdownServiceByUDID w udid port autoSecure = Ok (service, device)
    ∧ (autoSecure = false -> service = Lockdown.new udid)
    ∧ forall e, fst (tryUpgradeToTLS (peer w) (Lockdown.new udid)) = Err e ->
                _isTLS service = false ∧ active_transport service = Plain.
Proof.
  intros Hlist (d & Hd & Hserial) Hrelay.
  unfold createLockdownServiceByUDID. rewrite Hlist.
  rewrite bool_decide_false by (destruct devices; [by apply elem_of_nil in Hd|done]).
  assert (Hsome : existsb (fun d => bool_decide (SerialNumber d = udid)) devices = true).
  { apply existsb_exists. exists d. split; [by apply list_elem_of_In|].
    by apply bool_decide_eq_true. }
  rewrite Hsome. cbn [negb]. cbv zeta.
  destruct (existsb_find _ _ Hsome) as [device Hfind]. rewrite Hfind.
  apply find_first in Hfind as (before & after & -> & _).
  rewrite Hrelay by (apply elem_of_app; right; apply elem_of_cons; by left).
  eexists _, device. split; [done|].
  unfold constructor. split; [by intros ->|].
  intros e Herr. destruct autoSecure; [|done].
  destruct (tryUpgradeToTLS_frame (peer w) (Lockdown.new udid)) as (_ & _ & Hkeeps).
  destruct (Hkeeps e Herr) as [HisTLS _].
  unfold active_transport. by rewrite HisTLS.
Qed.

Lemma createLockdownServiceByUDID_survives_failed_upgrade_witness :
  is_ok (createLockdownServiceByUDID world_failing_tls "udid" 62078 true) = true.
Proof.
  destruct (createLockdownServiceByUDID_survives_failed_upgrade
              world_failing_tls "udid" 62078 true twin_devices)
    as (service & device & -> & _); [reflexivity| |by intros d _|reflexivity].
  exists (mkDevice 7 "udid"). split; [|done].
  apply elem_of_cons. right. apply elem_of_cons. by left.
Defined.

(** ** The usbmux client *)

Import Usbmux Waiters.

Lemma byteSwap16_lockdown_port : byteSwap16 62078 = 0x7EF2.
Proof. reflexivity. Qed.

(** On a port number [byteSwap16] exchanges the two bytes. *)
Lemma byteSwap16_swaps (port : Z) :
  0 <= port < 65536 -> byteSwap16 port = (port `mod` 256) * 256 + port `div` 256.
Proof.
  intros Hport. unfold byteSwap16.
  change 0xff with (Z.ones 8). change 256 with (2 ^ 8).
  assert (Hhi : 0 <= port `div` 2 ^ 8 < 2 ^ 8).
  { split; [apply Z.div_pos|apply Z.div_lt_upper_bound]; lia. }
  rewrite !Z.land_ones, Z.shiftl_mul_pow2, Z.shiftr_div_pow2 by lia.
  rewrite (Z.mod_small (port `div` 2 ^ 8)) by done.
  symmetry. apply Z.add_nocarry_lor.
  apply Z.bits_inj'. intros i Hi. rewrite Z.land_spec, Z.bits_0.
  destruct (decide (i < 8)) as [Hlt|Hge].
  - rewrite Z.mul_pow2_bits_low by lia. reflexivity.
  - assert (Hhigh : Z.testbit (port `div` 2 ^ 8) i = false).
    { destruct (decide (port `div` 2 ^ 8 = 0)) as [->|Hnz]; [apply Z.bits_0|].
      apply Z.bits_above_log2; [lia|].
      assert (Hlog : Z.log2 (port `div` 2 ^ 8) < 8) by (apply Z.log2_lt_pow2; lia).
      lia. }
    rewrite Hhigh. apply andb_false_r.
Qed.

Section UsbmuxFacts.

Variable parsePairRecord : BPlist.PlistValue -> option PairRecord.t.

#[local] Abbreviation responseCallback := (Usbmux.responseCallback parsePairRecord).
#[local] Abbreviation run_callback := (Usbmux.run_callback parsePairRecord).
#[local] Abbreviation _handleData := (Usbmux._handleData parsePairRecord).
#[local] Abbreviation step := (Usbmux.step parsePairRecord).
#[local] Abbreviation run := (Usbmux.run parsePairRecord).

(** A response callback touches the splitter and the pipes only. *)
Lemma responseCallback_frame (r : Request) (data : Data) (u : Usbmux.t) :
  let u' := fst (responseCallback r data u) in
  _tag u' = _tag u ∧ _responseCallbacks u' = _responseCallbacks u
  ∧ timers u' = timers u ∧ written u' = written u ∧ settlements u' = settlements u.
Proof.
  destruct r; cbn;
    repeat (match goal with
            | |- context [match ?x with _ => _ end] => destruct x
            end; cbn); done.
Qed.

Lemma run_callback_effect (tag : Z) (r : Request) (data : Data) (u : Usbmux.t) :
  let u' := run_callback tag r data u in
  _tag u' = _tag u
  ∧ _responseCallbacks u' = delete tag (_responseCallbacks u)
  ∧ written u' = written u
  ∧ settlements u' = settlements u ++ [(tag, snd (responseCallback r data (clearTimeout tag u)))].
Proof.
  unfold run_callback.
  pose proof (responseCallback_frame r data (clearTimeout tag u)) as Hframe.
  destruct (responseCallback r data (clearTimeout tag u)) as [u1 res].
  cbn in *. destruct Hframe as (-> & -> & _ & -> & ->). done.
Qed.

Lemma call_effect (r : Request) (timeout : Z) (u : Usbmux.t) :
  fst (call r timeout u) = _tag u
  ∧ _tag (snd (call r timeout u)) = _tag u + 1
  ∧ written (snd (call r timeout u)) = written u ++ [(_tag u, request_payload r)]
  ∧ _responseCallbacks (snd (call r timeout u)) = <[_tag u := r]> (_responseCallbacks u)
  ∧ settlements (snd (call r timeout u)) = settlements u.
Proof. done. Qed.

Lemma promise_state_settled (tag : Z) (u : Usbmux.t) :
  is_Some (promise_state tag u) <-> tag ∈ settled_tags u.
Proof.
  unfold promise_state, settled_tags. rewrite fmap_is_Some.
  induction (settlements u) as [|[t res] l IH]; cbn.
  - split; [by intros [? ?]|by intros ?%elem_of_nil].
  - case_bool_decide as Ht; cbn in Ht.
    + subst. split; [intros _; apply elem_of_cons; by left|by eauto].
    + rewrite IH, elem_of_cons. cbn. intuition congruence.
Qed.

(** Settling the promise of a registered waiter and deleting its entry
    keeps the invariant, whatever else changes outside the four fields. *)
Lemma invariant_settle (tag : Z) res (u u' : Usbmux.t) :
  invariant u ->
  is_Some (_responseCallbacks u !! tag) ->
  _tag u' = _tag u ->
  written u' = written u ->
  _responseCallbacks u' = delete tag (_responseCallbacks u) ->
  settlements u' = settlements u ++ [(tag, res)] ->
  invariant u'.
Proof.
  intros [Horder Hwait Honce Halloc] Hreg Htag Hwritten Hcbs Hsettled.
  destruct (Hwait tag Hreg) as [Hbound Hfresh].
  assert (Htags : settled_tags u' = settled_tags u ++ [tag]).
  { unfold settled_tags. by rewrite Hsettled, map_app. }
  split.
  - unfold sent_tags. by rewrite Htag, Hwritten.
  - intros tag' Hreg'. rewrite Hcbs in Hreg'.
    destruct (decide (tag' = tag)) as [->|Hne].
    + rewrite lookup_delete_eq in Hreg'. by destruct Hreg'.
    + rewrite lookup_delete_ne in Hreg' by done.
      destruct (Hwait tag' Hreg') as [Hb Hf].
      rewrite Htag, Htags. split; [done|].
      rewrite elem_of_app, list_elem_of_singleton. intros [Hin|Heq]; [by apply Hf|done].
  - rewrite Htags. apply NoDup_app. split; [done|].
    split; [|apply NoDup_singleton].
    intros x Hx ->%list_elem_of_singleton. done.
  - intros tag'. rewrite Htag, Htags, elem_of_app, list_elem_of_singleton.
    intros [Hin| ->]; [by apply Halloc|lia].
Qed.

(** Deleting an entry keeps the invariant. *)
Lemma invariant_delete (tag : Z) (u u' : Usbmux.t) :
  invariant u ->
  _tag u' = _tag u ->
  written u' = written u ->
  _responseCallbacks u' = delete tag (_responseCallbacks u) ->
  settlements u' = settlements u ->
  invariant u'.
Proof.
  intros [Horder Hwait Honce Halloc] Htag Hwritten Hcbs Hsettled.
  assert (Htags : settled_tags u' = settled_tags u).
  { unfold settled_tags. by rewrite Hsettled. }
  split.
  - unfold sent_tags. by rewrite Htag, Hwritten.
  - intros tag' Hreg'. rewrite Hcbs in Hreg'.
    destruct (decide (tag' = tag)) as [->|Hne].
    + rewrite lookup_delete_eq in Hreg'. by destruct Hreg'.
    + rewrite lookup_delete_ne in Hreg' by done.
      rewrite Htag, Htags. by apply Hwait.
  - by rewrite Htags.
  - intros tag'. rewrite Htag, Htags. apply Halloc.
Qed.

Lemma invariant_new : invariant Usbmux.new.
Proof.
  split; cbn.
  - done.
  - intros tag Hreg. rewrite lookup_empty in Hreg. by destruct Hreg.
  - apply NoDup_nil_2.
  - intros tag ?%elem_of_nil. done.
Qed.

Lemma invariant_call (r : Request) (timeout : Z) (u : Usbmux.t) :
  invariant u -> invariant (snd (call r timeout u)).
Proof.
  intros [[Hpos Horder] Hwait Honce Halloc].
  destruct (call_effect r timeout u) as (_ & Htag & Hwritten & Hcbs & Hsettled).
  assert (Htags : settled_tags (snd (call r timeout u)) = settled_tags u).
  { unfold settled_tags. by rewrite Hsettled. }
  split.
  - rewrite Htag. split; [lia|].
    unfold sent_tags in *. rewrite Hwritten, map_app, Horder.
    rewrite seqZ_app by lia. reflexivity.
  - intros tag Hreg. rewrite Hcbs in Hreg. rewrite Htag, Htags.
    destruct (decide (tag = _tag u)) as [->|Hne].
    + split; [lia|]. intros Hin%Halloc. lia.
    + rewrite lookup_insert_ne in Hreg by done.
      destruct (Hwait tag Hreg). split; [lia|done].
  - by rewrite Htags.
  - intros tag. rewrite Htag, Htags. intros Hin%Halloc. lia.
Qed.

Lemma invariant_step (u : Usbmux.t) (ev : Event) :
  invariant u -> invariant (step u ev).
Proof.
  intros Hinv. destruct ev as [r timeout|data|tag|tag]; cbn [Usbmux.step].
  - by apply invariant_call.
  - unfold Usbmux._handleData.
    destruct (_responseCallbacks u !! header_tag data) as [cb|] eqn:Hcb; [|done].
    destruct (run_callback_effect (header_tag data) cb data u) as (Ht & Hc & Hw & Hs).
    eapply invariant_settle; eauto.
  - destruct (timers u !! tag) as [timeout|]; [|done].
    unfold on_timeout. cbn [_responseCallbacks clearTimeout].
    destruct (_responseCallbacks u !! tag) as [cb|] eqn:Hcb.
    + eapply invariant_settle with (tag := tag); eauto; done.
    + eapply invariant_delete with (tag := tag); eauto; try done.
      cbn. by rewrite delete_id.
  - destruct (promise_state tag u); [|done].
    unfold on_settled. destruct (_responseCallbacks u !! tag) eqn:Hcb; [|done].
    eapply invariant_delete with (tag := tag); eauto; done.
Qed.

Lemma invariant_run (evs : list Event) : invariant (run evs).
Proof.
  unfold Usbmux.run.
  assert (Hgen : forall u, invariant u -> invariant (foldl step u evs)).
  { induction evs as [|ev evs IH]; intros u Hu; [done|].
    cbn. apply IH. by apply invariant_step. }
  apply Hgen, invariant_new.
Qed.

(** C10.  However the instance was driven: an operation ([readBUID],
    [readPairRecord], [listDevices] and [connect] are [call] at their
    request) takes the value of [_tag] as its tag and leaves [_tag] one
    higher; no waiter sits under that tag yet, and the operation registers
    its own waiter there.  So the requests sent so far carry the tags 0, 1,
    ... in order, without repetition, and every waiter in the map sits under
    the tag of a request that was sent and belongs to a promise that is not
    settled.  A waiter stays in the map until a response with its tag is
    handled, its timer fires, or the [finally] handler of its promise runs.
    A response whose tag has a waiter removes that waiter and settles its
    promise once, with what the response callback returns or throws; a
    response whose tag has none changes nothing.  A timer that fires for a
    waiter removes it and rejects its promise once, with the timeout error.
    The entry of a tag is gone from the map once its callback has run on a
    response, once its timer has fired, and once the [finally] handler of
    its settled promise has run; no promise has had [resolve] or [reject]
    called on it more than once, and no settled tag has an entry in the
    map. *)
Theorem waiters_tagged_and_settled_once (evs : list Event) :
  let u := run evs in
  (forall r timeout,
      fst (call r timeout u) = _tag u
      ∧ _tag (snd (call r timeout u)) = _tag u + 1
      ∧ written (snd (call r timeout u)) = written u ++ [(_tag u, request_payload r)]
      ∧ _responseCallbacks u !! _tag u = None
      ∧ _responseCallbacks (snd (call r timeout u)) = <[_tag u := r]> (_responseCallbacks u)
      ∧ settlements (snd (call r timeout u)) = settlements u)
  ∧ sent_tags u = seqZ 0 (_tag u)
  ∧ NoDup (sent_tags u)
  ∧ (forall tag, is_Some (_responseCallbacks u !! tag) ->
                 tag ∈ sent_tags u ∧ promise_state tag u = None)
  ∧ (forall ev tag r,
        _responseCallbacks u !! tag = Some r ->
        _responseCallbacks (step u ev) !! tag = Some r
        ∨ (exists data, ev = Receive data ∧ header_tag data = tag)
        ∨ ev = TimerFires tag ∨ ev = Settled tag)
  ∧ (forall data, _responseCallbacks (step u (Receive data)) !! header_tag data = None)
  ∧ (forall data r,
        _responseCallbacks u !! header_tag data = Some r ->
        _responseCallbacks (step u (Receive data))
        = delete (header_tag data) (_responseCallbacks u)
        ∧ settlements (step u (Receive data))
          = settlements u
            ++ [(header_tag data,
                 snd (responseCallback r data (clearTimeout (header_tag data) u)))])
  ∧ (forall data, _responseCallbacks u !! header_tag data = None ->
                  step u (Receive data) = u)
  ∧ (forall tag, is_Some (timers u !! tag) ->
                 _responseCallbacks (step u (TimerFires tag)) !! tag = None)
  ∧ (forall tag timeout r,
        timers u !! tag = Some timeout -> _responseCallbacks u !! tag = Some r ->
        _responseCallbacks (step u (TimerFires tag)) = delete tag (_responseCallbacks u)
        ∧ settlements (step u (TimerFires tag))
          = settlements u ++ [(tag, Err (ReceiveTimeout timeout))])
  ∧ (forall tag, is_Some (promise_state tag u) ->
                 _responseCallbacks (step u (Settled tag)) !! tag = None)
  ∧ NoDup (settled_tags u)
  ∧ (forall tag, is_Some (promise_state tag u) -> _responseCallbacks u !! tag = None).
Proof.
  intros u. destruct (invariant_run evs) as [[Hpos Horder] Hwait Honce Halloc].
  fold u in Hpos, Horder, Hwait, Honce, Halloc.
  assert (Hnone : forall tag, is_Some (promise_state tag u) ->
                              _responseCallbacks u !! tag = None).
  { intros tag Hsettled%promise_state_settled.
    destruct (_responseCallbacks u !! tag) as [cb|] eqn:Hcb; [|done].
    destruct (Hwait tag) as [_ Hfresh]; [by rewrite Hcb|]. done. }
  assert (Hfresh : _responseCallbacks u !! _tag u = None).
  { destruct (_responseCallbacks u !! _tag u) as [cb|] eqn:Hcb; [|done].
    destruct (Hwait (_tag u)) as [Hbound _]; [by rewrite Hcb|]. lia. }
  split.
  { intros r timeout.
    destruct (call_effect r timeout u) as (H1 & H2 & H3 & H4 & H5). done. }
  split; [done|].
  split; [rewrite Horder; apply NoDup_seqZ|].
  split.
  { intros tag Hreg. destruct (Hwait tag Hreg) as [Hb Hunsettled].
    split; [rewrite Horder; apply elem_of_seqZ; lia|].
    destruct (promise_state tag u) eqn:Hstate; [|done].
    exfalso. apply Hunsettled, promise_state_settled. by rewrite Hstate. }
  split.
  { intros ev tag r Hr.
    destruct (Hwait tag) as [Hbound _]; [by rewrite Hr|].
    destruct ev as [r' timeout|data|tag'|tag']; cbn [Usbmux.step].
    - left. destruct (call_effect r' timeout u) as (_ & _ & _ & -> & _).
      rewrite lookup_insert_ne by lia. done.
    - destruct (decide (header_tag data = tag)) as [Heq|Hne]; [right; left; by exists data|].
      left. unfold Usbmux._handleData.
      destruct (_responseCallbacks u !! header_tag data) as [cb|] eqn:Hcb; [|done].
      destruct (run_callback_effect (header_tag data) cb data u) as (_ & -> & _).
      by rewrite lookup_delete_ne.
    - destruct (decide (tag' = tag)) as [->|Hne]; [right; right; by left|].
      left. destruct (timers u !! tag') as [timeout|]; [|done].
      unfold on_timeout. cbn [_responseCallbacks clearTimeout].
      destruct (_responseCallbacks u !! tag') as [cb|]; [|done].
      cbn. by rewrite lookup_delete_ne.
    - destruct (decide (tag' = tag)) as [->|Hne]; [right; right; by right|].
      left. destruct (promise_state tag' u); [|done].
      unfold on_settled. destruct (_responseCallbacks u !! tag') as [cb|]; [|done].
      cbn. by rewrite lookup_delete_ne. }
  split.
  { intros data. cbn [Usbmux.step]. unfold Usbmux._handleData.
    destruct (_responseCallbacks u !! header_tag data) as [cb|] eqn:Hcb; [|done].
    destruct (run_callback_effect (header_tag data) cb data u) as (_ & -> & _).
    apply lookup_delete_eq. }
  split.
  { intros data r Hr. cbn [Usbmux.step]. unfold Usbmux._handleData. rewrite Hr.
    destruct (run_callback_effect (header_tag data) r data u) as (_ & -> & _ & ->).
    done. }
  split.
  { intros data Hr. cbn [Usbmux.step]. unfold Usbmux._handleData. by rewrite Hr. }
  split.
  { intros tag [timeout Htimer]. cbn [Usbmux.step]. rewrite Htimer.
    unfold on_timeout. cbn [_responseCallbacks clearTimeout].
    destruct (_responseCallbacks u !! tag) as [cb|] eqn:Hcb; [|done].
    cbn. apply lookup_delete_eq. }
  split.
  { intros tag timeout r Htimer Hr. cbn [Usbmux.step]. rewrite Htimer.
    unfold on_timeout. cbn [_responseCallbacks clearTimeout]. rewrite Hr. done. }
  split.
  { intros tag Hsettled. cbn [Usbmux.step].
    destruct (promise_state tag u); [|by destruct Hsettled].
    unfold on_settled.
    destruct (_responseCallbacks u !! tag) as [cb|] eqn:Hcb; [|done].
    cbn. apply lookup_delete_eq. }
  split; done.
Qed.

(** C6.  [connect(deviceID, port)] sends, under the tag it allocated, a
    Connect request whose [PortNumber] is [byteSwap16(port)], the port with
    its two bytes exchanged: 62078 goes out as 0x7EF2.  When the response
    with that tag is a Result message, Number 0 shuts the splitter down,
    removes its pipes and resolves with the raw socket, Number 3 rejects
    with the connection-refused error, and any other Number rejects with an
    error that carries the number; in each case the waiter is removed. *)
Theorem connect_request_and_result
    (u : Usbmux.t) (deviceID : BPlist.PlistValue) (port timeout : Z) :
  let tag := fst (connect deviceID port timeout u) in
  let u1 := snd (connect deviceID port timeout u) in
  tag = _tag u
  ∧ written u1 = written u ++ [(tag, request_payload (Connect deviceID port))]
  ∧ request_payload (Connect deviceID port) !! "MessageType" = Some (string_value "Connect")
  ∧ request_payload (Connect deviceID port) !! "DeviceID" = Some deviceID
  ∧ request_payload (Connect deviceID port) !! "PortNumber"
    = Some (BPlist.PNum (byteSwap16 port))
  ∧ (0 <= port < 65536 -> byteSwap16 port = (port `mod` 256) * 256 + port `div` 256)
  ∧ byteSwap16 62078 = 0x7EF2
  ∧ forall (p : gmap string BPlist.PlistValue) (n : Z),
      p !! "MessageType" = Some (string_value "Result") ->
      p !! "Number" = Some (BPlist.PNum n) ->
      let u2 := _handleData (mkData tag p) u1 in
      _responseCallbacks u2 !! tag = None
      ∧ (n = 0 ->
         settlements u2 = settlements u ++ [(tag, Ok RawSocket)]
         ∧ splitter_shutdown u2 = true
         ∧ ((SocketClient, Splitter) ∉ pipes u2)
         ∧ ((Splitter, Decoder) ∉ pipes u2))
      ∧ (n = 3 ->
         settlements u2 = settlements u ++ [(tag, Err (ConnectionRefused port))]
         ∧ splitter_shutdown u2 = splitter_shutdown u)
      ∧ (n ≠ 0 -> n ≠ 3 ->
         settlements u2
         = settlements u ++ [(tag, Err (ConnectionFailed (Some (BPlist.PNum n))))]
         ∧ splitter_shutdown u2 = splitter_shutdown u).
Proof.
  intros tag u1.
  split; [done|]. split; [done|].
  split; [done|]. split; [done|]. split; [done|].
  split; [apply byteSwap16_swaps|]. split; [done|].
  intros p n Htype Hnumber u2. subst u2 u1 tag.
  unfold connect, call, _receivePlistPromise, Usbmux._handleData.
  cbn [fst snd header_tag _sendPlist _responseCallbacks _tag].
  rewrite lookup_insert_eq.
  unfold Usbmux.run_callback, Usbmux.responseCallback. cbn [payload].
  rewrite Htype, Hnumber. cbn [strict_eq_string strict_eq_number string_value].
  rewrite bool_decide_true by done. cbn [negb].
  unfold USBMUX_RESULT.OK, USBMUX_RESULT.CONNREFUSED.
  destruct (decide (n = 0)) as [->|Hn0].
  - rewrite bool_decide_true by done. cbn.
    split; [apply lookup_delete_eq|].
    split; [|split; [by intros [=]|by intros []]].
    intros _. split; [done|]. split; [done|].
    split.
    + intros (_ & Hin)%list_elem_of_filter.
      apply list_elem_of_filter in Hin as [Hne _]. done.
    + intros (Hne & _)%list_elem_of_filter. done.
  - rewrite (bool_decide_false (n = 0)) by done.
    destruct (decide (n = 3)) as [->|Hn3].
    + rewrite bool_decide_true by done. cbn.
      split; [apply lookup_delete_eq|].
      split; [by intros [=]|]. split; [done|]. by intros _ [].
    + rewrite bool_decide_false by done. cbn.
      split; [apply lookup_delete_eq|].
      split; [done|]. split; [done|]. done.
Qed.

End UsbmuxFacts.

Lemma connect_request_and_result_witness :
  request_payload (Connect (BPlist.PNum 7) 62078) !! "PortNumber"
  = Some (BPlist.PNum 0x7EF2)
  ∧ settlements (Usbmux._handleData no_parser (result_message 0 0)
                   (snd (connect (BPlist.PNum 7) 62078 5000 Usbmux.new)))
    = [(0, Ok RawSocket)].
Proof.
  destruct (connect_request_and_result no_parser Usbmux.new (BPlist.PNum 7) 62078 5000)
    as (_ & _ & _ & _ & Hport & _ & _ & Hresult).
  split; [exact Hport|].
  destruct (Hresult (payload (result_message 0 0)) 0) as (_ & Hok & _);
    [reflexivity | reflexivity |].
  apply Hok. reflexivity.
Defined.

Lemma waiters_tagged_and_settled_once_witness :
  sent_tags (Usbmux.run no_parser scenario2) = [0; 1]
  ∧ _responseCallbacks (Usbmux.run no_parser scenario2) !! 1 = None
  ∧ _responseCallbacks (Usbmux.run no_parser [Call ReadBUID 5000]) !! 0 = Some ReadBUID
  ∧ settlements (Usbmux.run no_parser [Call ReadBUID 5000; TimerFires 0])
    = [(0, Err (ReceiveTimeout 5000))].
Proof.
  destruct (waiters_tagged_and_settled_once no_parser scenario2)
    as (_ & Htags & _ & _ & _ & _ & _ & _ & _ & _ & _ & _ & Hnone).
  split; [exact Htags|].
  split; [apply Hnone; vm_compute; eauto|].
  destruct (waiters_tagged_and_settled_once no_parser [])
    as (Hcall & _).
  destruct (Hcall ReadBUID 5000) as (_ & _ & _ & _ & Hregistered & _).
  split; [change (Usbmux.run no_parser [Call ReadBUID 5000])
            with (snd (call ReadBUID 5000 (Usbmux.run no_parser [])));
          rewrite Hregistered; reflexivity|].
  destruct (waiters_tagged_and_settled_once no_parser [Call ReadBUID 5000])
    as (_ & _ & _ & _ & _ & _ & _ & _ & _ & Hfires & _).
  destruct (Hfires 0 5000 ReadBUID) as [_ Hsettled]; [reflexivity|reflexivity|].
  exact Hsettled.
Defined.

(** *** More on the usbmux client *)

Import Bookkeeping.

Lemma byteSwap16_bytes (value : Z) :
  byteSwap16 value = (value `mod` 256) * 256 + (value `div` 256) `mod` 256.
Proof.
  unfold byteSwap16.
  change 0xff with (Z.ones 8). change 256 with (2 ^ 8).
  rewrite !Z.land_ones, Z.shiftl_mul_pow2, Z.shiftr_div_pow2 by lia.
  pose proof (Z.mod_pos_bound value (2 ^ 8)) as Hlo.
  pose proof (Z.mod_pos_bound (value `div` 2 ^ 8) (2 ^ 8)) as Hhi.
  symmetry. apply Z.add_nocarry_lor.
  apply Z.bits_inj'. intros i Hi. rewrite Z.land_spec, Z.bits_0.
  destruct (decide (i < 8)) as [Hlt|Hge].
  - rewrite Z.mul_pow2_bits_low by lia. reflexivity.
  - rewrite (Z.mod_pow2_bits_high (value `div` 2 ^ 8) 8 i) by lia.
    apply andb_false_r.
Qed.

(** X14.  [byteSwap16] always returns a 16-bit value; applied twice it gives
    the low 16 bits of its argument, so on a port number (0 to 65535) it is
    its own inverse. *)
Theorem byteSwap16_involutive (value : Z) :
  0 <= byteSwap16 value < 65536
  ∧ byteSwap16 (byteSwap16 value) = value `mod` 65536
  ∧ (0 <= value < 65536 -> byteSwap16 (byteSwap16 value) = value).
Proof.
  assert (Hrange : forall v, 0 <= byteSwap16 v < 65536).
  { intros v. rewrite byteSwap16_bytes.
    pose proof (Z.mod_pos_bound v 256). pose proof (Z.mod_pos_bound (v `div` 256) 256). lia. }
  assert (Htwice : byteSwap16 (byteSwap16 value) = value `mod` 65536).
  { rewrite (byteSwap16_bytes (byteSwap16 value)), (byteSwap16_bytes value).
    assert (Hsplit : value `mod` 65536
                     = value `mod` 256 + 256 * ((value `div` 256) `mod` 256)).
    { change 65536 with (256 * 256). rewrite Z.rem_mul_r by lia. reflexivity. }
    pose proof (Z.mod_pos_bound value 256) as Ha.
    pose proof (Z.mod_pos_bound (value `div` 256) 256) as Hb.
    rewrite Hsplit.
    generalize dependent (value `mod` 256). intros a _ Ha.
    generalize dependent ((value `div` 256) `mod` 256). intros b Hb.
    assert (Hlow : (a * 256 + b) `mod` 256 = b).
    { rewrite Z.add_comm, Z.mod_add, Z.mod_small; lia. }
    assert (Hhigh : (a * 256 + b) `div` 256 = a).
    { rewrite Z.add_comm, Z.div_add, Z.div_small; lia. }
    rewrite Hlow, Hhigh, Z.mod_small; lia. }
  split; [apply Hrange|]. split; [exact Htwice|].
  intros Hv. rewrite Htwice. by apply Z.mod_small.
Qed.

Section UsbmuxBookkeeping.

Variable parsePairRecord : BPlist.PlistValue -> option PairRecord.t.

#[local] Abbreviation responseCallback := (Usbmux.responseCallback parsePairRecord).
#[local] Abbreviation run_callback := (Usbmux.run_callback parsePairRecord).
#[local] Abbreviation _handleData := (Usbmux._handleData parsePairRecord).
#[local] Abbreviation step := (Usbmux.step parsePairRecord).
#[local] Abbreviation run := (Usbmux.run parsePairRecord).

(** A response callback leaves the pipes of the constructor in place. *)
Lemma responseCallback_pipes (r : Request) (data : Data) (u : Usbmux.t) :
  pipes u = pipes Usbmux.new -> pipes (fst (responseCallback r data u)) = pipes Usbmux.new.
Proof.
  intros Hpipes. destruct r; cbn;
    repeat (match goal with
            | |- context [match ?x with _ => _ end] => destruct x
            end; cbn); try done.
  rewrite Hpipes. reflexivity.
Qed.

Lemma run_callback_fields (tag : Z) (r : Request) (data : Data) (u : Usbmux.t) :
  let u' := run_callback tag r data u in
  timers u' = delete tag (timers u)
  ∧ pipes u' = pipes (fst (responseCallback r data (clearTimeout tag u))).
Proof.
  unfold Usbmux.run_callback.
  pose proof (responseCallback_frame parsePairRecord r data (clearTimeout tag u)) as Hframe.
  destruct (Usbmux.responseCallback parsePairRecord r data (clearTimeout tag u)) as [u1 res].
  cbn in *. destruct Hframe as (_ & _ & -> & _). done.
Qed.

Lemma bookkeeping_new : bookkeeping Usbmux.new.
Proof.
  split; cbn; [|by intros tag r; rewrite lookup_empty|done|done].
  intros tag. by rewrite !lookup_empty.
Qed.

Lemma bookkeeping_call (r : Request) (timeout : Z) (u : Usbmux.t) :
  bookkeeping u -> bookkeeping (snd (call r timeout u)).
Proof.
  intros [Htimers Hrequest Hcount Hpipes]. split; cbn.
  - intros tag. destruct (decide (tag = _tag u)) as [->|Hne].
    + rewrite !lookup_insert_eq. split; eauto.
    + rewrite !lookup_insert_ne by done. apply Htimers.
  - intros tag r'. destruct (decide (tag = _tag u)) as [->|Hne].
    + rewrite lookup_insert_eq. intros [= <-]. split; [lia|].
      rewrite <- Hcount, Nat2Z.id, lookup_app_r by lia.
      by rewrite Nat.sub_diag.
    + rewrite lookup_insert_ne by done. intros Hr.
      destruct (Hrequest tag r' Hr) as [Hpos Hsent]. split; [done|].
      rewrite lookup_app_l; [done|]. by eapply lookup_lt_Some.
  - rewrite length_app. cbn. lia.
  - done.
Qed.

Lemma bookkeeping_step (u : Usbmux.t) (ev : Event) :
  invariant u -> bookkeeping u -> bookkeeping (step u ev).
Proof.
  intros Hinv [Htimers Hrequest Hcount Hpipes].
  destruct ev as [r timeout|data|tag|tag]; cbn [Usbmux.step].
  - by apply bookkeeping_call.
  - unfold Usbmux._handleData.
    destruct (_responseCallbacks u !! header_tag data) as [cb|] eqn:Hcb; [|done].
    destruct (run_callback_effect parsePairRecord (header_tag data) cb data u)
      as (Ht & Hc & Hw & Hs).
    destruct (run_callback_fields (header_tag data) cb data u) as (Htm & Hp).
    split.
    + intros tag. rewrite Htm, Hc.
      destruct (decide (tag = header_tag data)) as [->|Hne].
      * rewrite !lookup_delete_eq. split; by intros [? ?].
      * rewrite !lookup_delete_ne by done. apply Htimers.
    + intros tag r. rewrite Hc, Hw.
      destruct (decide (tag = header_tag data)) as [->|Hne].
      * by rewrite lookup_delete_eq.
      * rewrite lookup_delete_ne by done. apply Hrequest.
    + by rewrite Hw, Ht.
    + rewrite Hp. by apply responseCallback_pipes.
  - destruct (timers u !! tag) as [timeout|] eqn:Htimer; [|done].
    unfold on_timeout. cbn [_responseCallbacks clearTimeout].
    assert (Hdeleted : forall tag', is_Some (delete tag (timers u) !! tag')
                                    <-> is_Some (delete tag (_responseCallbacks u) !! tag')).
    { intros tag'. destruct (decide (tag' = tag)) as [->|Hne].
      - rewrite !lookup_delete_eq. split; by intros [? ?].
      - rewrite !lookup_delete_ne by done. apply Htimers. }
    destruct (_responseCallbacks u !! tag) as [cb|] eqn:Hcb.
    + split; cbn; [done| |done|done].
      intros tag' r. destruct (decide (tag' = tag)) as [->|Hne].
      * by rewrite lookup_delete_eq.
      * rewrite lookup_delete_ne by done. apply Hrequest.
    + split; cbn; [|done|done|done].
      intros tag'. rewrite Hdeleted. by rewrite delete_id.
  - destruct (promise_state tag u) eqn:Hstate; [|done].
    unfold on_settled. destruct (_responseCallbacks u !! tag) eqn:Hcb; [|done].
    destruct Hinv as [_ Hwait _ _].
    destruct (Hwait tag) as [_ Hfresh]; [by rewrite Hcb|].
    exfalso. apply Hfresh, promise_state_settled. by rewrite Hstate.
Qed.

Lemma bookkeeping_run (evs : list Event) : bookkeeping (run evs).
Proof.
  unfold Usbmux.run.
  assert (Hgen : forall u, invariant u -> bookkeeping u ->
                           invariant (foldl step u evs) ∧ bookkeeping (foldl step u evs)).
  { induction evs as [|ev evs IH]; intros u Hu Hb; [done|].
    cbn. apply IH; [by apply invariant_step|by apply bookkeeping_step]. }
  apply Hgen; [apply invariant_new|apply bookkeeping_new].
Qed.

(** X15.  However the instance was driven, its pipes are the two that the
    constructor made: the socket client into the decoder and the encoder
    into the socket client.  The two [unpipe] calls of a successful
    [connect] remove nothing, since the socket client was never piped into
    the splitter nor the splitter into the decoder; the decoder stays
    attached to the socket that [connect] hands out. *)
Theorem decoder_stays_piped (evs : list Event) :
  pipes (run evs) = [(SocketClient, Decoder); (Encoder, SocketClient)].
Proof. by destruct (bookkeeping_run evs) as [_ _ _ ->]. Qed.

(** X16.  A message whose tag belongs to a promise that is already settled,
    or to no request sent so far, is dropped: [_handleData] leaves the
    instance as it was. *)
Theorem stale_response_dropped (evs : list Event) (data : Data) :
  let u := run evs in
  header_tag data ∈ settled_tags u ∨ header_tag data < 0 ∨ _tag u <= header_tag data ->
  step u (Receive data) = u.
Proof.
  intros u Hstale. destruct (invariant_run parsePairRecord evs) as [_ Hwait _ _].
  fold u in Hwait. cbn [Usbmux.step]. unfold Usbmux._handleData.
  destruct (_responseCallbacks u !! header_tag data) as [cb|] eqn:Hcb; [|done].
  destruct (Hwait (header_tag data)) as [Hbound Hfresh]; [by rewrite Hcb|].
  destruct Hstale as [Hin|[Hneg|Hhigh]]; [done|lia|lia].
Qed.

(** X17.  However the instance was driven, a timeout is pending for exactly
    the tags that have a waiter in the map.  When the timer of a tag fires,
    the promise of that tag is rejected with the timeout error that carries
    the timeout of the timer, the waiter and the timer are gone, and nothing
    is sent. *)
Theorem timer_pending_iff_waiting (evs : list Event) (tag : Z) :
  let u := run evs in
  (is_Some (timers u !! tag) <-> is_Some (_responseCallbacks u !! tag))
  ∧ forall timeout,
      timers u !! tag = Some timeout ->
      let u' := step u (TimerFires tag) in
      promise_state tag u' = Some (Err (ReceiveTimeout timeout))
      ∧ timers u' !! tag = None
      ∧ _responseCallbacks u' !! tag = None
      ∧ written u' = written u.
Proof.
  intros u. destruct (bookkeeping_run evs) as [Htimers _ _ _]. fold u in Htimers.
  destruct (invariant_run parsePairRecord evs) as [_ Hwait _ _]. fold u in Hwait.
  split; [apply Htimers|].
  intros timeout Htimer u'. subst u'. cbn [Usbmux.step]. rewrite Htimer.
  destruct (proj1 (Htimers tag)) as [cb Hcb]; [by rewrite Htimer|].
  destruct (Hwait tag) as [_ Hfresh]; [by rewrite Hcb|].
  unfold on_timeout. cbn [_responseCallbacks clearTimeout]. rewrite Hcb.
  cbn. rewrite !lookup_delete_eq. split; [|done].
  unfold promise_state. cbn [settlements].
  assert (Hfind : forall l : list (Z * Result UsbmuxError Resolved),
             tag ∉ map fst l ->
             find (fun s => bool_decide (fst s = tag)) (l ++ [(tag, Err (ReceiveTimeout timeout))])
             = Some (tag, Err (ReceiveTimeout timeout))).
  { induction l as [|[t res] l IH]; cbn; intros Hnot.
    - by rewrite bool_decide_true.
    - rewrite not_elem_of_cons in Hnot. destruct Hnot as [Hne Hnot].
      rewrite bool_decide_false by (cbn in *; congruence). by apply IH. }
  by rewrite Hfind.
Qed.

(** X18.  The [finally] handler attached to a receive promise never finds an
    entry to delete: whenever it runs the instance stays as it was, since
    the callback and the timeout handler remove the entry when they settle
    the promise. *)
Theorem settled_handler_finds_no_entry (evs : list Event) (tag : Z) :
  step (run evs) (Settled tag) = run evs.
Proof.
  destruct (invariant_run parsePairRecord evs) as [_ Hwait _ _].
  cbn [Usbmux.step]. destruct (promise_state tag (run evs)) eqn:Hstate; [|done].
  unfold on_settled. destruct (_responseCallbacks (run evs) !! tag) eqn:Hcb; [|done].
  destruct (Hwait tag) as [_ Hfresh]; [by rewrite Hcb|].
  exfalso. apply Hfresh, promise_state_settled. by rewrite Hstate.
Qed.

(** X19.  For every waiter in the map, however the instance was driven: its
    tag was allocated, the request written under that tag is the request of
    the waiter's operation, its timer is pending, and its promise is not
    settled. *)
Theorem waiter_belongs_to_request (evs : list Event) (tag : Z) (r : Request) :
  let u := run evs in
  _responseCallbacks u !! tag = Some r ->
  0 <= tag < _tag u
  ∧ written u !! Z.to_nat tag = Some (tag, request_payload r)
  ∧ is_Some (timers u !! tag)
  ∧ promise_state tag u = None.
Proof.
  intros u Hr. destruct (bookkeeping_run evs) as [Htimers Hrequest _ _].
  destruct (invariant_run parsePairRecord evs) as [_ Hwait _ _].
  fold u in Htimers, Hrequest, Hwait.
  destruct (Hwait tag) as [Hbound Hfresh]; [by rewrite Hr|].
  destruct (Hrequest tag r Hr) as [_ Hsent].
  split; [done|]. split; [done|]. split; [apply Htimers; by rewrite Hr|].
  destruct (promise_state tag u) eqn:Hstate; [|done].
  exfalso. apply Hfresh, promise_state_settled. by rewrite Hstate.
Qed.

Lemma promise_state_other (tag tag' : Z) res (u u' : Usbmux.t) :
  tag' ≠ tag ->
  settlements u' = settlements u ++ [(tag, res)] ->
  promise_state tag' u' = promise_state tag' u.
Proof.
  intros Hne Hs. unfold promise_state. rewrite Hs. clear Hs. f_equal.
  induction (settlements u) as [|[t r] l IH]; cbn.
  - case_bool_decide as Heq; [by destruct Hne|done].
  - by destruct (bool_decide (t = tag')).
Qed.

(** X20.  Handling a message touches the waiter of its own tag only: for any
    other tag the waiter, the timer and the state of the promise are as
    before; nothing is written and no tag is allocated. *)
Theorem response_settles_only_its_waiter (u : Usbmux.t) (data : Data) (tag : Z) :
  tag ≠ header_tag data ->
  let u' := _handleData data u in
  _responseCallbacks u' !! tag = _responseCallbacks u !! tag
  ∧ timers u' !! tag = timers u !! tag
  ∧ promise_state tag u' = promise_state tag u
  ∧ written u' = written u
  ∧ _tag u' = _tag u.
Proof.
  intros Hne u'. subst u'. unfold Usbmux._handleData.
  destruct (_responseCallbacks u !! header_tag data) as [cb|] eqn:Hcb; [|done].
  destruct (run_callback_effect parsePairRecord (header_tag data) cb data u)
    as (Ht & Hc & Hw & Hs).
  destruct (run_callback_fields (header_tag data) cb data u) as (Htm & _).
  rewrite Hc, Htm, !lookup_delete_ne by done.
  split; [done|]. split; [done|]. split; [|done].
  by eapply promise_state_other.
Qed.

End UsbmuxBookkeeping.

Lemma stale_response_dropped_witness :
  Usbmux.step no_parser (Usbmux.run no_parser scenario2) (Receive (buid_message 0 "B"))
  = Usbmux.run no_parser scenario2.
Proof.
  apply (stale_response_dropped no_parser scenario2 (buid_message 0 "B")).
  left. vm_compute. apply elem_of_cons. right. apply elem_of_cons. by left.
Defined.

Lemma timer_pending_iff_waiting_witness :
  promise_state 0 (Usbmux.step no_parser (Usbmux.run no_parser [Call ReadBUID 5000])
                     (TimerFires 0))
  = Some (Err (ReceiveTimeout 5000)).
Proof.
  destruct (timer_pending_iff_waiting no_parser [Call ReadBUID 5000] 0) as [_ Hfires].
  destruct (Hfires 5000) as [Hstate _]; [reflexivity|exact Hstate].
Defined.

Lemma waiter_belongs_to_request_witness :
  written (Usbmux.run no_parser [Call ReadBUID 5000; Call ListDevices 5000]) !! 1%nat
  = Some (1, request_payload ListDevices).
Proof.
  destruct (waiter_belongs_to_request no_parser [Call ReadBUID 5000; Call ListDevices 5000]
              1 ListDevices) as (_ & Hsent & _); [reflexivity|exact Hsent].
Defined.

Lemma response_settles_only_its_waiter_witness :
  _responseCallbacks
    (Usbmux._handleData no_parser (buid_message 0 "B")
       (Usbmux.run no_parser [Call ReadBUID 5000; Call ListDevices 5000])) !! 1
  = Some ListDevices.
Proof.
  destruct (response_settles_only_its_waiter no_parser
              (Usbmux.run no_parser [Call ReadBUID 5000; Call ListDevices 5000])
              (buid_message 0 "B") 1) as (Hwaiter & _); [done|].
  rewrite Hwaiter. reflexivity.
Defined.

(** ** Socket discovery *)

Import Socket Address.



Lemma replace_unix_prefix_no_colon (s : string) :
  no_colon s -> replace_unix_prefix s = s.
Proof.
  unfold no_colon, replace_unix_prefix.
  destruct s as [|a [|b [|c [|d [|e rest]]]]]; try done.
  cbn. rewrite !Forall_cons. intros (_ & _ & _ & _ & He & _).
  rewrite (bool_decide_false (e = ":"%char)) by done.
  by rewrite andb_false_r.
Qed.










(** *** What [parseInt] reads *)













(** *** Socket options and the environment *)

Import Options.

Lemma apply_environment_explicit (proc : Process) (opts : SocketOptions) :
  explicit opts = true -> apply_environment proc opts = defaults0.
Proof.
  unfold explicit, apply_environment. intros Hexplicit.
  destruct (truthy_string (USBMUXD_SOCKET_ADDRESS proc)); [|done].
  destruct (truthy_string (socketPath opts)); [done|].
  destruct (truthy_number (socketPort opts)); [done|].
  destruct (truthy_string (socketHost opts)); [done|]. done.
Qed.

(** X27.  When one of [socketPath], [socketPort] and [socketHost] is given
    and truthy, USBMUXD_SOCKET_ADDRESS is not looked at: the Unix socket
    path, the port and the host are each the option when it is given and
    the built-in default otherwise. *)
Theorem explicit_options_suppress_environment (proc : Process) (opts : SocketOptions) :
  explicit opts = true ->
  createConnection proc opts
  = path_then_tcp proc (default DEFAULT_USBMUXD_SOCKET (socketPath opts))
                  (default (Num USBMUXD_PORT) (socketPort opts))
                  (default DEFAULT_USBMUXD_HOST (socketHost opts)).
Proof.
  intros Hexplicit. unfold createConnection.
  by rewrite apply_environment_explicit.
Qed.

Lemma explicit_options_suppress_environment_witness :
  createConnection wsl_without_socket (host_only "192.168.1.9")
  = Ok (Tcp (Num 27015) "192.168.1.9").
Proof.
  rewrite (explicit_options_suppress_environment wsl_without_socket (host_only "192.168.1.9"))
    by reflexivity.
  reflexivity.
Defined.





